(** * pylogrouter: a shallow embedding of the defensive core

    The development follows the layout of the Python package:
    text helpers ([facilities.py], top), the syntax colorizer, the strict
    HTML row validator, the path safety guard, the file and HTML facilities
    with their rotation, and the router with its message preparation and
    write throttle ([router.py]).

    Part I holds the model, Part II the properties proved about it, and
    Part III further properties of the same code. *)

From Stdlib Require Import ZArith NArith Lia String Ascii Bool DecimalString DecimalZ QArith.
From stdpp Require Import gmap strings list fin_maps.

#[local] Open Scope Z_scope.

(* ===================================================================== *)
(** * Part I. The model                                                   *)
(* ===================================================================== *)

(** ** Python text

    A Python [str] is a sequence of Unicode code points.  A character is
    its code point ([ord]); literals of the source are written [py "..."]. *)

Abbreviation char := N.
Abbreviation pystr := (list N).

Definition py (s : string) : pystr :=
  map N_of_ascii (list_ascii_of_string s).

Definition LF : char := 10%N.
Definition CR : char := 13%N.
Definition TAB : char := 9%N.
Definition SPACE : char := 32%N.
Definition BACKSLASH : char := 92%N.
Definition DQUOTE : char := 34%N.
Definition SQUOTE : char := 39%N.

(** [len(x)] as a Python integer. *)
Definition len {A} (l : list A) : Z := Z.of_nat (length l).

(** [s[:n]] for any integer [n]: a negative bound counts from the end. *)
Definition slice_to {A} (s : list A) (n : Z) : list A :=
  if n <? 0 then firstn (length s - Z.to_nat (- n)) s
  else firstn (Z.to_nat n) s.

(** [s[n:]]. *)
Definition slice_from {A} (s : list A) (n : Z) : list A :=
  if n <? 0 then skipn (length s - Z.to_nat (- n)) s
  else skipn (Z.to_nat n) s.

Fixpoint starts_with (p s : pystr) : bool :=
  match p, s with
  | [], _ => true
  | a :: p', b :: s' => (a =? b)%N && starts_with p' s'
  | _ :: _, [] => false
  end.

(** [s.replace(old, new)] for a non-empty [old]: leftmost, non-overlapping
    occurrences.  [skip] counts the characters of a matched occurrence still
    to be passed over. *)
Fixpoint replace_from (old new : pystr) (skip : nat) (s : pystr) : pystr :=
  match s with
  | [] => []
  | c :: r =>
      match skip with
      | S k => replace_from old new k r
      | O =>
          if starts_with old s
          then new ++ replace_from old new (length old - 1)%nat r
          else c :: replace_from old new O r
      end
  end.

Definition str_replace (old new s : pystr) : pystr := replace_from old new O s.

(** [s.split(sep)] for a one-character separator: never the empty list. *)
Fixpoint split_on (sep : char) (s : pystr) : list pystr :=
  match s with
  | [] => [[]]
  | c :: r =>
      if (c =? sep)%N then [] :: split_on sep r
      else match split_on sep r with
           | l :: ls => (c :: l) :: ls
           | [] => [[c]]
           end
  end.

(** [sep.join(parts)]. *)
Fixpoint join (sep : pystr) (parts : list pystr) : pystr :=
  match parts with
  | [] => []
  | [l] => l
  | l :: ls => l ++ sep ++ join sep ls
  end.

(** Decimal rendering of an integer, as [str(n)] and [f"{n}"] give it. *)
Fixpoint chars_of_uint (d : Decimal.uint) : pystr :=
  match d with
  | Decimal.Nil => []
  | Decimal.D0 d => 48%N :: chars_of_uint d
  | Decimal.D1 d => 49%N :: chars_of_uint d
  | Decimal.D2 d => 50%N :: chars_of_uint d
  | Decimal.D3 d => 51%N :: chars_of_uint d
  | Decimal.D4 d => 52%N :: chars_of_uint d
  | Decimal.D5 d => 53%N :: chars_of_uint d
  | Decimal.D6 d => 54%N :: chars_of_uint d
  | Decimal.D7 d => 55%N :: chars_of_uint d
  | Decimal.D8 d => 56%N :: chars_of_uint d
  | Decimal.D9 d => 57%N :: chars_of_uint d
  end.

Definition str_of_int (z : Z) : pystr :=
  match Z.to_int z with
  | Decimal.Pos d => chars_of_uint d
  | Decimal.Neg d => 45%N :: chars_of_uint d
  end.

(** [normalize_newlines]: CRLF first, then the remaining CR. *)
Definition normalize_newlines (text : pystr) : pystr :=
  str_replace [CR] [LF] (str_replace [CR; LF] [LF] text).

(** Number of lines of a text: the pieces [split("\n")] returns. *)
Definition line_count (s : pystr) : Z := len (split_on LF s).

(** Python's [str.isspace], which is also the class [\s] of [re] on
    text patterns and the default set of [split()] and [strip()]. *)
Definition isspace (c : char) : bool :=
  ((9 <=? c) && (c <=? 13) || (28 <=? c) && (c <=? 32)
   || (c =? 133) || (c =? 160) || (c =? 5760)
   || (8192 <=? c) && (c <=? 8202)
   || (c =? 8232) || (c =? 8233) || (c =? 8239) || (c =? 8287)
   || (c =? 12288))%N.

(** Character classes of Python's Unicode database that the package calls
    and that are table driven: they are taken as given. *)
Record Unicode := {
  isdigit : char -> bool;
  isalpha : char -> bool;
  isalnum : char -> bool;
  lower : pystr -> pystr
}.

(** ** Exceptions ([errors.py] and the built-in ones the package meets)

    Only the class of an exception is kept, not its message. *)
Inductive exception :=
| HtmlSanitizationError
| UnsafeLogTargetError
| ValueError
| FileNotFoundError
| OtherOSError            (* any other [OSError]: ENOTDIR, EISDIR, ELOOP, ... *)
| UnicodeEncodeError
| UnicodeDecodeError
| TimeoutError
| KeyError.

#[export] Instance exception_eq_dec : EqDecision exception.
Proof. solve_decision. Defined.

(** [isinstance(e, ValueError)]: the Unicode errors are value errors. *)
Definition is_ValueError (e : exception) : bool :=
  match e with
  | ValueError | UnicodeEncodeError | UnicodeDecodeError => true
  | _ => false
  end.

Inductive res (A : Type) :=
| Ok (a : A)
| Raise (e : exception).
Arguments Ok {A} a.
Arguments Raise {A} e.

#[export] Instance res_ret : MRet res := fun A a => Ok a.
#[export] Instance res_bind : MBind res := fun A B f m =>
  match m with
  | Ok a => f a
  | Raise e => Raise e
  end.

(** ** State and exceptions

    Code that acts on the file system, the console or the clocks is a
    function from the state it acts on to a result (a value or a raised
    exception) and the state it leaves. *)

Definition M (S A : Type) : Type := S -> res A * S.

#[export] Instance M_ret {S} : MRet (M S) := fun A a s => (Ok a, s).
#[export] Instance M_bind {S} : MBind (M S) := fun A B f m s =>
  match m s with
  | (Ok a, s') => f a s'
  | (Raise e, s') => (Raise e, s')
  end.

Definition raise {S A} (e : exception) : M S A := fun s => (Raise e, s).

(** A pure computation that may raise. *)
Definition lift_res {S A} (r : res A) : M S A := fun s => (r, s).

(** A system call that reads the state. *)
Definition query {S A} (f : S -> res A) : M S A := fun s => (f s, s).

(** A system call that changes the state when it succeeds. *)
Definition call {S} (f : S -> res S) : M S unit := fun s =>
  match f s with
  | Ok s' => (Ok tt, s')
  | Raise e => (Raise e, s)
  end.

Definition when {S} (b : bool) (m : M S unit) : M S unit :=
  if b then m else mret tt.

(** ** Wall clock and time budget

    [time.perf_counter()] is read through a clock: [perf_counter k] is the
    value of the [k]-th reading of a run, a rational number of seconds.  A
    computation under a time budget threads the number of readings made so
    far and either finishes or is cut short by [TimeoutError]. *)

Abbreviation timed := (M nat).

(** ** Syntax colorizer ([SyntaxColorizer]) *)

Abbreviation span := (nat * nat)%type.

(** [_check_deadline]: without a deadline the clock is not read. *)
Definition check_deadline (perf_counter : nat -> Q) (deadline : option Q)
  : timed unit :=
  fun k => match deadline with
           | None => (Ok tt, k)
           | Some d =>
               if Qle_bool d (perf_counter k) then (Raise TimeoutError, S k)
               else (Ok tt, S k)
           end.

Definition is_quote (c : char) : bool := ((c =? DQUOTE) || (c =? SQUOTE))%N.

(** [text[i]]; every use is guarded by [i < len(text)]. *)
Definition char_at (text : pystr) (i : nat) : char := nth i text 0%N.

Section Colorizer.
Variable perf_counter : nat -> Q.
Variable deadline : option Q.
Variable text : pystr.

(** Inner [while] of [quoted_content_spans]: [Some cursor] when the loop
    leaves through [break], [None] when it runs to its [else] branch. *)
Fixpoint content_close (fuel : nat) (quote : char) (start cursor : nat)
  : timed (option nat) :=
  match fuel with
  | O => mret None
  | S fuel' =>
      if (cursor <? length text)%nat then
        _ ← check_deadline perf_counter deadline;
        let char := char_at text cursor in
        if (char =? quote)%N
           && ((cursor =? start)%nat
               || negb (char_at text (cursor - 1) =? BACKSLASH)%N)
        then mret (Some cursor)
        else content_close fuel' quote start (cursor + 1)%nat
      else mret None
  end.

(** Outer [while] of [quoted_content_spans]. *)
Fixpoint content_loop (fuel : nat) (idx : nat) (spans : list span)
  : timed (list span) :=
  match fuel with
  | O => mret spans
  | S fuel' =>
      if (idx <? length text)%nat then
        _ ← check_deadline perf_counter deadline;
        let quote := char_at text idx in
        if negb (is_quote quote) then content_loop fuel' (idx + 1)%nat spans
        else
          let start := (idx + 1)%nat in
          closed ← content_close (length text) quote start start;
          match closed with
          | Some cursor =>
              content_loop fuel' (cursor + 1)%nat (spans ++ [(start, cursor)])
          | None => content_loop fuel' (idx + 1)%nat spans
          end
      else mret spans
  end.

Definition quoted_content_spans : timed (list span) :=
  content_loop (S (length text)) 0%nat [].

(** Inner [while] of [quote_mark_positions]. *)
Fixpoint mark_close (fuel : nat) (quote : char) (cursor : nat)
  : timed (option nat) :=
  match fuel with
  | O => mret None
  | S fuel' =>
      if (cursor <? length text)%nat then
        _ ← check_deadline perf_counter deadline;
        let char := char_at text cursor in
        if (char =? quote)%N
           && negb (char_at text (cursor - 1) =? BACKSLASH)%N
        then mret (Some cursor)
        else mark_close fuel' quote (cursor + 1)%nat
      else mret None
  end.

Fixpoint mark_loop (fuel : nat) (idx : nat) (positions : gset nat)
  : timed (gset nat) :=
  match fuel with
  | O => mret positions
  | S fuel' =>
      if (idx <? length text)%nat then
        _ ← check_deadline perf_counter deadline;
        let quote := char_at text idx in
        if negb (is_quote quote) then mark_loop fuel' (idx + 1)%nat positions
        else
          let start := idx in
          closed ← mark_close (length text) quote (idx + 1)%nat;
          match closed with
          | Some cursor =>
              mark_loop fuel' (cursor + 1)%nat ({[cursor]} ∪ ({[start]} ∪ positions))
          | None => mark_loop fuel' (idx + 1)%nat positions
          end
      else mret positions
  end.

Definition quote_mark_positions : timed (gset nat) :=
  mark_loop (S (length text)) 0%nat ∅.

Variable U : Unicode.

(** Identifier run of [lhs_equals_spans]: the index after the run. *)
Fixpoint ident_run (fuel : nat) (idx : nat) : timed nat :=
  match fuel with
  | O => mret idx
  | S fuel' =>
      if (idx <? length text)%nat
         && (isalnum U (char_at text idx) || (char_at text idx =? 95)%N)
      then _ ← check_deadline perf_counter deadline; ident_run fuel' (idx + 1)%nat
      else mret idx
  end.

(** Whitespace look-ahead of [lhs_equals_spans]; it checks no deadline. *)
Fixpoint skip_space (fuel : nat) (lookahead : nat) : nat :=
  match fuel with
  | O => lookahead
  | S fuel' =>
      if (lookahead <? length text)%nat && isspace (char_at text lookahead)
      then skip_space fuel' (lookahead + 1)%nat
      else lookahead
  end.

Fixpoint lhs_loop (fuel : nat) (idx : nat) (spans : list span)
  : timed (list span) :=
  match fuel with
  | O => mret spans
  | S fuel' =>
      if (idx <? length text)%nat then
        _ ← check_deadline perf_counter deadline;
        let char := char_at text idx in
        if negb (isalpha U char || (char =? 95)%N)
        then lhs_loop fuel' (idx + 1)%nat spans
        else
          let start := idx in
          end_ ← ident_run (length text) (idx + 1)%nat;
          let lookahead := skip_space (length text) end_ in
          if (lookahead <? length text)%nat && (char_at text lookahead =? 61)%N
          then lhs_loop fuel' end_ (spans ++ [(start, end_)])
          else lhs_loop fuel' end_ spans
      else mret spans
  end.

Definition lhs_equals_spans : timed (list span) :=
  lhs_loop (S (length text)) 0%nat [].
End Colorizer.

Fixpoint index_in_spans (index : nat) (spans : list span) : bool :=
  match spans with
  | [] => false
  | (start, end_) :: rest =>
      if (start <=? index)%nat && (index <? end_)%nat then true
      else index_in_spans index rest
  end.

Definition PUNCTUATION_CHARS : gset N := list_to_set (py ".,+-=<>:;[]{}").

Definition token_class (U : Unicode) (index : nat) (ch : char)
    (quote_spans : list span) (quote_marks : gset nat) (lhs_spans : list span)
  : pystr :=
  if bool_decide (index ∈ quote_marks) then py "quote-mark"
  else if index_in_spans index quote_spans then py "quote-content"
  else if index_in_spans index lhs_spans then py "lhs"
  else if isdigit U ch then py "number"
  else if bool_decide (ch ∈ PUNCTUATION_CHARS) then py "punct"
  else py "base".

(** ** Strict HTML row validator ([StrictHtmlFragmentValidator])

    The validator subclasses [html.parser.HTMLParser], which turns the text
    it is fed into calls of its handler methods.  A call is an event; the
    parser itself is a function from text to the events of [feed] followed
    by [close]. *)

Abbreviation attr_list := (list (pystr * option pystr)).

Inductive html_event :=
| StartTag (tag : pystr) (attrs : attr_list)
| EndTag (tag : pystr)
| StartEndTag (tag : pystr) (attrs : attr_list)
| Comment (data : pystr)
| Data (data : pystr)
| EntityRef (name : pystr)
| CharRef (name : pystr)
| Decl (decl : pystr)
| ProcessingInstruction (data : pystr)
| UnknownDecl (data : pystr).

Definition ALLOWED_HTML_ROW_TAGS : gset pystr :=
  list_to_set [py "div"; py "pre"; py "span"].

Definition ALLOWED_HTML_ROW_CLASSES : gset pystr :=
  list_to_set
    [ py "log-row"; py "log-line-no"; py "log-time"; py "log-date";
      py "log-clock"; py "badge-info"; py "badge-debug"; py "badge-warning";
      py "badge-error"; py "syn-base"; py "syn-quote-mark";
      py "syn-quote-content"; py "syn-number"; py "syn-punct"; py "syn-lhs" ].

(** [s.split()]: the maximal runs of non-whitespace characters. *)
Fixpoint split_ws_from (cur : pystr) (s : pystr) : list pystr :=
  match s with
  | [] => match cur with [] => [] | _ => [cur] end
  | c :: r =>
      if isspace c
      then match cur with
           | [] => split_ws_from [] r
           | _ => cur :: split_ws_from [] r
           end
      else split_ws_from (cur ++ [c]) r
  end.

Definition split_ws (s : pystr) : list pystr := split_ws_from [] s.

Definition nonempty_str (s : pystr) : bool :=
  match s with [] => false | _ => true end.

Record validator_state := {
  stack : list pystr;      (* top of the stack first *)
  saw_root : bool
}.

Definition validator_init : validator_state :=
  {| stack := []; saw_root := false |}.

(** [_validate_attributes]. *)
Fixpoint validate_attributes (U : Unicode) (tag : pystr) (attrs : attr_list)
  : res unit :=
  match attrs with
  | [] => Ok tt
  | (attr_name, attr_value) :: rest =>
      let lowered_attr := lower U attr_name in
      if starts_with (py "on") lowered_attr then Raise HtmlSanitizationError
      else if negb (bool_decide (lowered_attr = py "class"))
      then Raise HtmlSanitizationError
      else
        match attr_value with
        | None => Raise HtmlSanitizationError
        | Some value =>
            let classes := List.filter nonempty_str (split_ws value) in
            match classes with
            | [] => Raise HtmlSanitizationError
            | _ =>
                if forallb (fun class_name =>
                              bool_decide (class_name ∈ ALLOWED_HTML_ROW_CLASSES))
                           classes
                then validate_attributes U tag rest
                else Raise HtmlSanitizationError
            end
        end
  end.

Definition handle_starttag (U : Unicode) (self : validator_state)
    (tag : pystr) (attrs : attr_list) : res validator_state :=
  if negb (bool_decide (tag ∈ ALLOWED_HTML_ROW_TAGS))
  then Raise HtmlSanitizationError
  else
    self ← (if negb (saw_root self)
            then if negb (bool_decide (tag = py "div"))
                 then Raise HtmlSanitizationError
                 else Ok {| stack := stack self; saw_root := true |}
            else Ok self);
    _ ← validate_attributes U tag attrs;
    Ok {| stack := tag :: stack self; saw_root := saw_root self |}.

Definition handle_endtag (self : validator_state) (tag : pystr)
  : res validator_state :=
  if negb (bool_decide (tag ∈ ALLOWED_HTML_ROW_TAGS))
  then Raise HtmlSanitizationError
  else
    match stack self with
    | [] => Raise HtmlSanitizationError
    | expected_tag :: popped =>
        if negb (bool_decide (expected_tag = tag))
        then Raise HtmlSanitizationError
        else Ok {| stack := popped; saw_root := saw_root self |}
    end.

(** One handler call.  The handlers the class does not override are the
    no-ops of [HTMLParser]. *)
Definition handle_event (U : Unicode) (self : validator_state) (ev : html_event)
  : res validator_state :=
  match ev with
  | StartTag tag attrs => handle_starttag U self tag attrs
  | EndTag tag => handle_endtag self tag
  | StartEndTag _ _ => Raise HtmlSanitizationError
  | Comment _ => Raise HtmlSanitizationError
  | Data _ | EntityRef _ | CharRef _ | Decl _
  | ProcessingInstruction _ | UnknownDecl _ => Ok self
  end.

Fixpoint feed_events (U : Unicode) (self : validator_state)
    (events : list html_event) : res validator_state :=
  match events with
  | [] => Ok self
  | ev :: rest => self ← handle_event U self ev; feed_events U self rest
  end.

Definition validate_complete (self : validator_state) : res unit :=
  if negb (saw_root self) then Raise HtmlSanitizationError
  else match stack self with
       | [] => Ok tt
       | _ => Raise HtmlSanitizationError
       end.

(** [validate_rendered_row_or_raise]; [html_parser] stands for the
    tokenisation done by [feed] and [close]. *)
Definition validate_rendered_row_or_raise
    (html_parser : pystr -> list html_event) (U : Unicode) (row_html : pystr)
  : res unit :=
  validator ← feed_events U validator_init (html_parser row_html);
  validate_complete validator.

(** ** Bytes and UTF-8 *)

Abbreviation bytes := (list Byte.byte).

Definition byte_of_Z (z : Z) : Byte.byte :=
  default Byte.x00 (Byte.of_N (Z.to_N z)).

Definition Z_of_byte (b : Byte.byte) : Z := Z.of_N (Byte.to_N b).

(** [ch.encode("utf-8")]: surrogates cannot be encoded. *)
Definition encode_char (c : char) : res bytes :=
  let z := Z.of_N c in
  if z <? 0x80 then Ok [byte_of_Z z]
  else if z <? 0x800 then
    Ok [byte_of_Z (Z.lor 0xC0 (Z.shiftr z 6));
        byte_of_Z (Z.lor 0x80 (Z.land z 0x3F))]
  else if z <? 0x10000 then
    if (0xD800 <=? z) && (z <=? 0xDFFF) then Raise UnicodeEncodeError
    else Ok [byte_of_Z (Z.lor 0xE0 (Z.shiftr z 12));
             byte_of_Z (Z.lor 0x80 (Z.land (Z.shiftr z 6) 0x3F));
             byte_of_Z (Z.lor 0x80 (Z.land z 0x3F))]
  else if z <? 0x110000 then
    Ok [byte_of_Z (Z.lor 0xF0 (Z.shiftr z 18));
        byte_of_Z (Z.lor 0x80 (Z.land (Z.shiftr z 12) 0x3F));
        byte_of_Z (Z.lor 0x80 (Z.land (Z.shiftr z 6) 0x3F));
        byte_of_Z (Z.lor 0x80 (Z.land z 0x3F))]
  else Raise UnicodeEncodeError.

Fixpoint encode_utf8 (s : pystr) : res bytes :=
  match s with
  | [] => Ok []
  | c :: r =>
      b ← encode_char c;
      rest ← encode_utf8 r;
      Ok (b ++ rest)
  end.

Definition is_cont (lo hi : Z) (b : Byte.byte) : bool :=
  (lo <=? Z_of_byte b) && (Z_of_byte b <=? hi).

Definition cont_bits (b : Byte.byte) : Z := Z.land (Z_of_byte b) 0x3F.

(** [data.decode("utf-8")], strict: no overlong forms, no surrogates,
    nothing above U+10FFFF. *)
Fixpoint decode_utf8 (data : bytes) : res pystr :=
  match data with
  | [] => Ok []
  | b0 :: r =>
      let z0 := Z_of_byte b0 in
      if z0 <? 0x80 then
        rest ← decode_utf8 r; Ok (Z.to_N z0 :: rest)
      else if (0xC2 <=? z0) && (z0 <=? 0xDF) then
        match r with
        | b1 :: r1 =>
            if is_cont 0x80 0xBF b1 then
              rest ← decode_utf8 r1;
              Ok (Z.to_N (Z.lor (Z.shiftl (Z.land z0 0x1F) 6) (cont_bits b1)) :: rest)
            else Raise UnicodeDecodeError
        | _ => Raise UnicodeDecodeError
        end
      else if (0xE0 <=? z0) && (z0 <=? 0xEF) then
        match r with
        | b1 :: b2 :: r2 =>
            let lo := if z0 =? 0xE0 then 0xA0 else 0x80 in
            let hi := if z0 =? 0xED then 0x9F else 0xBF in
            if is_cont lo hi b1 && is_cont 0x80 0xBF b2 then
              rest ← decode_utf8 r2;
              Ok (Z.to_N (Z.lor (Z.shiftl (Z.land z0 0x0F) 12)
                            (Z.lor (Z.shiftl (cont_bits b1) 6) (cont_bits b2)))
                    :: rest)
            else Raise UnicodeDecodeError
        | _ => Raise UnicodeDecodeError
        end
      else if (0xF0 <=? z0) && (z0 <=? 0xF4) then
        match r with
        | b1 :: b2 :: b3 :: r3 =>
            let lo := if z0 =? 0xF0 then 0x90 else 0x80 in
            let hi := if z0 =? 0xF4 then 0x8F else 0xBF in
            if is_cont lo hi b1 && is_cont 0x80 0xBF b2 && is_cont 0x80 0xBF b3 then
              rest ← decode_utf8 r3;
              Ok (Z.to_N (Z.lor (Z.shiftl (Z.land z0 0x07) 18)
                            (Z.lor (Z.shiftl (cont_bits b1) 12)
                               (Z.lor (Z.shiftl (cont_bits b2) 6) (cont_bits b3))))
                    :: rest)
            else Raise UnicodeDecodeError
        | _ => Raise UnicodeDecodeError
        end
      else Raise UnicodeDecodeError
  end.

(** ** Paths ([pathlib.Path])

    A path is its anchor (absolute or not) and its components. *)
Record Path := {
  is_absolute : bool;
  parts : list pystr
}.

Definition SLASH : char := 47%N.
Definition DOT : char := 46%N.

(** [Path(text)]: empty and [.] components are dropped. *)
Definition Path_of_str (text : pystr) : Path :=
  {| is_absolute := starts_with [SLASH] text;
     parts := List.filter
                (fun part => nonempty_str part && negb (bool_decide (part = [DOT])))
                (split_on SLASH text) |}.

Definition path_parent (p : Path) : Path :=
  {| is_absolute := is_absolute p; parts := removelast (parts p) |}.

(** [p.parents]: every ancestor, nearest first. *)
Definition path_parents (p : Path) : list Path :=
  map (fun k => {| is_absolute := is_absolute p; parts := firstn k (parts p) |})
      (rev (seq 0 (length (parts p)))).

Definition path_name (p : Path) : pystr := List.last (parts p) [].

(** [p.with_name(name)]: a path without a name has none to replace. *)
Definition with_name (p : Path) (name : pystr) : res Path :=
  match path_name p with
  | [] => Raise ValueError
  | _ => Ok {| is_absolute := is_absolute p;
               parts := removelast (parts p) ++ [name] |}
  end.

(** [a / b]. *)
Definition joinpath (a b : Path) : Path :=
  if is_absolute b then b
  else {| is_absolute := is_absolute a; parts := parts a ++ parts b |}.

(** ** File system

    The tree maps the components of an absolute path to a node; the root is
    a directory.  A node is addressed by its path as spelled: resolution
    through a symbolic link is modelled for the last component only. *)
Inductive node :=
| Regular (data : bytes)
| Directory
| Symlink (target : list pystr)
| Special (mode : Z).            (* fifo, socket, device: its [st_mode] *)

Record stat_result := {
  st_mode : Z;
  st_size : Z
}.

Definition S_IFMT : Z := 0xF000.     (* 0o170000 *)
Definition S_IFREG : Z := 0x8000.    (* 0o100000 *)
Definition S_IFLNK : Z := 0xA000.    (* 0o120000 *)
Definition S_IFDIR : Z := 0x4000.    (* 0o040000 *)

Definition S_ISREG (mode : Z) : bool := Z.land mode S_IFMT =? S_IFREG.
Definition S_ISLNK (mode : Z) : bool := Z.land mode S_IFMT =? S_IFLNK.

Definition stat_of (n : node) : stat_result :=
  match n with
  | Regular data => {| st_mode := Z.lor S_IFREG 0x1A4; st_size := len data |}
  | Directory => {| st_mode := Z.lor S_IFDIR 0x1ED; st_size := 4096 |}
  | Symlink target => {| st_mode := Z.lor S_IFLNK 0x1FF; st_size := len target |}
  | Special mode => {| st_mode := mode; st_size := 0 |}
  end.

Record FileSystem := {
  cwd : list pystr;       (* the working directory, an absolute path *)
  tree : gmap (list pystr) node
}.

(** [Path.cwd()]. *)
Definition Path_cwd (fs : FileSystem) : Path :=
  {| is_absolute := true; parts := cwd fs |}.

Definition node_at (t : gmap (list pystr) node) (p : list pystr) : option node :=
  match p with
  | [] => Some Directory
  | _ => t !! p
  end.

(** Follow the links at the last component; [None] on a missing node or
    too many levels of links. *)
Fixpoint follow (fuel : nat) (t : gmap (list pystr) node) (p : list pystr)
  : option (list pystr * node) :=
  match node_at t p with
  | Some (Symlink target) =>
      match fuel with
      | O => None
      | S fuel' => follow fuel' t target
      end
  | Some n => Some (p, n)
  | None => None
  end.

(** The path a write through [p] lands on. *)
Fixpoint write_target (fuel : nat) (t : gmap (list pystr) node) (p : list pystr)
  : option (list pystr) :=
  match node_at t p with
  | Some (Symlink target) =>
      match fuel with
      | O => None
      | S fuel' => write_target fuel' t target
      end
  | _ => Some p
  end.

Definition MAXSYMLINKS : nat := 40.

(** Prefixes of [p] that are proper and not the root. *)
Definition inner_prefixes (p : list pystr) : list (list pystr) :=
  map (fun k => firstn k p) (seq 1 (length p - 1)).

(** Some component on the way to [p] is a file, not a directory. *)
Definition blocked (t : gmap (list pystr) node) (p : list pystr) : bool :=
  existsb (fun a => match t !! a with
                    | Some (Regular _) | Some (Special _) => true
                    | _ => false
                    end)
          (inner_prefixes p).

(** The directory a new entry [p] goes into must exist. *)
Definition parent_ready (t : gmap (list pystr) node) (p : list pystr) : res unit :=
  if blocked t p then Raise OtherOSError
  else match node_at t (removelast p) with
       | Some Directory => Ok tt
       | Some _ => Raise OtherOSError
       | None => Raise FileNotFoundError
       end.

Definition absolute (fs : FileSystem) (p : Path) : list pystr :=
  parts (if is_absolute p then p else joinpath (Path_cwd fs) p).

Definition with_tree (fs : FileSystem) (t : gmap (list pystr) node) : FileSystem :=
  {| cwd := cwd fs; tree := t |}.

(** [os.lstat]. *)
Definition os_lstat (fs : FileSystem) (p : Path) : res stat_result :=
  if blocked (tree fs) (absolute fs p) then Raise OtherOSError
  else match node_at (tree fs) (absolute fs p) with
       | Some n => Ok (stat_of n)
       | None => Raise FileNotFoundError
       end.

(** [Path.is_symlink]. *)
Definition path_is_symlink (fs : FileSystem) (p : Path) : bool :=
  match node_at (tree fs) (absolute fs p) with
  | Some (Symlink _) => true
  | _ => false
  end.

(** [Path.exists]: follows links. *)
Definition path_exists (fs : FileSystem) (p : Path) : bool :=
  bool_decide (is_Some (follow MAXSYMLINKS (tree fs) (absolute fs p))).

(** [Path.stat]. *)
Definition path_stat (fs : FileSystem) (p : Path) : res stat_result :=
  match follow MAXSYMLINKS (tree fs) (absolute fs p) with
  | Some (_, n) => Ok (stat_of n)
  | None => Raise FileNotFoundError
  end.

(** [Path.read_bytes]. *)
Definition path_read_bytes (fs : FileSystem) (p : Path) : res bytes :=
  match follow MAXSYMLINKS (tree fs) (absolute fs p) with
  | Some (_, Regular data) => Ok data
  | Some _ => Raise OtherOSError
  | None => Raise FileNotFoundError
  end.

(** [open(p, "w")] and [open(p, "a")] followed by one write of [data]. *)
Definition open_and_write (truncate : bool) (fs : FileSystem) (p : Path)
    (data : bytes) : res FileSystem :=
  match write_target MAXSYMLINKS (tree fs) (absolute fs p) with
  | None => Raise OtherOSError
  | Some q =>
      match node_at (tree fs) q with
      | Some (Regular old) =>
          Ok (with_tree fs
                (<[q := Regular (if truncate then data else old ++ data)]> (tree fs)))
      | Some _ => Raise OtherOSError
      | None =>
          _ ← parent_ready (tree fs) q;
          Ok (with_tree fs (<[q := Regular data]> (tree fs)))
      end
  end.

(** [Path.touch()]. *)
Definition path_touch (fs : FileSystem) (p : Path) : res FileSystem :=
  if path_exists fs p then Ok fs else open_and_write false fs p [].

(** [Path.unlink()]: removes the entry itself, never its link target. *)
Definition path_unlink (fs : FileSystem) (p : Path) : res FileSystem :=
  match node_at (tree fs) (absolute fs p) with
  | None => Raise FileNotFoundError
  | Some Directory => Raise OtherOSError
  | Some _ => Ok (with_tree fs (delete (absolute fs p) (tree fs)))
  end.

(** [src.replace(dst)] for a source that is not a directory. *)
Definition path_replace (fs : FileSystem) (src dst : Path) : res FileSystem :=
  match node_at (tree fs) (absolute fs src) with
  | None => Raise FileNotFoundError
  | Some Directory => Raise OtherOSError
  | Some n =>
      match node_at (tree fs) (absolute fs dst) with
      | Some Directory => Raise OtherOSError
      | Some _ =>
          Ok (with_tree fs
                (<[absolute fs dst := n]> (delete (absolute fs src) (tree fs))))
      | None =>
          _ ← parent_ready (tree fs) (absolute fs dst);
          Ok (with_tree fs
                (<[absolute fs dst := n]> (delete (absolute fs src) (tree fs))))
      end
  end.

(** [p.mkdir(parents=True, exist_ok=True)], one component after the other. *)
Fixpoint mkdir_chain (t : gmap (list pystr) node) (dirs : list (list pystr))
  : res (gmap (list pystr) node) :=
  match dirs with
  | [] => Ok t
  | d :: rest =>
      match node_at t d with
      | None => mkdir_chain (<[d := Directory]> t) rest
      | Some Directory => mkdir_chain t rest
      | Some (Symlink _) =>
          match follow MAXSYMLINKS t d with
          | Some (_, Directory) => mkdir_chain t rest
          | _ => Raise OtherOSError
          end
      | Some _ => Raise OtherOSError
      end
  end.

Definition path_mkdir_parents (fs : FileSystem) (p : Path) : res FileSystem :=
  let a := absolute fs p in
  t ← mkdir_chain (tree fs) (map (fun k => firstn k a) (seq 1 (length a)));
  Ok (with_tree fs t).

(** ** Path safety guard ([assert_safe_log_target]) *)

Definition assert_safe_log_target (fs : FileSystem) (path : Path) : res unit :=
  let absolute_path := if is_absolute path then path else joinpath (Path_cwd fs) path in
  if existsb (path_is_symlink fs)
             (path_parent absolute_path :: path_parents (path_parent absolute_path))
  then Raise UnsafeLogTargetError
  else
    match os_lstat fs absolute_path with
    | Raise FileNotFoundError => Ok tt
    | Raise _ => Raise UnsafeLogTargetError
    | Ok path_lstat =>
        if S_ISLNK (st_mode path_lstat) then Raise UnsafeLogTargetError
        else if negb (S_ISREG (st_mode path_lstat)) then Raise UnsafeLogTargetError
        else Ok tt
    end.

(** ** Records ([types.py]) *)

Inductive LoggerLevel := LEVEL_DEBUG | LEVEL_INFO.
Inductive LogNature := NATURE_INFO | NATURE_WARNING | NATURE_ERROR.

#[export] Instance LoggerLevel_eq_dec : EqDecision LoggerLevel.
Proof. solve_decision. Defined.

#[export] Instance LogNature_eq_dec : EqDecision LogNature.
Proof. solve_decision. Defined.

Definition level_str (l : LoggerLevel) : pystr :=
  match l with
  | LEVEL_DEBUG => py "DEBUG"
  | LEVEL_INFO => py "INFO"
  end.

Definition nature_str (n : LogNature) : pystr :=
  match n with
  | NATURE_INFO => py "INFO"
  | NATURE_WARNING => py "WARNING"
  | NATURE_ERROR => py "ERROR"
  end.

Record datetime := {
  year : Z; month : Z; day : Z;
  hour : Z; minute : Z; second : Z
}.

Record LogRecord := {
  message : pystr;
  level : LoggerLevel;
  nature : LogNature;
  timestamp : datetime
}.

Definition digit (d : Z) : char := Z.to_N (48 + d mod 10).

(** The zero-padded fields of [strftime]: [%m %d %H %M %S] and [%Y]. *)
Definition pad2 (v : Z) : pystr := [digit (v / 10); digit v].
Definition pad4 (v : Z) : pystr :=
  [digit (v / 1000); digit (v / 100); digit (v / 10); digit v].

Definition strftime_date (t : datetime) : pystr :=
  pad4 (year t) ++ py "-" ++ pad2 (month t) ++ py "-" ++ pad2 (day t).

Definition strftime_clock (t : datetime) : pystr :=
  pad2 (hour t) ++ py ":" ++ pad2 (minute t) ++ py ":" ++ pad2 (second t).

(** [strftime("%Y-%m-%d %H:%M:%S")]. *)
Definition strftime_datetime (t : datetime) : pystr :=
  strftime_date t ++ [SPACE] ++ strftime_clock t.

(** ** Flattening ([flatten_message])

    [re.sub] with the pattern [\s*\n\s*]: a greedy star backtracks from the
    longest run it can take; the scan tries a match at every position from
    the left and resumes after a match. *)

Fixpoint match_star (cls : char -> bool) (k : pystr -> option pystr) (s : pystr)
  : option pystr :=
  match s with
  | c :: r =>
      if cls c
      then match match_star cls k r with
           | Some rest => Some rest
           | None => k s
           end
      else k s
  | [] => k s
  end.

(** What is left of [s] after a match of [\s*\n\s*] at its start. *)
Definition match_ws_nl_ws (s : pystr) : option pystr :=
  match_star isspace
    (fun s1 => match s1 with
               | c :: s2 => if (c =? LF)%N then match_star isspace Some s2 else None
               | [] => None
               end)
    s.

Fixpoint sub_ws_nl_ws (fuel : nat) (s : pystr) : pystr :=
  match fuel with
  | O => s
  | S fuel' =>
      match s with
      | [] => []
      | c :: r =>
          match match_ws_nl_ws s with
          | Some rest => SPACE :: sub_ws_nl_ws fuel' rest
          | None => c :: sub_ws_nl_ws fuel' r
          end
      end
  end.

Fixpoint lstrip (s : pystr) : pystr :=
  match s with
  | c :: r => if isspace c then lstrip r else s
  | [] => []
  end.

(** [s.strip()]. *)
Definition strip (s : pystr) : pystr := rev (lstrip (rev (lstrip s))).

Definition flatten_message (text : pystr) : pystr :=
  let normalized := normalize_newlines text in
  strip (sub_ws_nl_ws (length normalized) normalized).

(** ** File facility ([FileFacility]) *)

Record FileFacility := {
  ff_handle : pystr;
  ff_file_path : Path;
  ff_rotations_to_keep : Z;
  ff_max_file_size_bytes : Z
}.

Definition MAX_HANDLE_LENGTH : Z := 64.

(** The character class of [_HANDLE_RE]: [A-Za-z0-9_]. *)
Definition handle_char (c : char) : bool :=
  ((65 <=? c) && (c <=? 90) || (97 <=? c) && (c <=? 122)
   || (48 <=? c) && (c <=? 57) || (c =? 95))%N.

(** [validate_handle]: [fullmatch] of [^[A-Za-z0-9_]+$]. *)
Definition validate_handle (handle : pystr) : res unit :=
  if len handle >? MAX_HANDLE_LENGTH then Raise ValueError
  else if negb (nonempty_str handle && forallb handle_char handle)
  then Raise ValueError
  else Ok tt.

Definition is_valid_handle (value : pystr) : bool :=
  nonempty_str value && forallb handle_char value.

Definition guard (path : Path) : M FileSystem unit :=
  query (fun fs => assert_safe_log_target fs path).

(** [path.with_name(f"{path.name}.{idx}")]. *)
Definition numbered (path : Path) (idx : Z) : res Path :=
  with_name path (path_name path ++ py "." ++ str_of_int idx).

(** [range(start, stop, -1)]. *)
Definition range_down (start stop : Z) : list Z :=
  map (fun i => start - Z.of_nat i) (seq 0 (Z.to_nat (start - stop))).

(** [path.write_text("", encoding="utf-8")]. *)
Definition write_empty (path : Path) : M FileSystem unit :=
  call (fun fs => open_and_write true fs path []).

(** The [for] loop of [_rotate_files]. *)
Fixpoint rotate_shift (path : Path) (idxs : list Z) : M FileSystem unit :=
  match idxs with
  | [] => mret tt
  | idx :: rest =>
      src ← lift_res (numbered path idx);
      dst ← lift_res (numbered path (idx + 1));
      _ ← guard src;
      _ ← guard dst;
      src_exists ← query (fun fs => Ok (path_exists fs src));
      _ ← when src_exists (call (fun fs => path_replace fs src dst));
      rotate_shift path rest
  end.

Definition rotate_files (path : Path) (keep : Z) : M FileSystem unit :=
  _ ← guard path;
  if keep <=? 0 then write_empty path
  else
    oldest ← lift_res (numbered path keep);
    _ ← guard oldest;
    oldest_exists ← query (fun fs => Ok (path_exists fs oldest));
    _ ← when oldest_exists (call (fun fs => path_unlink fs oldest));
    _ ← rotate_shift path (range_down (keep - 1) 0);
    path_exists_now ← query (fun fs => Ok (path_exists fs path));
    _ ← when path_exists_now
          (first ← lift_res (numbered path 1);
           _ ← guard first;
           call (fun fs => path_replace fs path first));
    write_empty path.

(** [FileFacility.create]. *)
Definition FileFacility_create (log_handle : pystr) (log_file_path : Path)
    (rotate_on_start : bool) (rotations_to_keep : Z) (max_file_size_bytes : Z)
  : M FileSystem FileFacility :=
  _ ← lift_res (validate_handle log_handle);
  let path := log_file_path in
  _ ← call (fun fs => path_mkdir_parents fs (path_parent path));
  _ ← guard path;
  _ ← when rotate_on_start (rotate_files path rotations_to_keep);
  path_exists_now ← query (fun fs => Ok (path_exists fs path));
  _ ← when (negb path_exists_now) (call (fun fs => path_touch fs path));
  _ ← guard path;
  _ ← call (fun fs => open_and_write false fs path []);
  mret {| ff_handle := log_handle; ff_file_path := path;
          ff_rotations_to_keep := rotations_to_keep;
          ff_max_file_size_bytes := max_file_size_bytes |}.

(** The line of a record in the plain-text file. *)
Definition file_line (record : LogRecord) : pystr :=
  let timestamp := strftime_datetime (timestamp record) in
  let compact_message := flatten_message (message record) in
  py "[" ++ timestamp ++ py "] [" ++ nature_str (nature record) ++ py "] "
    ++ compact_message ++ [LF].

(** [self.file_path.stat().st_size if self.file_path.exists() else 0]. *)
Definition current_size_of (path : Path) : M FileSystem Z :=
  path_exists_now ← query (fun fs => Ok (path_exists fs path));
  if path_exists_now : bool
  then (st ← query (fun fs => path_stat fs path); mret (st_size st)) : M FileSystem Z
  else mret 0.

(** [FileFacility.write]. *)
Definition FileFacility_write (self : FileFacility) (record : LogRecord)
  : M FileSystem unit :=
  _ ← guard (ff_file_path self);
  let line := file_line record in
  encoded_line ← lift_res (encode_utf8 line);
  current_size ← current_size_of (ff_file_path self);
  _ ← when (current_size + len encoded_line >? ff_max_file_size_bytes self)
        (rotate_files (ff_file_path self) (ff_rotations_to_keep self));
  call (fun fs => open_and_write false fs (ff_file_path self) encoded_line).

(** ** The world around the package

    Besides the file system: the text printed to the two console streams
    and the number of readings made of each clock. *)
Record World := {
  fs : FileSystem;
  stdout : list pystr;
  stderr : list pystr;
  perf_reads : nat;
  mono_reads : nat;
  now_reads : nat
}.

Definition with_fs (w : World) (x : FileSystem) : World :=
  {| fs := x; stdout := stdout w; stderr := stderr w;
     perf_reads := perf_reads w; mono_reads := mono_reads w;
     now_reads := now_reads w |}.

Definition with_perf_reads (w : World) (k : nat) : World :=
  {| fs := fs w; stdout := stdout w; stderr := stderr w;
     perf_reads := k; mono_reads := mono_reads w; now_reads := now_reads w |}.

Definition with_mono_reads (w : World) (k : nat) : World :=
  {| fs := fs w; stdout := stdout w; stderr := stderr w;
     perf_reads := perf_reads w; mono_reads := k; now_reads := now_reads w |}.

Definition with_now_reads (w : World) (k : nat) : World :=
  {| fs := fs w; stdout := stdout w; stderr := stderr w;
     perf_reads := perf_reads w; mono_reads := mono_reads w; now_reads := k |}.

(** Run a computation on a part of the state. *)
Definition on_fs {A} (m : M FileSystem A) : M World A := fun w =>
  let (r, x) := m (fs w) in (r, with_fs w x).

Definition on_perf {A} (m : timed A) : M World A := fun w =>
  let (r, k) := m (perf_reads w) in (r, with_perf_reads w k).

(** A method of an object: the state is the object and the world. *)
Definition on_world {Self A} (m : M World A) : M (Self * World) A := fun s =>
  let (r, w) := m (snd s) in (r, (fst s, w)).

Definition get_self {Self} : M (Self * World) Self := fun s => (Ok (fst s), s).

Definition set_self {Self} (self : Self) : M (Self * World) unit := fun s =>
  (Ok tt, (self, snd s)).

(** What the interpreter and its library supply: the Unicode tables, the
    HTML tokenizer, the clocks, and two parts of the package that are data:
    the document template ([templates/log_document.html], instantiated with
    title, stylesheet, stream marker, theme class and refresh tag) and the
    embedded stylesheet.  [syntax_class_to_html] is the class attribute
    [HtmlFileFacility._syntax_class_to_html], which can be replaced. *)
Record Env := {
  uni : Unicode;
  html_parser : pystr -> list html_event;
  perf_counter : nat -> Q;
  monotonic : nat -> Q;
  datetime_now : nat -> datetime;
  html_template : pystr -> pystr -> pystr -> pystr -> pystr -> pystr;
  PICO_EMBEDDED_CSS : pystr;
  syntax_class_to_html : pystr -> pystr
}.

(** [time.perf_counter()]. *)
Definition read_perf (env : Env) : timed Q := fun k => (Ok (perf_counter env k), S k).

(** [try: body except TimeoutError: handler]. *)
Definition catch_timeout {A} (body handler : timed A) : timed A := fun k =>
  match body k with
  | (Raise TimeoutError, k') => handler k'
  | other => other
  end.

(** ** Text normalizers *)

Definition REPLACEMENT : char := 0xFFFD%N.

Definition BIDI_CONTROL_CODEPOINTS : gset N :=
  list_to_set [0x061C; 0x200E; 0x200F; 0x202A; 0x202B; 0x202C; 0x202D;
               0x202E; 0x2066; 0x2067; 0x2068; 0x2069]%N.

Definition is_c0_or_c1 (codepoint : N) : bool :=
  ((0x00 <=? codepoint) && (codepoint <=? 0x1F)
   || (0x7F <=? codepoint) && (codepoint <=? 0x9F))%N.

Definition split_console_lines (text : pystr) : list pystr :=
  split_on LF (normalize_newlines text).

Definition normalize_for_html (text : pystr) : pystr :=
  map (fun char =>
         if (char =? LF)%N || (char =? TAB)%N then char
         else if is_c0_or_c1 char || bool_decide (char ∈ BIDI_CONTROL_CODEPOINTS)
              then REPLACEMENT
              else char)
      (normalize_newlines text).

Definition normalize_for_terminal (text : pystr) : pystr :=
  map (fun char =>
         if (char =? LF)%N || (char =? TAB)%N then char
         else if is_c0_or_c1 char then REPLACEMENT
              else char)
      (normalize_newlines text).

(** [html.escape(s, quote=True)]. *)
Definition html_escape_char (c : char) : pystr :=
  if (c =? 38)%N then py "&amp;"
  else if (c =? 60)%N then py "&lt;"
  else if (c =? 62)%N then py "&gt;"
  else if (c =? DQUOTE)%N then py "&quot;"
  else if (c =? SQUOTE)%N then py "&#x27;"
  else [c].

Definition html_escape (s : pystr) : pystr := flat_map html_escape_char s.

Definition escape_html_strict (text : pystr) : pystr :=
  html_escape (normalize_for_html text).

(** ** HTML facility ([HtmlFileFacility]) *)

Inductive HtmlTheme := THEME_DARK | THEME_LIGHT.

Record HtmlFileFacility := {
  hf_handle : pystr;
  hf_file_path : Path;
  hf_title : pystr;
  hf_theme : HtmlTheme;
  hf_auto_refresh_enabled : bool;
  hf_auto_refresh_seconds : Z;
  hf_max_line_length : Z;
  hf_colorize_timeout_ms : Z;
  hf_max_document_bytes : Z;
  hf_line_number : Z
}.

Definition with_line_number (self : HtmlFileFacility) (n : Z) : HtmlFileFacility :=
  {| hf_handle := hf_handle self; hf_file_path := hf_file_path self;
     hf_title := hf_title self; hf_theme := hf_theme self;
     hf_auto_refresh_enabled := hf_auto_refresh_enabled self;
     hf_auto_refresh_seconds := hf_auto_refresh_seconds self;
     hf_max_line_length := hf_max_line_length self;
     hf_colorize_timeout_ms := hf_colorize_timeout_ms self;
     hf_max_document_bytes := hf_max_document_bytes self;
     hf_line_number := n |}.

(** A double-quoted attribute value. *)
Definition quoted (s : pystr) : pystr := [DQUOTE] ++ s ++ [DQUOTE].

Definition HTML_TEMPLATE_MARKER : pystr := py "<!-- PYLOGROUTER_STREAM_ENTRIES -->".

(** The opening tag of a row, [<div class="log-row">]. *)
Definition ROW_MARKER : pystr := py "<div class=" ++ quoted (py "log-row") ++ py ">".

(** The text put after a clipped line, as the source file spells it. *)
Definition LINE_CLIPPED : pystr :=
  [SPACE; 0xE2; 0x20AC; 0xA6]%N ++ py "[line clipped]".

(** [_badge_icon], with the code points of the source file. *)
Definition html_badge_icon (record : LogRecord) : pystr :=
  match nature record with
  | NATURE_ERROR => [0xE2; 0x203A; 0x201D]%N
  | NATURE_WARNING => [0xE2; 0x161; 0xA0; 0xEF; 0xB8]%N
  | NATURE_INFO =>
      match level record with
      | LEVEL_DEBUG => [0xF0; 0x178; 0x17E]%N
      | LEVEL_INFO => [0xE2; 0x201E; 0xB9; 0xEF; 0xB8]%N
      end
  end.

Definition badge_css_class (record : LogRecord) : pystr :=
  match nature record, level record with
  | NATURE_ERROR, _ => py "badge-error"
  | _, LEVEL_DEBUG => py "badge-debug"
  | NATURE_WARNING, _ => py "badge-warning"
  | _, _ => py "badge-info"
  end.

(** [_syntax_class_to_html] as the source defines it. *)
Definition default_syntax_class_to_html (token : pystr) : pystr :=
  py "syn-" ++ token.

(** [time.perf_counter() + max(timeout_ms, 1) / 1000]. *)
Definition deadline_after (now : Q) (timeout_ms : Z) : Q :=
  (now + inject_Z (Z.max timeout_ms 1) / 1000)%Q.

(** The three scans of a line under one deadline. *)
Definition scan_line (env : Env) (deadline : Q) (line : pystr)
  : timed (list span * gset nat * list span) :=
  quote_spans ← quoted_content_spans (perf_counter env) (Some deadline) line;
  quote_marks ← quote_mark_positions (perf_counter env) (Some deadline) line;
  lhs_spans ← lhs_equals_spans (perf_counter env) (Some deadline) line (uni env);
  mret (quote_spans, quote_marks, lhs_spans).

(** The character loop of [_render_html_message]: the segments appended so
    far stay when the time is up; the flag tells whether it was. *)
Fixpoint html_chars (env : Env) (deadline : Q)
    (scans : list span * gset nat * list span)
    (idx : nat) (chars : pystr) (segments : list pystr) (k : nat)
  : (list pystr * bool) * nat :=
  match chars with
  | [] => ((segments, false), k)
  | ch :: rest =>
      if Qle_bool deadline (perf_counter env k) then ((segments, true), S k)
      else
        let '(quote_spans, quote_marks, lhs_spans) := scans in
        let token := token_class (uni env) idx ch quote_spans quote_marks lhs_spans in
        let css_class := syntax_class_to_html env token in
        html_chars env deadline scans (S idx) rest
          (segments
             ++ [py "<span class=" ++ quoted css_class ++ py ">"
                   ++ escape_html_strict [ch] ++ py "</span>"])
          (S k)
  end.

(** The loop and the [except TimeoutError] clause it can end in. *)
Definition html_spans (env : Env) (deadline : Q)
    (scans : list span * gset nat * list span) (line : pystr)
    (segments : list pystr) : timed pystr :=
  fun k =>
    let '((segments, timed_out), k') :=
      html_chars env deadline scans 0 line segments k in
    if timed_out : bool
    then (Ok (concat (segments ++ [escape_html_strict line])), k')
    else (Ok (concat segments), k').

Definition html_line (env : Env) (self : HtmlFileFacility)
    (idx_line : nat) (raw_line : pystr) : timed pystr :=
  let line :=
    if len raw_line <=? hf_max_line_length self then raw_line
    else slice_to raw_line (hf_max_line_length self) ++ LINE_CLIPPED in
  let segments := if (0 <? idx_line)%nat then [[TAB]] else [] in
  now ← read_perf env;
  let deadline := deadline_after now (hf_colorize_timeout_ms self) in
  catch_timeout
    (scans ← scan_line env deadline line;
     html_spans env deadline scans line segments)
    (mret (concat (segments ++ [escape_html_strict line]))).

Fixpoint html_lines (env : Env) (self : HtmlFileFacility)
    (idx_line : nat) (lines : list pystr) : timed (list pystr) :=
  match lines with
  | [] => mret []
  | raw_line :: rest =>
      html_line_ ← html_line env self idx_line raw_line;
      others ← html_lines env self (S idx_line) rest;
      mret (html_line_ :: others)
  end.

(** [_render_html_message]. *)
Definition render_html_message (env : Env) (self : HtmlFileFacility)
    (message : pystr) : timed pystr :=
  let lines := split_console_lines (normalize_for_html message) in
  let lines := match lines with [] => [[]] | _ => lines end in
  rendered ← html_lines env self 0 lines;
  mret (join [LF] rendered).

(** [f"{n:06d}"]. *)
Definition format_06d (n : Z) : pystr :=
  let digits := str_of_int (Z.abs n) in
  if n <? 0
  then 45%N :: repeat 48%N (5 - length digits) ++ digits
  else repeat 48%N (6 - length digits) ++ digits.

(** [text.split(" ", maxsplit=1)], unpacked into two names. *)
Fixpoint split_once (sep : char) (s : pystr) : res (pystr * pystr) :=
  match s with
  | [] => Raise ValueError
  | c :: r =>
      if (c =? sep)%N then Ok ([], r)
      else '(a, b) ← split_once sep r; Ok (c :: a, b)
  end.

(** The row of a record, with the number of its line. *)
Definition html_row (record : LogRecord) (line_number : Z)
    (rendered_message : pystr) : res pystr :=
  let timestamp := strftime_datetime (timestamp record) in
  '(date_part, time_part) ← split_once SPACE timestamp;
  let badge := html_badge_icon record in
  let badge_class := badge_css_class record in
  let line_no := format_06d line_number in
  Ok (ROW_MARKER ++ [LF]
      ++ py "  <div class=" ++ quoted (py "log-line-no") ++ py "><pre>"
      ++ escape_html_strict line_no ++ py "</pre></div>" ++ [LF]
      ++ py "  <div class=" ++ quoted (py "log-time") ++ py "><pre>"
      ++ py "<span class=" ++ quoted (py "log-date") ++ py ">"
      ++ escape_html_strict date_part ++ py "</span> "
      ++ py "<span class=" ++ quoted (py "log-clock") ++ py ">"
      ++ escape_html_strict time_part ++ py "</span>"
      ++ py "</pre></div>" ++ [LF]
      ++ py "  <div class=" ++ quoted badge_class ++ py "><pre>"
      ++ escape_html_strict badge ++ py "</pre></div>" ++ [LF]
      ++ py "  <div><pre>" ++ rendered_message ++ py "</pre></div>" ++ [LF]
      ++ py "</div>" ++ [LF]).

(** [_ensure_document]. *)
Definition ensure_document (env : Env) (self : HtmlFileFacility)
  : M FileSystem unit :=
  let path := hf_file_path self in
  path_exists_now ← query (fun fs => Ok (path_exists fs path));
  nonempty ← (if path_exists_now : bool
              then st ← query (fun fs => path_stat fs path);
                   mret (st_size st >? 0)
              else mret false);
  if nonempty : bool then mret tt
  else
    _ ← guard path;
    let safe_title := escape_html_strict (hf_title self) in
    let theme_class :=
      match hf_theme self with
      | THEME_DARK => py "theme-dark"
      | THEME_LIGHT => py "theme-light"
      end in
    let refresh_meta :=
      if hf_auto_refresh_enabled self
      then py "<meta http-equiv=" ++ quoted (py "refresh") ++ py " content="
             ++ quoted (str_of_int (hf_auto_refresh_seconds self)) ++ py " />"
      else [] in
    let doc := html_template env safe_title (PICO_EMBEDDED_CSS env)
                 HTML_TEMPLATE_MARKER theme_class refresh_meta in
    encoded ← lift_res (encode_utf8 doc);
    call (fun fs => open_and_write true fs path encoded).

(** [text.count(sub)] for a non-empty [sub]: non-overlapping occurrences. *)
Fixpoint count_from (sub : pystr) (skip : nat) (s : pystr) : Z :=
  match s with
  | [] => 0
  | c :: r =>
      match skip with
      | S k => count_from sub k r
      | O =>
          if starts_with sub s then 1 + count_from sub (length sub - 1)%nat r
          else count_from sub O r
      end
  end.

(** [_detect_existing_line_count]. *)
Definition detect_existing_line_count (self : HtmlFileFacility)
  : M FileSystem Z :=
  let path := hf_file_path self in
  path_exists_now ← query (fun fs => Ok (path_exists fs path));
  if path_exists_now : bool
  then data ← query (fun fs => path_read_bytes fs path);
       content ← lift_res (decode_utf8 data);
       mret (count_from ROW_MARKER O content)
  else mret 0.

(** [HtmlFileFacility.create]. *)
Definition HtmlFileFacility_create (env : Env)
    (log_handle : pystr) (log_file_path : Path) (title : pystr)
    (html_theme : HtmlTheme) (html_auto_refresh_enabled : bool)
    (html_auto_refresh_seconds : Z) (max_line_length colorize_timeout_ms : Z)
    (max_document_bytes : Z) (rotate_on_start : bool) (rotations_to_keep : Z)
  : M FileSystem HtmlFileFacility :=
  _ ← lift_res (validate_handle log_handle);
  let path := log_file_path in
  _ ← call (fun fs => path_mkdir_parents fs (path_parent path));
  _ ← guard path;
  _ ← when rotate_on_start (rotate_files path rotations_to_keep);
  let facility :=
    {| hf_handle := log_handle; hf_file_path := path; hf_title := title;
       hf_theme := html_theme;
       hf_auto_refresh_enabled := html_auto_refresh_enabled;
       hf_auto_refresh_seconds := html_auto_refresh_seconds;
       hf_max_line_length := max_line_length;
       hf_colorize_timeout_ms := colorize_timeout_ms;
       hf_max_document_bytes := max_document_bytes;
       hf_line_number := 0 |} in
  _ ← ensure_document env facility;
  line_number ← detect_existing_line_count facility;
  mret (with_line_number facility line_number).

(** [HtmlFileFacility.write]. *)
Definition HtmlFileFacility_write (env : Env) (record : LogRecord)
  : M (HtmlFileFacility * World) unit :=
  self ← get_self;
  let path := hf_file_path self in
  _ ← on_world (on_fs (ensure_document env self));
  _ ← on_world (on_fs (guard path));
  rendered_message ← on_world (on_perf (render_html_message env self (message record)));
  let self := with_line_number self (hf_line_number self + 1) in
  _ ← set_self self;
  row ← lift_res (html_row record (hf_line_number self) rendered_message);
  _ ← lift_res (validate_rendered_row_or_raise (html_parser env) (uni env) row);
  current_size ← on_world (on_fs (current_size_of path));
  encoded ← lift_res (encode_utf8 row);
  let next_size := current_size + len encoded in
  if next_size >? hf_max_document_bytes self
  then raise HtmlSanitizationError
  else on_world (on_fs (call (fun fs => open_and_write false fs path encoded))).

(** ** Console facility ([ConsoleFacility]) *)

Record ConsoleFacility := {
  cf_color : bool;
  cf_max_line_length : Z;
  cf_colorize_timeout_ms : Z
}.

Definition ESC : char := 27%N.
Definition ANSI_RESET : pystr := ESC :: py "[0m".
Definition ANSI_WHITE : pystr := ESC :: py "[97m".
Definition ANSI_LIGHT_GRAY : pystr := ESC :: py "[37m".
Definition ANSI_GREEN : pystr := ESC :: py "[92m".
Definition ANSI_YELLOW : pystr := ESC :: py "[93m".
Definition ANSI_CYAN : pystr := ESC :: py "[96m".
Definition ANSI_PINK : pystr := ESC :: py "[95m".
Definition ANSI_RED : pystr := ESC :: py "[91m".
Definition ANSI_TIME_CONTENT : pystr := ESC :: py "[94m".

(** [_badge_icon], with the code points of the source file. *)
Definition console_badge_icon (record : LogRecord) : pystr :=
  match nature record, level record with
  | NATURE_ERROR, _ => [0xC3; 0x2014]%N
  | NATURE_WARNING, _ | _, LEVEL_DEBUG => [0xE2; 0x20AC; 0xBA]%N
  | _, _ => [0xC2; 0xBB]%N
  end.

Definition console_badge_color (record : LogRecord) : pystr :=
  match nature record, level record with
  | NATURE_ERROR, _ => ANSI_RED
  | _, LEVEL_DEBUG => ANSI_LIGHT_GRAY
  | _, _ => ANSI_GREEN
  end.

Definition base_color (record : LogRecord) : pystr :=
  match level record with
  | LEVEL_DEBUG => ANSI_LIGHT_GRAY
  | LEVEL_INFO => ANSI_WHITE
  end.

Definition color_for_char (U : Unicode) (index : nat) (ch : char)
    (record : LogRecord) (quote_spans : list span) (quote_marks : gset nat)
    (lhs_spans : list span) : pystr :=
  let token := token_class U index ch quote_spans quote_marks lhs_spans in
  if bool_decide (token = py "quote-mark") then ANSI_GREEN
  else if bool_decide (token = py "quote-content") then ANSI_YELLOW
  else if bool_decide (token = py "lhs") then ANSI_PINK
  else if bool_decide (token = py "number") then ANSI_CYAN
  else if bool_decide (token = py "punct") then ANSI_GREEN
  else base_color record.

(** The character loop of [_colorize_line_with_budget]: [None] when the
    time is up. *)
Fixpoint console_chars (env : Env) (deadline : Q) (record : LogRecord)
    (scans : list span * gset nat * list span)
    (idx : nat) (chars : pystr) (rendered : list pystr)
    (current_color : option pystr) (k : nat)
  : option (list pystr) * nat :=
  match chars with
  | [] => (Some rendered, k)
  | ch :: rest =>
      if Qle_bool deadline (perf_counter env k) then (None, S k)
      else
        let '(quote_spans, quote_marks, lhs_spans) := scans in
        let color :=
          color_for_char (uni env) idx ch record quote_spans quote_marks lhs_spans in
        let rendered :=
          if bool_decide (Some color = current_color) then rendered
          else rendered ++ [color] in
        console_chars env deadline record scans (S idx) rest
          (rendered ++ [[ch]]) (Some color) (S k)
  end.

Definition console_spans (env : Env) (deadline : Q) (record : LogRecord)
    (scans : list span * gset nat * list span) (line : pystr) : timed pystr :=
  fun k =>
    match console_chars env deadline record scans 0 line [] None k with
    | (Some rendered, k') => (Ok (concat (rendered ++ [ANSI_RESET])), k')
    | (None, k') => (Ok (base_color record ++ line ++ ANSI_RESET), k')
    end.

Definition colorize_line_with_budget (env : Env) (line : pystr)
    (record : LogRecord) (colorize_timeout_ms : Z) : timed pystr :=
  now ← read_perf env;
  let deadline := deadline_after now colorize_timeout_ms in
  catch_timeout
    (scans ← scan_line env deadline line;
     console_spans env deadline record scans line)
    (mret (base_color record ++ line ++ ANSI_RESET)).

Fixpoint colorize_lines (env : Env) (self : ConsoleFacility) (record : LogRecord)
    (lines : list pystr) : timed (list pystr) :=
  match lines with
  | [] => mret []
  | line :: rest =>
      colored ← colorize_line_with_budget env line record (cf_colorize_timeout_ms self);
      others ← colorize_lines env self record rest;
      mret (colored :: others)
  end.

(** [print(text, file=stream, flush=True)]. *)
Definition print_to (to_stderr : bool) (text : pystr) : M World unit := fun w =>
  (Ok tt,
   {| fs := fs w;
      stdout := if to_stderr then stdout w else stdout w ++ [text ++ [LF]];
      stderr := if to_stderr then stderr w ++ [text ++ [LF]] else stderr w;
      perf_reads := perf_reads w; mono_reads := mono_reads w;
      now_reads := now_reads w |}).

(** [ConsoleFacility.write]. *)
Definition ConsoleFacility_write (env : Env) (self : ConsoleFacility)
    (record : LogRecord) : M World unit :=
  let time_text := strftime_clock (timestamp record) in
  let icon := console_badge_icon record in
  let normalized_message := normalize_for_terminal (message record) in
  let lines := split_console_lines normalized_message in
  let lines := match lines with [] => [[]] | _ => lines end in
  let clipped_lines :=
    map (fun line =>
           if len line <=? cf_max_line_length self then line
           else slice_to line (cf_max_line_length self) ++ LINE_CLIPPED)
        lines in
  out_lines ←
    (if negb (cf_color self)
     then mret
            ((py "[" ++ time_text ++ py "] " ++ icon ++ py " "
                ++ hd [] clipped_lines)
             :: map (fun line => TAB :: line) (tl clipped_lines))
     else
       let colored_time :=
         ANSI_GREEN ++ py "[" ++ ANSI_TIME_CONTENT ++ time_text
           ++ ANSI_GREEN ++ py "]" in
       let colored_icon := console_badge_color record ++ icon ++ ANSI_RESET in
       colored ← on_perf (colorize_lines env self record clipped_lines);
       mret ((colored_time ++ py " " ++ colored_icon ++ py " " ++ hd [] colored)
             :: map (fun line => TAB :: line) (tl colored)));
  print_to (bool_decide (nature record = NATURE_ERROR)) (join [LF] out_lines).

(** ** Router: message preparation ([LoggerRouter._prepare_message])

    The three limits are the router's [_max_message_length],
    [_max_message_lines] and [_max_line_length]. *)

Record MessageLimits := {
  max_message_length : Z;
  max_message_lines : Z;
  max_line_length : Z
}.

(** First step: total-length truncation with its marker. *)
Definition clip_message (lim : MessageLimits) (normalized : pystr) : pystr :=
  if len normalized >? max_message_length lim
  then slice_to normalized (max_message_length lim)
         ++ py " ...[message clipped at "
         ++ str_of_int (max_message_length lim) ++ py " chars]"
  else normalized.

(** Second step: excess lines are dropped and replaced by one marker line. *)
Definition drop_lines (lim : MessageLimits) (lines : list pystr) : list pystr :=
  if len lines >? max_message_lines lim
  then let dropped := len lines - max_message_lines lim in
       slice_to lines (max_message_lines lim)
         ++ [py "...[dropped " ++ str_of_int dropped ++ py " line(s)]"]
  else lines.

(** Third step: every remaining line is clipped on its own. *)
Definition clip_line (lim : MessageLimits) (line : pystr) : pystr :=
  if len line >? max_line_length lim
  then slice_to line (max_line_length lim)
         ++ py " ...[line clipped at "
         ++ str_of_int (max_line_length lim) ++ py " chars]"
  else line.

Definition prepare_message (lim : MessageLimits) (message : pystr) : pystr :=
  let normalized := normalize_newlines message in
  let normalized := clip_message lim normalized in
  let lines := split_on LF normalized in
  let lines := drop_lines lim lines in
  let clipped_lines := map (clip_line lim) lines in
  join [LF] clipped_lines.

(** ** Router ([LoggerRouter]) *)

Inductive Facility :=
| Console (c : ConsoleFacility)
| File (f : FileFacility)
| Html (h : HtmlFileFacility).

(** A [dict] with its keys in insertion order: assigning to a key that is
    present keeps its place, a new key goes to the end. *)
Fixpoint dict_get {V} (k : pystr) (d : list (pystr * V)) : option V :=
  match d with
  | [] => None
  | (k', v) :: rest => if bool_decide (k' = k) then Some v else dict_get k rest
  end.

Fixpoint dict_set {V} (k : pystr) (v : V) (d : list (pystr * V))
  : list (pystr * V) :=
  match d with
  | [] => [(k, v)]
  | (k', v') :: rest =>
      if bool_decide (k' = k) then (k, v) :: rest
      else (k', v') :: dict_set k v rest
  end.

Definition dict_keys {V} (d : list (pystr * V)) : list pystr := map fst d.

Record RouterConfig := {
  logger_level : LoggerLevel;
  limits : MessageLimits;
  max_log_handles_per_call : Z;
  colorize_timeout_ms : Z;
  max_html_document_bytes : Z;
  max_html_title_length : Z;
  max_writes_per_second : Z;
  throttle_window_seconds : Z;
  plain_log_max_file_size_bytes : Z
}.

Record ThrottleState := {
  throttle_window_started_at : Q;
  writes_in_current_window : Z;
  dropped_in_current_window : Z;
  throttle_dropped_total : Z;
  throttle_dropped_by_handle : gmap pystr Z
}.

Record LoggerRouter := {
  config : RouterConfig;
  throttle : ThrottleState;
  facilities : list (pystr * Facility)
}.

Definition with_throttle (self : LoggerRouter) (t : ThrottleState) : LoggerRouter :=
  {| config := config self; throttle := t; facilities := facilities self |}.

Definition with_facilities (self : LoggerRouter) (d : list (pystr * Facility))
  : LoggerRouter :=
  {| config := config self; throttle := throttle self; facilities := d |}.

Definition HANDLE_CONSOLE : pystr := py "console".

Definition level_priority (l : LoggerLevel) : Z :=
  match l with
  | LEVEL_DEBUG => 10
  | LEVEL_INFO => 20
  end.

(** [_validate_positive]. *)
Definition validate_positive (value : Z) : res Z :=
  if value <=? 0 then Raise ValueError else Ok value.

(** The throttle state of a new instance. *)
Definition fresh_throttle : ThrottleState :=
  {| throttle_window_started_at := 0%Q; writes_in_current_window := 0;
     dropped_in_current_window := 0; throttle_dropped_total := 0;
     throttle_dropped_by_handle := ∅ |}.

(** [__init__] of a fresh instance. *)
Definition LoggerRouter_init (logger_level_ : LoggerLevel) (logger_color : bool)
    (max_message_length_ max_message_lines_ max_line_length_
     max_log_handles_per_call_ colorize_timeout_ms_ max_html_document_bytes_
     max_html_title_length_ max_writes_per_second_ throttle_window_seconds_
     plain_log_max_file_size_bytes_ : Z) : res LoggerRouter :=
  a ← validate_positive max_message_length_;
  b ← validate_positive max_message_lines_;
  c ← validate_positive max_line_length_;
  d ← validate_positive max_log_handles_per_call_;
  e ← validate_positive colorize_timeout_ms_;
  f ← validate_positive max_html_document_bytes_;
  g ← validate_positive max_html_title_length_;
  h ← validate_positive max_writes_per_second_;
  i ← validate_positive throttle_window_seconds_;
  j ← validate_positive plain_log_max_file_size_bytes_;
  Ok {| config :=
          {| logger_level := logger_level_;
             limits := {| max_message_length := a; max_message_lines := b;
                          max_line_length := c |};
             max_log_handles_per_call := d; colorize_timeout_ms := e;
             max_html_document_bytes := f; max_html_title_length := g;
             max_writes_per_second := h; throttle_window_seconds := i;
             plain_log_max_file_size_bytes := j |};
        throttle := fresh_throttle;
        facilities :=
          [(HANDLE_CONSOLE,
            Console {| cf_color := logger_color; cf_max_line_length := c;
                       cf_colorize_timeout_ms := e |})] |}.

(** [time.monotonic()] and [datetime.now()].  The readings of the monotonic
    clock are taken as rationals, and their difference is exact. *)
Definition read_monotonic (env : Env) : M World Q := fun w =>
  (Ok (monotonic env (mono_reads w)), with_mono_reads w (S (mono_reads w))).

Definition read_now (env : Env) : M World datetime := fun w =>
  (Ok (datetime_now env (now_reads w)), with_now_reads w (S (now_reads w))).

(** [_console_diagnostic]. *)
Definition console_diagnostic (env : Env) (message_ : pystr)
  : M (LoggerRouter * World) unit :=
  self ← get_self;
  match dict_get HANDLE_CONSOLE (facilities self) with
  | Some (Console console) =>
      now ← on_world (read_now env);
      on_world (ConsoleFacility_write env console
                  {| message := message_; level := LEVEL_INFO;
                     nature := NATURE_ERROR; timestamp := now |})
  | _ => mret tt
  end.

Definition update_throttle (f : ThrottleState -> ThrottleState)
  : M (LoggerRouter * World) unit :=
  fun s => (Ok tt, (with_throttle (fst s) (f (throttle (fst s))), snd s)).

(** The window is over at [now]. *)
Definition window_elapsed (self : LoggerRouter) (started now : Q) : bool :=
  Qle_bool (inject_Z (throttle_window_seconds (config self))) (now - started)%Q.

(** The assignments of [_should_drop_write_due_to_throttle] to the
    throttle state. *)
Definition window_started (started : Q) (t : ThrottleState) : ThrottleState :=
  {| throttle_window_started_at := started;
     writes_in_current_window := writes_in_current_window t;
     dropped_in_current_window := dropped_in_current_window t;
     throttle_dropped_total := throttle_dropped_total t;
     throttle_dropped_by_handle := throttle_dropped_by_handle t |}.

Definition window_reset (now : Q) (t : ThrottleState) : ThrottleState :=
  {| throttle_window_started_at := now;
     writes_in_current_window := 0;
     dropped_in_current_window := 0;
     throttle_dropped_total := throttle_dropped_total t;
     throttle_dropped_by_handle := throttle_dropped_by_handle t |}.

Definition write_dropped (handle : pystr) (t : ThrottleState) : ThrottleState :=
  {| throttle_window_started_at := throttle_window_started_at t;
     writes_in_current_window := writes_in_current_window t;
     dropped_in_current_window := dropped_in_current_window t + 1;
     throttle_dropped_total := throttle_dropped_total t + 1;
     throttle_dropped_by_handle :=
       <[handle := default 0 (throttle_dropped_by_handle t !! handle) + 1]>
         (throttle_dropped_by_handle t) |}.

Definition write_admitted (t : ThrottleState) : ThrottleState :=
  {| throttle_window_started_at := throttle_window_started_at t;
     writes_in_current_window := writes_in_current_window t + 1;
     dropped_in_current_window := dropped_in_current_window t;
     throttle_dropped_total := throttle_dropped_total t;
     throttle_dropped_by_handle := throttle_dropped_by_handle t |}.

(** [_should_drop_write_due_to_throttle]. *)
Definition should_drop_write_due_to_throttle (env : Env) (handle : pystr)
  : M (LoggerRouter * World) bool :=
  now ← on_world (read_monotonic env);
  self ← get_self;
  let started :=
    if Qle_bool (throttle_window_started_at (throttle self)) 0 then now
    else throttle_window_started_at (throttle self) in
  _ ← update_throttle (window_started started);
  _ ← (if window_elapsed self started now
       then
         _ ← (if dropped_in_current_window (throttle self) >? 0
              then console_diagnostic env
                     (py "Throttling activated: dropped "
                        ++ str_of_int (dropped_in_current_window (throttle self))
                        ++ py " write(s) in last "
                        ++ str_of_int (throttle_window_seconds (config self))
                        ++ py "s window.")
              else mret tt);
         update_throttle (window_reset now)
       else mret tt);
  self ← get_self;
  if writes_in_current_window (throttle self)
       >=? max_writes_per_second (config self)
  then _ ← update_throttle (write_dropped handle); mret true
  else _ ← update_throttle write_admitted; mret false.

(** [get_throttle_stats]: the total and the per-handle counts. *)
Definition get_throttle_stats (self : LoggerRouter) : Z * gmap pystr Z :=
  (throttle_dropped_total (throttle self),
   throttle_dropped_by_handle (throttle self)).

(** [_resolve_handles]. *)
Definition resolve_handles (self : LoggerRouter) (handles : option (list pystr))
  : res (list pystr) :=
  match handles with
  | None => Ok (dict_keys (facilities self))
  | Some selected =>
      if len selected >? max_log_handles_per_call (config self)
      then Raise ValueError
      else
        let unknown :=
          List.filter
            (fun item => negb (bool_decide (is_Some (dict_get item (facilities self)))))
            selected in
        match unknown with
        | [] => Ok selected
        | _ => Raise ValueError
        end
  end.

(** The text an exception shows in a diagnostic; only its class is kept. *)
Definition exception_text (e : exception) : pystr :=
  match e with
  | HtmlSanitizationError => py "HtmlSanitizationError"
  | UnsafeLogTargetError => py "UnsafeLogTargetError"
  | ValueError => py "ValueError"
  | FileNotFoundError => py "FileNotFoundError"
  | OtherOSError => py "OSError"
  | UnicodeEncodeError => py "UnicodeEncodeError"
  | UnicodeDecodeError => py "UnicodeDecodeError"
  | TimeoutError => py "TimeoutError"
  | KeyError => py "KeyError"
  end.

(** [try: body except Exception as exc: handler(exc)]. *)
Definition try_except {S A} (body : M S A) (handler : exception -> M S A)
  : M S A := fun s =>
  match body s with
  | (Raise e, s') => handler e s'
  | other => other
  end.

(** [self._facilities[handle]]. *)
Definition facility_of (handle : pystr) : M (LoggerRouter * World) Facility :=
  fun s =>
    match dict_get handle (facilities (fst s)) with
    | Some facility => (Ok facility, s)
    | None => (Raise KeyError, s)
    end.

(** [facility.write(record)] for the facility registered under [handle];
    the facility object is updated in place. *)
Definition facility_write (env : Env) (handle : pystr) (facility : Facility)
    (record : LogRecord) : M (LoggerRouter * World) unit :=
  match facility with
  | Console console => on_world (ConsoleFacility_write env console record)
  | File file => on_world (on_fs (FileFacility_write file record))
  | Html html =>
      fun s =>
        let '(r, (html', w)) := HtmlFileFacility_write env record (html, snd s) in
        (r, (with_facilities (fst s)
               (dict_set handle (Html html') (facilities (fst s))), w))
  end.

Definition is_security_incident (e : exception) : bool :=
  bool_decide (e = HtmlSanitizationError) || bool_decide (e = UnsafeLogTargetError).

(** The [try] statement of [log] around [facility.write(record)]. *)
Definition deliver (env : Env) (handle : pystr) (facility : Facility)
    (record : LogRecord) : M (LoggerRouter * World) unit :=
  try_except (facility_write env handle facility record)
    (fun exc =>
       if is_security_incident exc
       then console_diagnostic env
              (py "Security incident in facility '" ++ handle
                 ++ py "': " ++ exception_text exc)
       else console_diagnostic env
              (py "Failed to write log into facility '" ++ handle
                 ++ py "': " ++ exception_text exc)).

(** The loop of [log] over the selected handles. *)
Fixpoint log_loop (env : Env) (record : LogRecord) (handles : list pystr)
  : M (LoggerRouter * World) unit :=
  match handles with
  | [] => mret tt
  | handle :: rest =>
      dropped ← should_drop_write_due_to_throttle env handle;
      _ ← (if dropped : bool then mret tt
           else
             facility ← facility_of handle;
             deliver env handle facility record);
      log_loop env record rest
  end.

(** [log].  Level and nature are values of their enumerations. *)
Definition log (env : Env) (message_ : pystr) (level_ : LoggerLevel)
    (nature_ : LogNature) (handles : option (list pystr))
  : M (LoggerRouter * World) unit :=
  self ← get_self;
  if level_priority level_ <? level_priority (logger_level (config self))
  then mret tt
  else
    selected_handles ← lift_res (resolve_handles self handles);
    let prepared_message := prepare_message (limits (config self)) message_ in
    now ← on_world (read_now env);
    let record := {| message := prepared_message; level := level_;
                     nature := nature_; timestamp := now |} in
    log_loop env record selected_handles.

(** [_validate_facility_params]. *)
Definition validate_facility_params (log_handle : pystr) (rotations_to_keep : Z)
  : res unit :=
  if bool_decide (log_handle = HANDLE_CONSOLE) then Raise ValueError
  else if rotations_to_keep <? 0 then Raise ValueError
  else Ok tt.

(** The [except] clauses of the two registration methods: value and
    unsafe-target errors are raised again, anything else becomes a
    diagnostic and the answer [False]. *)
Definition recover_construction {A} (env : Env) (what : pystr)
    (log_handle log_file_path : pystr) (body : M (LoggerRouter * World) A)
  : M (LoggerRouter * World) (option A) :=
  try_except (facility ← body; mret (Some facility))
    (fun exc =>
       if is_ValueError exc || bool_decide (exc = UnsafeLogTargetError)
       then raise exc
       else
         _ ← console_diagnostic env
               (py "Failed to initialize " ++ what ++ py " facility '"
                  ++ log_handle ++ py "' at '" ++ log_file_path ++ py "': "
                  ++ exception_text exc);
         mret None).

Definition register (log_handle : pystr) (facility : Facility)
  : M (LoggerRouter * World) unit :=
  fun s => (Ok tt, (with_facilities (fst s)
                      (dict_set log_handle facility (facilities (fst s))), snd s)).

(** [add_log_file]. *)
Definition add_log_file (env : Env) (log_handle log_file_path : pystr)
    (rotate_on_start : bool) (rotations_to_keep : Z)
  : M (LoggerRouter * World) bool :=
  _ ← lift_res (validate_facility_params log_handle rotations_to_keep);
  self ← get_self;
  created ← recover_construction env (py "file") log_handle log_file_path
    (on_world (on_fs
       (FileFacility_create log_handle (Path_of_str log_file_path)
          rotate_on_start rotations_to_keep
          (plain_log_max_file_size_bytes (config self)))));
  match created with
  | None => mret false
  | Some facility => _ ← register log_handle (File facility); mret true
  end.

(** [add_html_log_file].  The theme is a value of its enumeration. *)
Definition add_html_log_file (env : Env) (log_handle log_file_path title : pystr)
    (html_theme : HtmlTheme) (html_auto_refresh_enabled : bool)
    (html_auto_refresh_seconds : Z) (rotate_on_start : bool)
    (rotations_to_keep : Z) : M (LoggerRouter * World) bool :=
  _ ← lift_res (validate_facility_params log_handle rotations_to_keep);
  self ← get_self;
  refresh_seconds ← lift_res (validate_positive html_auto_refresh_seconds);
  if len title >? max_html_title_length (config self) then raise ValueError
  else
    created ← recover_construction env (py "HTML") log_handle log_file_path
      (on_world (on_fs
         (HtmlFileFacility_create env log_handle (Path_of_str log_file_path)
            title html_theme html_auto_refresh_enabled refresh_seconds
            (max_line_length (limits (config self)))
            (colorize_timeout_ms (config self))
            (max_html_document_bytes (config self))
            rotate_on_start rotations_to_keep)));
    match created with
    | None => mret false
    | Some facility => _ ← register log_handle (Html facility); mret true
    end.

(** ** Router: handles, settings and reconfiguration *)

(** [get_handles]. *)
Definition get_handles (self : LoggerRouter) : list pystr :=
  dict_keys (facilities self).

(** [ConsoleFacility.set_color] and [ConsoleFacility.set_limits]. *)
Definition ConsoleFacility_set_color (self : ConsoleFacility) (enabled : bool)
  : ConsoleFacility :=
  {| cf_color := enabled; cf_max_line_length := cf_max_line_length self;
     cf_colorize_timeout_ms := cf_colorize_timeout_ms self |}.

Definition ConsoleFacility_set_limits (self : ConsoleFacility)
    (max_line_length_ colorize_timeout_ms_ : Z) : ConsoleFacility :=
  {| cf_color := cf_color self; cf_max_line_length := max_line_length_;
     cf_colorize_timeout_ms := colorize_timeout_ms_ |}.

Definition with_config (self : LoggerRouter) (c : RouterConfig) : LoggerRouter :=
  {| config := c; throttle := throttle self; facilities := facilities self |}.

(** [set_level]; the level is a value of its enumeration. *)
Definition set_level (logger_level_ : LoggerLevel) (self : LoggerRouter)
  : LoggerRouter :=
  with_config self
    {| logger_level := logger_level_; limits := limits (config self);
       max_log_handles_per_call := max_log_handles_per_call (config self);
       colorize_timeout_ms := colorize_timeout_ms (config self);
       max_html_document_bytes := max_html_document_bytes (config self);
       max_html_title_length := max_html_title_length (config self);
       max_writes_per_second := max_writes_per_second (config self);
       throttle_window_seconds := throttle_window_seconds (config self);
       plain_log_max_file_size_bytes := plain_log_max_file_size_bytes (config self) |}.

(** [set_color]. *)
Definition set_color (enabled : bool) (self : LoggerRouter) : LoggerRouter :=
  match dict_get HANDLE_CONSOLE (facilities self) with
  | Some (Console console) =>
      with_facilities self
        (dict_set HANDLE_CONSOLE (Console (ConsoleFacility_set_color console enabled))
           (facilities self))
  | _ => self
  end.

(** An assignment to attributes of the router. *)
Definition modify (f : LoggerRouter -> LoggerRouter) : M LoggerRouter unit :=
  fun self => (Ok tt, f self).

(** One assignment [self._name = self._validate_positive("name", value)] of
    [__init__]. *)
Definition assign_positive (store : Z -> RouterConfig -> RouterConfig) (value : Z)
  : M LoggerRouter unit :=
  parsed ← lift_res (validate_positive value);
  modify (fun self => with_config self (store parsed (config self))).

(** The assignments of [__init__], in their order: an invalid value leaves
    the earlier ones made. *)
Definition assign_limits (logger_level_ : LoggerLevel)
    (max_message_length_ max_message_lines_ max_line_length_
     max_log_handles_per_call_ colorize_timeout_ms_ max_html_document_bytes_
     max_html_title_length_ max_writes_per_second_ throttle_window_seconds_
     plain_log_max_file_size_bytes_ : Z) : M LoggerRouter unit :=
  _ ← modify (set_level logger_level_);
  _ ← assign_positive
        (fun v c =>
           {| logger_level := logger_level c;
              limits := {| max_message_length := v;
                           max_message_lines := max_message_lines (limits c);
                           max_line_length := max_line_length (limits c) |};
              max_log_handles_per_call := max_log_handles_per_call c;
              colorize_timeout_ms := colorize_timeout_ms c;
              max_html_document_bytes := max_html_document_bytes c;
              max_html_title_length := max_html_title_length c;
              max_writes_per_second := max_writes_per_second c;
              throttle_window_seconds := throttle_window_seconds c;
              plain_log_max_file_size_bytes := plain_log_max_file_size_bytes c |})
        max_message_length_;
  _ ← assign_positive
        (fun v c =>
           {| logger_level := logger_level c;
              limits := {| max_message_length := max_message_length (limits c);
                           max_message_lines := v;
                           max_line_length := max_line_length (limits c) |};
              max_log_handles_per_call := max_log_handles_per_call c;
              colorize_timeout_ms := colorize_timeout_ms c;
              max_html_document_bytes := max_html_document_bytes c;
              max_html_title_length := max_html_title_length c;
              max_writes_per_second := max_writes_per_second c;
              throttle_window_seconds := throttle_window_seconds c;
              plain_log_max_file_size_bytes := plain_log_max_file_size_bytes c |})
        max_message_lines_;
  _ ← assign_positive
        (fun v c =>
           {| logger_level := logger_level c;
              limits := {| max_message_length := max_message_length (limits c);
                           max_message_lines := max_message_lines (limits c);
                           max_line_length := v |};
              max_log_handles_per_call := max_log_handles_per_call c;
              colorize_timeout_ms := colorize_timeout_ms c;
              max_html_document_bytes := max_html_document_bytes c;
              max_html_title_length := max_html_title_length c;
              max_writes_per_second := max_writes_per_second c;
              throttle_window_seconds := throttle_window_seconds c;
              plain_log_max_file_size_bytes := plain_log_max_file_size_bytes c |})
        max_line_length_;
  _ ← assign_positive
        (fun v c =>
           {| logger_level := logger_level c; limits := limits c;
              max_log_handles_per_call := v;
              colorize_timeout_ms := colorize_timeout_ms c;
              max_html_document_bytes := max_html_document_bytes c;
              max_html_title_length := max_html_title_length c;
              max_writes_per_second := max_writes_per_second c;
              throttle_window_seconds := throttle_window_seconds c;
              plain_log_max_file_size_bytes := plain_log_max_file_size_bytes c |})
        max_log_handles_per_call_;
  _ ← assign_positive
        (fun v c =>
           {| logger_level := logger_level c; limits := limits c;
              max_log_handles_per_call := max_log_handles_per_call c;
              colorize_timeout_ms := v;
              max_html_document_bytes := max_html_document_bytes c;
              max_html_title_length := max_html_title_length c;
              max_writes_per_second := max_writes_per_second c;
              throttle_window_seconds := throttle_window_seconds c;
              plain_log_max_file_size_bytes := plain_log_max_file_size_bytes c |})
        colorize_timeout_ms_;
  _ ← assign_positive
        (fun v c =>
           {| logger_level := logger_level c; limits := limits c;
              max_log_handles_per_call := max_log_handles_per_call c;
              colorize_timeout_ms := colorize_timeout_ms c;
              max_html_document_bytes := v;
              max_html_title_length := max_html_title_length c;
              max_writes_per_second := max_writes_per_second c;
              throttle_window_seconds := throttle_window_seconds c;
              plain_log_max_file_size_bytes := plain_log_max_file_size_bytes c |})
        max_html_document_bytes_;
  _ ← assign_positive
        (fun v c =>
           {| logger_level := logger_level c; limits := limits c;
              max_log_handles_per_call := max_log_handles_per_call c;
              colorize_timeout_ms := colorize_timeout_ms c;
              max_html_document_bytes := max_html_document_bytes c;
              max_html_title_length := v;
              max_writes_per_second := max_writes_per_second c;
              throttle_window_seconds := throttle_window_seconds c;
              plain_log_max_file_size_bytes := plain_log_max_file_size_bytes c |})
        max_html_title_length_;
  _ ← assign_positive
        (fun v c =>
           {| logger_level := logger_level c; limits := limits c;
              max_log_handles_per_call := max_log_handles_per_call c;
              colorize_timeout_ms := colorize_timeout_ms c;
              max_html_document_bytes := max_html_document_bytes c;
              max_html_title_length := max_html_title_length c;
              max_writes_per_second := v;
              throttle_window_seconds := throttle_window_seconds c;
              plain_log_max_file_size_bytes := plain_log_max_file_size_bytes c |})
        max_writes_per_second_;
  _ ← assign_positive
        (fun v c =>
           {| logger_level := logger_level c; limits := limits c;
              max_log_handles_per_call := max_log_handles_per_call c;
              colorize_timeout_ms := colorize_timeout_ms c;
              max_html_document_bytes := max_html_document_bytes c;
              max_html_title_length := max_html_title_length c;
              max_writes_per_second := max_writes_per_second c;
              throttle_window_seconds := v;
              plain_log_max_file_size_bytes := plain_log_max_file_size_bytes c |})
        throttle_window_seconds_;
  assign_positive
    (fun v c =>
       {| logger_level := logger_level c; limits := limits c;
          max_log_handles_per_call := max_log_handles_per_call c;
          colorize_timeout_ms := colorize_timeout_ms c;
          max_html_document_bytes := max_html_document_bytes c;
          max_html_title_length := max_html_title_length c;
          max_writes_per_second := max_writes_per_second c;
          throttle_window_seconds := throttle_window_seconds c;
          plain_log_max_file_size_bytes := v |})
    plain_log_max_file_size_bytes_.

(** [__init__] on the live instance, which has its throttle counters and
    its facilities: the limits are assigned, then the console facility is
    created if there is none, or given the colour and the limits. *)
Definition LoggerRouter_reconfigure (logger_level_ : LoggerLevel)
    (logger_color : bool)
    (max_message_length_ max_message_lines_ max_line_length_
     max_log_handles_per_call_ colorize_timeout_ms_ max_html_document_bytes_
     max_html_title_length_ max_writes_per_second_ throttle_window_seconds_
     plain_log_max_file_size_bytes_ : Z) : M LoggerRouter unit :=
  _ ← assign_limits logger_level_ max_message_length_ max_message_lines_
        max_line_length_ max_log_handles_per_call_ colorize_timeout_ms_
        max_html_document_bytes_ max_html_title_length_ max_writes_per_second_
        throttle_window_seconds_ plain_log_max_file_size_bytes_;
  modify (fun self =>
     match dict_get HANDLE_CONSOLE (facilities self) with
     | None =>
         with_facilities self
           (dict_set HANDLE_CONSOLE
              (Console {| cf_color := logger_color;
                          cf_max_line_length := max_line_length (limits (config self));
                          cf_colorize_timeout_ms := colorize_timeout_ms (config self) |})
              (facilities self))
     | Some (Console console) =>
         with_facilities self
           (dict_set HANDLE_CONSOLE
              (Console (ConsoleFacility_set_limits
                          (ConsoleFacility_set_color console logger_color)
                          (max_line_length (limits (config self)))
                          (colorize_timeout_ms (config self))))
              (facilities self))
     | Some _ => self
     end).

(** ** Notions of the specification

    Definitions below are not code of the package: they spell out wording of
    the specification, to be compared with the model above. *)

(** The line-count property as the specification words it: the prepared
    message never has more than [max_message_lines] lines, keeps the line
    count of the input when that is within the cap, and has [cap + 1] lines
    otherwise. *)
Definition line_count_as_specified (lim : MessageLimits) (message : pystr) : Prop :=
  let out := line_count (prepare_message lim message) in
  let inp := line_count (normalize_newlines message) in
  out <= max_message_lines lim
  /\ (inp <= max_message_lines lim -> out = inp)
  /\ (inp > max_message_lines lim -> out = max_message_lines lim + 1).

(** A text without line feed. *)
Definition no_newline (l : pystr) : Prop := Forall (fun c => c <> LF) l.

(** *** Quoted-content spans, as the specification words them

    A quote character at [j] is non-escaped when the character before it is
    not a backslash.  A quote opened at [start - 1] closes at the next
    matching, non-escaped quote at or after [start]. *)
Definition closing_quote (text : pystr) (quote : char) (j : nat) : Prop :=
  (j < length text)%nat
  /\ char_at text j = quote
  /\ char_at text (j - 1) <> BACKSLASH.

Definition next_closing_quote (text : pystr) (quote : char) (start e : nat)
  : Prop :=
  (start <= e)%nat
  /\ closing_quote text quote e
  /\ forall j, (start <= j < e)%nat -> ~ closing_quote text quote j.

(** The spans found from position [idx] on: other characters are passed
    over; a quote that closes gives the span of its content and the scan
    resumes after the closing quote; an unterminated quote gives no span and
    the scan resumes after it. *)
Inductive quoted_spans_from (text : pystr) : nat -> list span -> Prop :=
| qs_end idx :
    (length text <= idx)%nat -> quoted_spans_from text idx []
| qs_plain idx spans :
    (idx < length text)%nat -> is_quote (char_at text idx) = false ->
    quoted_spans_from text (idx + 1) spans ->
    quoted_spans_from text idx spans
| qs_closed idx e spans :
    (idx < length text)%nat -> is_quote (char_at text idx) = true ->
    next_closing_quote text (char_at text idx) (idx + 1) e ->
    quoted_spans_from text (e + 1) spans ->
    quoted_spans_from text idx ((idx + 1, e)%nat :: spans)
| qs_unterminated idx spans :
    (idx < length text)%nat -> is_quote (char_at text idx) = true ->
    (forall j, (idx + 1 <= j)%nat -> ~ closing_quote text (char_at text idx) j) ->
    quoted_spans_from text (idx + 1) spans ->
    quoted_spans_from text idx spans.

(** *** Token classes by priority *)
Definition in_some_span (index : nat) (spans : list span) : Prop :=
  exists start end_, In (start, end_) spans /\ (start <= index < end_)%nat.

Definition is_punctuation (ch : char) : Prop := In ch (py ".,+-=<>:;[]{}").

Inductive token_by_priority (U : Unicode) (index : nat) (ch : char)
    (quote_spans : list span) (quote_marks : gset nat) (lhs_spans : list span)
  : pystr -> Prop :=
| tp_quote_mark :
    index ∈ quote_marks ->
    token_by_priority U index ch quote_spans quote_marks lhs_spans (py "quote-mark")
| tp_quote_content :
    index ∉ quote_marks -> in_some_span index quote_spans ->
    token_by_priority U index ch quote_spans quote_marks lhs_spans (py "quote-content")
| tp_lhs :
    index ∉ quote_marks -> ~ in_some_span index quote_spans ->
    in_some_span index lhs_spans ->
    token_by_priority U index ch quote_spans quote_marks lhs_spans (py "lhs")
| tp_number :
    index ∉ quote_marks -> ~ in_some_span index quote_spans ->
    ~ in_some_span index lhs_spans -> isdigit U ch = true ->
    token_by_priority U index ch quote_spans quote_marks lhs_spans (py "number")
| tp_punct :
    index ∉ quote_marks -> ~ in_some_span index quote_spans ->
    ~ in_some_span index lhs_spans -> isdigit U ch = false ->
    is_punctuation ch ->
    token_by_priority U index ch quote_spans quote_marks lhs_spans (py "punct")
| tp_base :
    index ∉ quote_marks -> ~ in_some_span index quote_spans ->
    ~ in_some_span index lhs_spans -> isdigit U ch = false ->
    ~ is_punctuation ch ->
    token_by_priority U index ch quote_spans quote_marks lhs_spans (py "base").

(** *** The row schema, as the specification words it *)

Definition allowed_tag_names : list pystr := [py "div"; py "pre"; py "span"].

Definition allowed_class_names : list pystr :=
  [ py "log-row"; py "log-line-no"; py "log-time"; py "log-date"; py "log-clock";
    py "badge-info"; py "badge-debug"; py "badge-warning"; py "badge-error";
    py "syn-base"; py "syn-quote-mark"; py "syn-quote-content"; py "syn-number";
    py "syn-punct"; py "syn-lhs" ].

(** An attribute is named [class] (names compare in lower case) and has a
    value with at least one whitespace-separated token, all of them from the
    allow-list. *)
Definition attribute_allowed (U : Unicode) (a : pystr * option pystr) : Prop :=
  lower U (fst a) = py "class"
  /\ exists value, snd a = Some value
       /\ split_ws value <> []
       /\ Forall (fun c => In c allowed_class_names) (split_ws value).

Definition not_event_handler (U : Unicode) (a : pystr * option pystr) : Prop :=
  starts_with (py "on") (lower U (fst a)) = false.

(** Opening and closing tags of a fragment, in order. *)
Inductive tag_token :=
| Open (tag : pystr)
| Close (tag : pystr).

Fixpoint tag_tokens (events : list html_event) : list tag_token :=
  match events with
  | [] => []
  | StartTag tag _ :: rest => Open tag :: tag_tokens rest
  | EndTag tag :: rest => Close tag :: tag_tokens rest
  | _ :: rest => tag_tokens rest
  end.

(** Exactly balanced tags: every opening tag is closed by a closing tag of
    the same name, properly nested, and nothing else closes. *)
Inductive balanced : list tag_token -> Prop :=
| balanced_nil : balanced []
| balanced_nest tag inner rest :
    balanced inner -> balanced rest ->
    balanced (Open tag :: inner ++ Close tag :: rest).

Definition is_tag_event (ev : html_event) : bool :=
  match ev with
  | StartTag _ _ | EndTag _ | StartEndTag _ _ => true
  | _ => false
  end.

Fixpoint first_tag (events : list html_event) : option html_event :=
  match events with
  | [] => None
  | ev :: rest => if is_tag_event ev then Some ev else first_tag rest
  end.

Record row_schema (U : Unicode) (events : list html_event) : Prop := {
  schema_open_tags : forall tag attrs,
      In (StartTag tag attrs) events -> In tag allowed_tag_names;
  schema_close_tags : forall tag,
      In (EndTag tag) events -> In tag allowed_tag_names;
  schema_first_div : exists attrs,
      first_tag events = Some (StartTag (py "div") attrs);
  schema_attributes : forall tag attrs a,
      In (StartTag tag attrs) events -> In a attrs -> attribute_allowed U a;
  schema_no_handler : forall tag attrs a,
      In (StartTag tag attrs) events -> In a attrs -> not_event_handler U a;
  schema_no_self_closing : forall tag attrs, ~ In (StartEndTag tag attrs) events;
  schema_no_comment : forall data, ~ In (Comment data) events;
  schema_balanced : balanced (tag_tokens events)
}.

(** Auxiliary notions for the proofs: the checks one event has to pass on
    its own, the stack discipline on tag tokens, and the first opening tag. *)
Definition event_passes (U : Unicode) (ev : html_event) : Prop :=
  match ev with
  | StartTag tag attrs =>
      In tag allowed_tag_names
      /\ Forall (fun a => attribute_allowed U a /\ not_event_handler U a) attrs
  | EndTag tag => In tag allowed_tag_names
  | StartEndTag _ _ | Comment _ => False
  | _ => True
  end.

Fixpoint run_stack (st : list pystr) (toks : list tag_token)
  : option (list pystr) :=
  match toks with
  | [] => Some st
  | Open tag :: rest => run_stack (tag :: st) rest
  | Close tag :: rest =>
      match st with
      | top :: st' => if bool_decide (top = tag) then run_stack st' rest else None
      | [] => None
      end
  end.

Fixpoint first_start (events : list html_event) : option pystr :=
  match events with
  | [] => None
  | StartTag tag _ :: _ => Some tag
  | _ :: rest => first_start rest
  end.

(** [closes_open st toks]: [toks] closes the open tags [st], innermost
    first, with balanced stretches in between and after. *)
Fixpoint closes_open (st : list pystr) (toks : list tag_token) : Prop :=
  match st with
  | [] => balanced toks
  | tag :: st' =>
      exists inner rest,
        toks = inner ++ Close tag :: rest /\ balanced inner /\ closes_open st' rest
  end.

(** *** Unsafe targets, as the specification words them *)

(** The path the guard inspects: the given one made absolute. *)
Definition resolved (fs : FileSystem) (path : Path) : Path :=
  if is_absolute path then path else joinpath (Path_cwd fs) path.

(** The ancestors of a path: its parent, the parent of that, and so on. *)
Inductive ancestor_of : Path -> Path -> Prop :=
| ancestor_parent p : ancestor_of (path_parent p) p
| ancestor_further a p : ancestor_of a (path_parent p) -> ancestor_of a p.

Definition unsafe_target (fs : FileSystem) (path : Path) : Prop :=
  (exists a, ancestor_of a (resolved fs path) /\ path_is_symlink fs a = true)
  \/ (exists st, os_lstat fs (resolved fs path) = Ok st
                 /\ (S_ISLNK (st_mode st) = true \/ S_ISREG (st_mode st) = false))
  \/ (exists e, os_lstat fs (resolved fs path) = Raise e /\ e <> FileNotFoundError).

(** *** Rotation chain *)

(** [F.i]: the member number [i] of the chain of [path]. *)
Definition chain_member (path : Path) (i : Z) : Path :=
  {| is_absolute := is_absolute path;
     parts := removelast (parts path)
                ++ [path_name path ++ py "." ++ str_of_int i] |}.

(** The node a path names, links not followed. *)
Definition node_of (fs : FileSystem) (p : Path) : option node :=
  node_at (tree fs) (absolute fs p).

Definition plain_or_missing (fs : FileSystem) (p : Path) : Prop :=
  node_of fs p = None \/ exists data, node_of fs p = Some (Regular data).

(** Every directory on the way to [path] is there, as a directory. *)
Definition directories_ready (fs : FileSystem) (path : Path) : Prop :=
  forall k, (1 <= k < length (absolute fs path))%nat ->
            tree fs !! take k (absolute fs path) = Some Directory.

(** A target the guard lets through, with its directory in place. *)
Definition safe_target (fs : FileSystem) (path : Path) : Prop :=
  path_name path <> [] /\ directories_ready fs path /\ plain_or_missing fs path.

Definition rotation_ready (fs : FileSystem) (path : Path) (keep : Z) : Prop :=
  safe_target fs path
  /\ forall i, 1 <= i <= keep -> plain_or_missing fs (chain_member path i).

(** Auxiliary notions for the rotation proofs: the tree after moving the
    node at [src] to the free place [dst], and after the shifting loop has
    handled the members [n], [n - 1], ..., 1 of a chain with keys [key]. *)
Definition moved (src dst : list pystr) (t : gmap (list pystr) node)
  : gmap (list pystr) node :=
  match t !! src with
  | Some n => <[dst := n]> (delete src t)
  | None => t
  end.

Fixpoint shifted (key : Z -> list pystr) (n : nat) (t : gmap (list pystr) node)
  : gmap (list pystr) node :=
  match n with
  | O => t
  | S n' => shifted key n' (moved (key (Z.of_nat n)) (key (Z.of_nat n + 1)) t)
  end.

(** The bytes of a regular file, none for a missing one. *)
Definition data_of (o : option node) : bytes :=
  match o with
  | Some (Regular data) => data
  | _ => []
  end.

(** *** Sample data for the examples *)

(** The bytes of an ASCII literal, [b"..."]. *)
Definition ascii_bytes (s : string) : bytes :=
  map Ascii.byte_of_ascii (list_ascii_of_string s).

(** [/var/log] holds [app.log] ("newest") and [app.log.1] ("older"); the
    working directory is [/var]. *)
Definition sample_tree : gmap (list pystr) node :=
  <[ [py "var"] := Directory ]>
  (<[ [py "var"; py "log"] := Directory ]>
  (<[ [py "var"; py "log"; py "app.log"] := Regular (ascii_bytes "newest") ]>
  (<[ [py "var"; py "log"; py "app.log.1"] := Regular (ascii_bytes "older") ]> ∅))).

Definition sample_fs : FileSystem :=
  {| cwd := [py "var"]; tree := sample_tree |}.

Definition sample_log : Path :=
  {| is_absolute := false; parts := [py "log"; py "app.log"] |}.

(** *** Flattening, as the specification words it

    Every maximal run of whitespace that contains a line feed becomes one
    space; every other character stays.  [run] is the whitespace seen since
    the last other character. *)
Definition flush_run (run : pystr) : pystr :=
  if existsb (N.eqb LF) run then [SPACE] else run.

Fixpoint collapse_from (run : pystr) (s : pystr) : pystr :=
  match s with
  | [] => flush_run run
  | c :: r =>
      if isspace c then collapse_from (run ++ [c]) r
      else flush_run run ++ c :: collapse_from [] r
  end.

Definition collapse_newline_runs (s : pystr) : pystr := collapse_from [] s.

(** The line of the plain-text file if flattening did nothing but collapse
    the runs. *)
Definition line_as_specified (record : LogRecord) : pystr :=
  py "[" ++ strftime_datetime (timestamp record) ++ py "] ["
    ++ nature_str (nature record) ++ py "] "
    ++ collapse_newline_runs (message record) ++ [LF].

(** A text begins with a character that is no whitespace, or is empty. *)
Definition nonspace_start (s : pystr) : Prop :=
  match s with
  | [] => True
  | d :: _ => isspace d = false
  end.

(** [shape_ok pattern s]: [s] has the shape of [pattern], where [d] stands
    for a decimal digit and any other character for itself. *)
Fixpoint shape_ok (pattern : pystr) (s : pystr) : bool :=
  match pattern, s with
  | [], [] => true
  | p :: pattern', c :: s' =>
      (if (p =? 100)%N then (48 <=? c)%N && (c <=? 57)%N else (c =? p)%N)
      && shape_ok pattern' s'
  | _, _ => false
  end.

(** A record whose message begins with a blank. *)
Definition sample_record : LogRecord :=
  {| message := py " a";
     level := LEVEL_INFO;
     nature := NATURE_WARNING;
     timestamp := {| year := 2026; month := 1; day := 2;
                     hour := 3; minute := 4; second := 5 |} |}.

Definition sample_file_facility : FileFacility :=
  {| ff_handle := py "app";
     ff_file_path := sample_log;
     ff_rotations_to_keep := 2;
     ff_max_file_size_bytes := 30 |}.

(** A sample interpreter: ASCII character classes, a tokenizer for the
    tags the renderer writes ([<name attr="value">], [</name>], [<name/>],
    comments and text), clocks that stand still, and a short template. *)
Definition ascii_lower_char (c : char) : char :=
  if ((65 <=? c) && (c <=? 90))%N then (c + 32)%N else c.

Definition ascii_unicode : Unicode :=
  {| isdigit := fun c => ((48 <=? c) && (c <=? 57))%N;
     isalpha := fun c => ((65 <=? c) && (c <=? 90) || (97 <=? c) && (c <=? 122))%N;
     isalnum := fun c => ((65 <=? c) && (c <=? 90) || (97 <=? c) && (c <=? 122)
                          || (48 <=? c) && (c <=? 57))%N;
     lower := map ascii_lower_char |}.

Fixpoint take_until (stop : char -> bool) (s : pystr) : pystr * pystr :=
  match s with
  | [] => ([], [])
  | c :: r =>
      if stop c then ([], s)
      else let (a, b) := take_until stop r in (c :: a, b)
  end.

Fixpoint find_sub (sub : pystr) (s : pystr) : option (pystr * pystr) :=
  if starts_with sub s then Some ([], skipn (length sub) s)
  else match s with
       | [] => None
       | c :: r =>
           match find_sub sub r with
           | Some (a, b) => Some (c :: a, b)
           | None => None
           end
       end.

Definition attr_name_end (c : char) : bool :=
  isspace c || (c =? 61)%N || (c =? 62)%N || (c =? SLASH)%N.

Fixpoint sample_attrs (fuel : nat) (s : pystr) (acc : attr_list)
  : option (attr_list * bool * pystr) :=
  match fuel with
  | O => None
  | S fuel' =>
      match lstrip s with
      | [] => None
      | c :: r =>
          if (c =? 62)%N then Some (acc, false, r)
          else if (c =? SLASH)%N
          then match r with
               | d :: r' => if (d =? 62)%N then Some (acc, true, r') else None
               | [] => None
               end
          else
            let (name, after_name) := take_until attr_name_end (c :: r) in
            let name := map ascii_lower_char name in
            match after_name with
            | e :: q :: value_on =>
                if (e =? 61)%N && (q =? DQUOTE)%N
                then let (value, after_value) :=
                       take_until (fun x => (x =? DQUOTE)%N) value_on in
                     match after_value with
                     | _ :: rest => sample_attrs fuel' rest (acc ++ [(name, Some value)])
                     | [] => None
                     end
                else if (e =? 61)%N
                then let (value, rest) :=
                       take_until (fun x => isspace x || (x =? 62)%N) (q :: value_on) in
                     sample_attrs fuel' rest (acc ++ [(name, Some value)])
                else sample_attrs fuel' after_name (acc ++ [(name, None)])
            | _ => sample_attrs fuel' after_name (acc ++ [(name, None)])
            end
      end
  end.

Fixpoint sample_tokens (fuel : nat) (s : pystr) : list html_event :=
  match fuel with
  | O => []
  | S fuel' =>
      match s with
      | [] => []
      | c :: r =>
          if negb (c =? 60)%N
          then let (text, rest) := take_until (fun x => (x =? 60)%N) s in
               Data text :: sample_tokens fuel' rest
          else if starts_with (py "<!--") s
          then match find_sub (py "-->") (skipn 4 s) with
               | Some (data, rest) => Comment data :: sample_tokens fuel' rest
               | None => [Data s]
               end
          else if starts_with (py "</") s
          then let (name, rest) := take_until (fun x => (x =? 62)%N) (skipn 2 s) in
               EndTag (map ascii_lower_char name) :: sample_tokens fuel' (skipn 1 rest)
          else
            let (name, rest) := take_until attr_name_end r in
            match sample_attrs (length rest) rest [] with
            | Some (attrs, false, rest') =>
                StartTag (map ascii_lower_char name) attrs :: sample_tokens fuel' rest'
            | Some (attrs, true, rest') =>
                StartEndTag (map ascii_lower_char name) attrs :: sample_tokens fuel' rest'
            | None => [Data s]
            end
      end
  end.

Definition sample_html_parser (s : pystr) : list html_event :=
  sample_tokens (length s) s.

Definition sample_template (title stylesheet marker theme_class refresh_meta : pystr)
  : pystr :=
  py "<html><head><title>" ++ title ++ py "</title>" ++ refresh_meta
    ++ py "<style>" ++ stylesheet ++ py "</style></head><body class="
    ++ quoted theme_class ++ py ">" ++ [LF] ++ marker ++ [LF].

Definition sample_env : Env :=
  {| uni := ascii_unicode;
     html_parser := sample_html_parser;
     perf_counter := fun _ => 0%Q;
     monotonic := fun _ => 1%Q;
     datetime_now := fun _ => {| year := 2026; month := 1; day := 2;
                                 hour := 3; minute := 4; second := 5 |};
     html_template := sample_template;
     PICO_EMBEDDED_CSS := py "pre { margin: 0; }";
     syntax_class_to_html := default_syntax_class_to_html |}.

(** The same interpreter with a renderer that has been tampered with, as in
    the test suite: the class text breaks out of its attribute. *)
Definition tampered_env : Env :=
  {| uni := ascii_unicode;
     html_parser := sample_html_parser;
     perf_counter := fun _ => 0%Q;
     monotonic := fun _ => 1%Q;
     datetime_now := datetime_now sample_env;
     html_template := sample_template;
     PICO_EMBEDDED_CSS := py "pre { margin: 0; }";
     syntax_class_to_html :=
       fun _ => py "syn-base" ++ [DQUOTE] ++ py " onclick=" ++ [DQUOTE] ++ py "alert(1)" |}.

(** A computation under a time budget that raises nothing but
    [TimeoutError]. *)
Definition only_timeout {A} (m : timed A) : Prop :=
  forall k e k', m k = (Raise e, k') -> e = TimeoutError.

Definition sample_world : World :=
  {| fs := sample_fs; stdout := []; stderr := [];
     perf_reads := 0; mono_reads := 0; now_reads := 0 |}.

(** An HTML facility whose document is the non-empty file of the sample
    tree. *)
Definition sample_html_facility : HtmlFileFacility :=
  {| hf_handle := py "html"; hf_file_path := sample_log; hf_title := py "T";
     hf_theme := THEME_DARK; hf_auto_refresh_enabled := false;
     hf_auto_refresh_seconds := 10; hf_max_line_length := 100;
     hf_colorize_timeout_ms := 15; hf_max_document_bytes := 10000;
     hf_line_number := 0 |}.

(** *** The write throttle

    A run of admission checks, one per handle, in the order in which the
    loop of [log] makes them; the answer [true] is a drop. *)
Fixpoint throttle_checks (env : Env) (handles : list pystr)
  : M (LoggerRouter * World) (list bool) :=
  match handles with
  | [] => mret []
  | handle :: rest =>
      dropped ← should_drop_write_due_to_throttle env handle;
      others ← throttle_checks env rest;
      mret (dropped :: others)
  end.

(** The next [n] readings of the clock fall in the window that is open. *)
Definition within_window (env : Env) (self : LoggerRouter) (w : World) (n : nat)
  : Prop :=
  (0 < throttle_window_started_at (throttle self))%Q
  /\ forall k, (k < n)%nat ->
       (monotonic env (mono_reads w + k)
          - throttle_window_started_at (throttle self)
        < inject_Z (throttle_window_seconds (config self)))%Q.

(** One budget for all handles: after [used] admissions the [k]-th further
    check is a drop exactly if the cap is reached. *)
Definition shared_budget (cap used : Z) (n : nat) : list bool :=
  map (fun k => cap <=? used + Z.of_nat k) (seq 0 n).

(** A budget per handle, as the specification words it: a check is a drop
    exactly if the admissions to the same handle have reached the cap. *)
Fixpoint per_handle_budget (cap : Z) (used : gmap pystr Z) (handles : list pystr)
  : list bool :=
  match handles with
  | [] => []
  | handle :: rest =>
      let mine := default 0 (used !! handle) in
      if cap <=? mine then true :: per_handle_budget cap used rest
      else false :: per_handle_budget cap (<[handle := mine + 1]> used) rest
  end.

(** The number of admitted checks for [handle]. *)
Fixpoint admitted_to (handle : pystr) (handles : list pystr) (dropped : list bool)
  : Z :=
  match handles, dropped with
  | h :: hs, d :: ds =>
      (if bool_decide (h = handle) && negb d then 1 else 0)
      + admitted_to handle hs ds
  | _, _ => 0
  end.

(** The state of a new throttle after its first admission at [now]. *)
Definition first_admission (now : Q) : ThrottleState :=
  write_admitted (window_started now fresh_throttle).

(** A router as the test suite sets it up: one write per window of 60
    seconds, the console and the plain file of the sample tree. *)
Definition sample_router : LoggerRouter :=
  {| config :=
       {| logger_level := LEVEL_INFO;
          limits := {| max_message_length := 32768; max_message_lines := 500;
                       max_line_length := 4096 |};
          max_log_handles_per_call := 64; colorize_timeout_ms := 15;
          max_html_document_bytes := 10485760; max_html_title_length := 256;
          max_writes_per_second := 1; throttle_window_seconds := 60;
          plain_log_max_file_size_bytes := 209715200 |};
     throttle := fresh_throttle;
     facilities :=
       [(HANDLE_CONSOLE,
         Console {| cf_color := false; cf_max_line_length := 4096;
                    cf_colorize_timeout_ms := 15 |});
        (py "app", File sample_file_facility)] |}.

(** The same router in the middle of a window. *)
Definition busy_router : LoggerRouter :=
  with_throttle sample_router (window_started 1%Q fresh_throttle).

(** A computation that leaves the monotonic clock alone; [proj] finds the
    world in its state. *)
Definition keeps_clock {S A} (proj : S -> World) (m : M S A) : Prop :=
  forall s, mono_reads (proj (snd (m s))) = mono_reads (proj s).

(** *** Registration

    [self'] is [self] with [facility] in the place of what [handle] named:
    the handles and their order, the other facilities, the configuration and
    the throttle are as before. *)
Definition replaced (self self' : LoggerRouter) (handle : pystr)
    (facility : Facility) : Prop :=
  dict_get handle (facilities self') = Some facility
  /\ dict_keys (facilities self') = dict_keys (facilities self)
  /\ (forall other, other <> handle ->
        dict_get other (facilities self') = dict_get other (facilities self))
  /\ config self' = config self
  /\ throttle self' = throttle self.

(** ** Notions for the further properties *)

(** *** Text without control characters *)

(** No carriage return. *)
Definition no_cr (s : pystr) : Prop := Forall (fun c => c <> CR) s.

(** A character that a terminal or a browser takes as text: a line feed, a
    tab, or no C0 or C1 control character. *)
Definition plain_char (c : char) : bool :=
  (c =? LF)%N || (c =? TAB)%N || negb (is_c0_or_c1 c).

(** A character with a meaning in HTML markup. *)
Definition markup_char (c : char) : bool :=
  (c =? 38)%N || (c =? 60)%N || (c =? 62)%N || (c =? DQUOTE)%N || (c =? SQUOTE)%N.

(** *** Routing *)

(** The handles of a call can be resolved: there are not too many of them
    and each is registered. *)
Definition resolvable (self : LoggerRouter) (handles : option (list pystr))
  : Prop :=
  match handles with
  | None => True
  | Some selected =>
      len selected <= max_log_handles_per_call (config self)
      /\ Forall (fun handle => is_Some (dict_get handle (facilities self))) selected
  end.

(** The sum of the drop counts kept per handle. *)
Definition sum_counts (counts : gmap pystr Z) : Z :=
  map_fold (fun _ count total => count + total) 0 counts.

(** The total drop count is the sum of the counts per handle. *)
Definition counts_consistent (self : LoggerRouter) : Prop :=
  throttle_dropped_total (throttle self)
  = sum_counts (throttle_dropped_by_handle (throttle self)).

(** A computation keeps a property of the router, whatever its result. *)
Definition keeps_router {A} (P : LoggerRouter -> Prop)
    (m : M (LoggerRouter * World) A) : Prop :=
  forall s, P (fst s) -> P (fst (snd (m s))).

(** The sample interpreter much later, and the sample router with a window
    that started at the first second and had drops. *)
Definition late_env : Env :=
  {| uni := uni sample_env;
     html_parser := html_parser sample_env;
     perf_counter := perf_counter sample_env;
     monotonic := fun _ => 100%Q;
     datetime_now := datetime_now sample_env;
     html_template := html_template sample_env;
     PICO_EMBEDDED_CSS := PICO_EMBEDDED_CSS sample_env;
     syntax_class_to_html := syntax_class_to_html sample_env |}.

Definition late_router : LoggerRouter :=
  with_throttle sample_router
    {| throttle_window_started_at := 1%Q; writes_in_current_window := 1;
       dropped_in_current_window := 2; throttle_dropped_total := 5;
       throttle_dropped_by_handle := {[py "app" := 5]} |}.

(** The sample interpreter with a clock that advances one second at every
    reading. *)
Definition slow_env : Env :=
  {| uni := uni sample_env;
     html_parser := html_parser sample_env;
     perf_counter := fun k => inject_Z (Z.of_nat k);
     monotonic := monotonic sample_env;
     datetime_now := datetime_now sample_env;
     html_template := html_template sample_env;
     PICO_EMBEDDED_CSS := PICO_EMBEDDED_CSS sample_env;
     syntax_class_to_html := syntax_class_to_html sample_env |}.

(** *** Quote marks

    The positions of the two quotes around each span of quoted content. *)
Definition delimiters (spans : list span) : gset nat :=
  list_to_set (flat_map (fun s => [(fst s - 1)%nat; snd s]) spans).

(** *** Left-hand sides

    A span of [text] that is an identifier (a letter or an underscore, then
    letters, digits and underscores) followed, after optional whitespace,
    by an equals sign. *)
Definition lhs_of_equals (U : Unicode) (text : pystr) (s : span) : Prop :=
  (fst s < snd s <= length text)%nat
  /\ (isalpha U (char_at text (fst s)) || (char_at text (fst s) =? 95)%N = true)
  /\ (forall i, (fst s < i < snd s)%nat ->
        isalnum U (char_at text i) || (char_at text i =? 95)%N = true)
  /\ exists equals,
       (snd s <= equals < length text)%nat
       /\ char_at text equals = 61%N
       /\ forall i, (snd s <= i < equals)%nat -> isspace (char_at text i) = true.

(* ===================================================================== *)
(** * Part II. Properties                                                 *)
(* ===================================================================== *)

(** ** Text helpers *)

Lemma split_on_nonempty sep s : split_on sep s <> [].
Proof.
  destruct s as [|c r]; simpl; [discriminate|].
  destruct (c =? sep)%N; [discriminate|].
  destruct (split_on sep r); discriminate.
Qed.

Lemma split_on_no_sep l : no_newline l -> split_on LF l = [l].
Proof.
  induction 1 as [|c l Hc Hl IH]; simpl; [reflexivity|].
  destruct (N.eqb_spec c LF); [contradiction|].
  now rewrite IH.
Qed.

Lemma split_on_app_sep l rest :
  no_newline l -> split_on LF (l ++ LF :: rest) = l :: split_on LF rest.
Proof.
  induction 1 as [|c l Hc Hl IH]; simpl; [reflexivity|].
  destruct (N.eqb_spec c LF); [contradiction|].
  now rewrite IH.
Qed.

Lemma split_join_lines (ls : list pystr) :
  ls <> [] -> Forall no_newline ls -> split_on LF (join [LF] ls) = ls.
Proof.
  induction ls as [|l ls IH]; [congruence|].
  intros _ Hall. inversion Hall as [|? ? Hl Hls]; subst.
  destruct ls as [|l' ls'].
  - simpl. now apply split_on_no_sep.
  - change (join [LF] (l :: l' :: ls')) with (l ++ LF :: join [LF] (l' :: ls')).
    rewrite split_on_app_sep by assumption.
    f_equal. apply IH; [discriminate|assumption].
Qed.

Lemma split_on_pieces s : Forall no_newline (split_on LF s).
Proof.
  induction s as [|c r IH]; simpl.
  - repeat constructor.
  - destruct (N.eqb_spec c LF).
    + constructor; [constructor|assumption].
    + destruct (split_on LF r) as [|l ls]; [repeat constructor; assumption|].
      inversion IH; subst. constructor; [constructor; assumption|assumption].
Qed.

Lemma chars_of_uint_no_newline d : no_newline (chars_of_uint d).
Proof. induction d; simpl; constructor; try assumption; discriminate. Qed.

Lemma str_of_int_no_newline z : no_newline (str_of_int z).
Proof.
  unfold str_of_int. destruct (Z.to_int z).
  - apply chars_of_uint_no_newline.
  - constructor; [discriminate|apply chars_of_uint_no_newline].
Qed.

Lemma no_newline_app a b : no_newline a -> no_newline b -> no_newline (a ++ b).
Proof. intros; now apply Forall_app. Qed.

Lemma no_newline_firstn n l : no_newline l -> no_newline (firstn n l).
Proof. intros H. unfold no_newline. apply Forall_take. exact H. Qed.

Lemma no_newline_slice_to l n : no_newline l -> no_newline (slice_to l n).
Proof. intros H. unfold slice_to. destruct (n <? 0); now apply no_newline_firstn. Qed.

Lemma no_newline_py_literal s :
  forallb (fun c => negb (c =? LF)%N) (py s) = true -> no_newline (py s).
Proof.
  intros H. unfold no_newline. rewrite forallb_forall in H.
  apply List.Forall_forall. intros c Hc. specialize (H c Hc).
  destruct (N.eqb_spec c LF); [discriminate|assumption].
Qed.

(** ** Message preparation *)

Lemma clip_line_no_newline lim l : no_newline l -> no_newline (clip_line lim l).
Proof.
  intros H. unfold clip_line. destruct (len l >? max_line_length lim); [|exact H].
  repeat apply no_newline_app.
  - now apply no_newline_slice_to.
  - now apply no_newline_py_literal.
  - apply str_of_int_no_newline.
  - now apply no_newline_py_literal.
Qed.

Lemma drop_lines_no_newline lim ls :
  Forall no_newline ls -> Forall no_newline (drop_lines lim ls).
Proof.
  intros H. unfold drop_lines. destruct (len ls >? max_message_lines lim); [|exact H].
  apply Forall_app. split.
  - unfold slice_to. destruct (_ <? 0); now apply Forall_take.
  - constructor; [|constructor].
    repeat apply no_newline_app.
    + now apply no_newline_py_literal.
    + apply str_of_int_no_newline.
    + now apply no_newline_py_literal.
Qed.

Lemma drop_lines_len lim ls :
  0 <= max_message_lines lim ->
  len (drop_lines lim ls) =
    if len ls <=? max_message_lines lim then len ls else max_message_lines lim + 1.
Proof.
  intros Hcap. unfold drop_lines, len, slice_to.
  destruct (Z.gtb_spec (Z.of_nat (length ls)) (max_message_lines lim)) as [Hgt|Hle].
  - destruct (Z.leb_spec (Z.of_nat (length ls)) (max_message_lines lim)); [lia|].
    destruct (Z.ltb_spec (max_message_lines lim) 0); [lia|].
    rewrite length_app, length_take. simpl. lia.
  - destruct (Z.leb_spec (Z.of_nat (length ls)) (max_message_lines lim)); [reflexivity|lia].
Qed.

Lemma drop_lines_nonempty lim ls : ls <> [] -> drop_lines lim ls <> [].
Proof.
  intros H. unfold drop_lines. destruct (_ >? _); [|exact H].
  intros E. apply app_eq_nil in E. destruct E as [_ E]. discriminate.
Qed.

Lemma prepare_message_lines lim message :
  split_on LF (prepare_message lim message) =
  map (clip_line lim)
      (drop_lines lim (split_on LF (clip_message lim (normalize_newlines message)))).
Proof.
  unfold prepare_message. apply split_join_lines.
  - intros E. apply map_eq_nil in E.
    revert E. apply drop_lines_nonempty, split_on_nonempty.
  - apply Forall_map.
    eapply Forall_impl; [apply drop_lines_no_newline, split_on_pieces|].
    intros l Hl. now apply clip_line_no_newline.
Qed.

(** C4 (as stated) fails where the total-length cap cuts lines away: with
    [max_message_length = 2] the three-line message ["a\nb\nc"] is within a
    line cap of 5, yet only two lines are left. *)
Lemma prepare_message_line_count_counterexample :
  ~ line_count_as_specified
      {| max_message_length := 2; max_message_lines := 5; max_line_length := 100 |}
      (py "a" ++ [LF] ++ py "b" ++ [LF] ++ py "c").
Proof.
  unfold line_count_as_specified. intros (_ & H & _).
  vm_compute in H. specialize (H ltac:(discriminate)). discriminate H.
Qed.

(** C4 (amended): the prepared message has [n] lines when [n], the line
    count left after line-ending normalisation and total-length truncation,
    is within [max_message_lines], and [max_message_lines + 1] lines (the
    kept lines and the marker line) otherwise; it never has more than
    [max_message_lines + 1] lines; and [n] is the line count of the
    normalised input whenever that input is within the total-length cap. *)
Theorem prepare_message_line_count lim message :
  0 < max_message_lines lim ->
  let n := line_count (clip_message lim (normalize_newlines message)) in
  line_count (prepare_message lim message) =
    (if n <=? max_message_lines lim then n else max_message_lines lim + 1)
  /\ line_count (prepare_message lim message) <= max_message_lines lim + 1
  /\ (len (normalize_newlines message) <= max_message_length lim ->
      n = line_count (normalize_newlines message)).
Proof.
  intros Hcap n.
  assert (E : line_count (prepare_message lim message) =
              if n <=? max_message_lines lim then n else max_message_lines lim + 1).
  { unfold line_count at 1. rewrite prepare_message_lines.
    unfold len. rewrite length_map. apply drop_lines_len. lia. }
  split; [exact E|split].
  - rewrite E. destruct (Z.leb_spec n (max_message_lines lim)); lia.
  - intros Hlen. subst n. unfold clip_message.
    destruct (Z.gtb_spec (len (normalize_newlines message)) (max_message_length lim));
      [lia|reflexivity].
Qed.

Lemma prepare_message_line_count_witness :
  line_count (prepare_message
      {| max_message_length := 100; max_message_lines := 1; max_line_length := 100 |}
      (py "a" ++ [CR; LF] ++ py "b" ++ [CR] ++ py "c")) = 2.
Proof.
  pose proof (prepare_message_line_count
      {| max_message_length := 100; max_message_lines := 1; max_line_length := 100 |}
      (py "a" ++ [CR; LF] ++ py "b" ++ [CR] ++ py "c") ltac:(simpl; lia)) as H.
  destruct H as (H & _). rewrite H. reflexivity.
Defined.

(** ** Syntax colorizer *)

Section ColorizerProofs.
Variable perf_counter : nat -> Q.
Variable deadline : option Q.
Variable text : pystr.

(** The test of the inner loop of [quoted_content_spans]. *)
Let closes (quote : char) (start j : nat) : Prop :=
  char_at text j = quote
  /\ (j = start \/ char_at text (j - 1) <> BACKSLASH).

(** What a cut-short scan looks like. *)
Let timed_out (e : exception) : Prop := e = TimeoutError /\ deadline <> None.

Lemma check_deadline_cases k :
  (check_deadline perf_counter deadline k = (Raise TimeoutError, S k)
   /\ deadline <> None)
  \/ exists k', check_deadline perf_counter deadline k = (Ok tt, k').
Proof.
  unfold check_deadline. destruct deadline as [d|]; [|right; eauto].
  destruct (Qle_bool d (perf_counter k));
    [left; split; [reflexivity|discriminate]|right; eauto].
Qed.

Lemma content_close_spec fuel quote start cursor k :
  (length text <= fuel + cursor)%nat ->
  match content_close perf_counter deadline text fuel quote start cursor k with
  | (Raise e, _) => timed_out e
  | (Ok (Some c), _) =>
      (cursor <= c < length text)%nat /\ closes quote start c
      /\ forall j, (cursor <= j < c)%nat -> ~ closes quote start j
  | (Ok None, _) =>
      forall j, (cursor <= j < length text)%nat -> ~ closes quote start j
  end.
Proof.
  revert cursor k. induction fuel as [|fuel IH]; intros cursor k Hfuel;
    cbn [content_close].
  - cbn. intros j Hj. lia.
  - destruct (Nat.ltb_spec cursor (length text)) as [Hlt|Hge].
    2:{ cbn. intros j Hj. lia. }
    unfold mbind at 1, M_bind at 1.
    destruct (check_deadline_cases k) as [[-> Hd]|[k' ->]]; [now split|].
    assert (Hstep : ~ closes quote start cursor ->
      match content_close perf_counter deadline text fuel quote start (cursor + 1) k' with
      | (Raise e, _) => timed_out e
      | (Ok (Some c), _) =>
          (cursor <= c < length text)%nat /\ closes quote start c
          /\ forall j, (cursor <= j < c)%nat -> ~ closes quote start j
      | (Ok None, _) =>
          forall j, (cursor <= j < length text)%nat -> ~ closes quote start j
      end).
    { intros Hno. specialize (IH (cursor + 1)%nat k' ltac:(lia)).
      destruct (content_close _ _ _ fuel quote start (cursor + 1) k')
        as [[[c|]|e] k'']; [| |exact IH].
      - destruct IH as (Hc & Hcl & Hmin). split; [lia|]. split; [exact Hcl|].
        intros j Hj. destruct (Nat.eq_dec j cursor) as [->|Hne]; [exact Hno|].
        apply Hmin. lia.
      - intros j Hj. destruct (Nat.eq_dec j cursor) as [->|Hne]; [exact Hno|].
        apply IH. lia. }
    destruct (N.eqb_spec (char_at text cursor) quote) as [Hq|Hq]; cbn [andb].
    + destruct (Nat.eqb_spec cursor start) as [Hs|Hs]; cbn [orb].
      { cbn. split; [lia|]. split; [split; [exact Hq|now left]|].
        intros j Hj. lia. }
      destruct (N.eqb_spec (char_at text (cursor - 1)) BACKSLASH) as [Hb|Hb];
        cbn [negb].
      * apply Hstep. intros (_ & [E|E]); [lia|contradiction].
      * cbn. split; [lia|]. split; [split; [exact Hq|now right]|].
        intros j Hj. lia.
    + apply Hstep. intros (E & _). contradiction.
Qed.

Lemma quote_not_backslash q : is_quote q = true -> q <> BACKSLASH.
Proof.
  unfold is_quote. intros H ->. discriminate H.
Qed.

Lemma closes_closing_quote idx j :
  is_quote (char_at text idx) = true -> (idx + 1 <= j < length text)%nat ->
  closes (char_at text idx) (idx + 1) j <-> closing_quote text (char_at text idx) j.
Proof.
  intros Hq Hj. unfold closes, closing_quote. split.
  - intros (Hc & [->|Hb]).
    + split; [lia|]. split; [exact Hc|].
      replace (idx + 1 - 1)%nat with idx by lia. now apply quote_not_backslash.
    + split; [lia|]. split; assumption.
  - intros (_ & Hc & Hb). split; [exact Hc|now right].
Qed.

Lemma content_loop_spec fuel idx acc k :
  (length text < fuel + idx)%nat ->
  match content_loop perf_counter deadline text fuel idx acc k with
  | (Raise e, _) => timed_out e
  | (Ok found, _) =>
      exists spans, found = acc ++ spans /\ quoted_spans_from text idx spans
  end.
Proof.
  revert idx acc k. induction fuel as [|fuel IH]; intros idx acc k Hfuel;
    cbn [content_loop].
  - cbn. exists []. rewrite app_nil_r. split; [reflexivity|].
    apply qs_end. lia.
  - destruct (Nat.ltb_spec idx (length text)) as [Hlt|Hge].
    2:{ cbn. exists []. rewrite app_nil_r. split; [reflexivity|].
        now apply qs_end. }
    unfold mbind at 1, M_bind at 1.
    destruct (check_deadline_cases k) as [[-> Hd]|[k' ->]]; [now split|].
    destruct (is_quote (char_at text idx)) eqn:Hq; cbn [negb].
    + unfold mbind at 1, M_bind at 1.
      pose proof (content_close_spec (length text) (char_at text idx)
                    (idx + 1) (idx + 1) k' ltac:(lia)) as Hclose.
      destruct (content_close _ _ _ (length text) (char_at text idx)
                  (idx + 1) (idx + 1) k') as [[[c|]|e] k'']; [| |exact Hclose].
      * destruct Hclose as (Hc & Hcl & Hmin).
        specialize (IH (c + 1)%nat (acc ++ [((idx + 1)%nat, c)]) k'' ltac:(lia)).
        destruct (content_loop _ _ _ fuel (c + 1) _ k'') as [[found|e] k3];
          [|exact IH].
        destruct IH as (spans & -> & Hspans).
        exists (((idx + 1)%nat, c) :: spans). rewrite <- app_assoc.
        split; [reflexivity|].
        apply qs_closed; try assumption.
        split; [lia|]. split.
        -- apply closes_closing_quote; [assumption|lia|assumption].
        -- intros j Hj Hcq. apply (Hmin j); [lia|].
           apply closes_closing_quote; [assumption|lia|assumption].
      * specialize (IH (idx + 1)%nat acc k'' ltac:(lia)).
        destruct (content_loop _ _ _ fuel (idx + 1) acc k'') as [[found|e] k3];
          [|exact IH].
        destruct IH as (spans & -> & Hspans).
        exists spans. split; [reflexivity|].
        apply qs_unterminated; try assumption.
        intros j Hj Hcq. assert (Hjl : (j < length text)%nat) by apply Hcq.
        apply (Hclose j); [lia|].
        apply closes_closing_quote; [assumption|lia|assumption].
    + specialize (IH (idx + 1)%nat acc k' ltac:(lia)).
      destruct (content_loop _ _ _ fuel (idx + 1) acc k') as [[found|e] k3];
        [|exact IH].
      destruct IH as (spans & -> & Hspans).
      exists spans. split; [reflexivity|]. now apply qs_plain.
Qed.

Lemma quoted_content_spans_spec k :
  match quoted_content_spans perf_counter deadline text k with
  | (Raise e, _) => e = TimeoutError /\ deadline <> None
  | (Ok spans, _) => quoted_spans_from text 0 spans
  end.
Proof.
  unfold quoted_content_spans.
  pose proof (content_loop_spec (S (length text)) 0 [] k ltac:(lia)) as H.
  destruct (content_loop _ _ _ _ _ _ _) as [[found|e] k']; [|exact H].
  destruct H as (spans & -> & H). exact H.
Qed.
End ColorizerProofs.

(** Without a deadline the clock is never read. *)
Lemma content_close_no_deadline pc text fuel quote start cursor k r k' :
  content_close pc None text fuel quote start cursor k = (r, k') -> k' = k.
Proof.
  revert cursor k. induction fuel as [|fuel IH]; intros cursor k; cbn [content_close].
  - unfold mret, M_ret. congruence.
  - destruct (cursor <? length text)%nat; [|unfold mret, M_ret; congruence].
    unfold mbind at 1, M_bind at 1, check_deadline.
    destruct (_ && _); [unfold mret, M_ret; congruence|apply IH].
Qed.

Lemma content_loop_no_deadline pc text fuel idx acc k r k' :
  content_loop pc None text fuel idx acc k = (r, k') -> k' = k.
Proof.
  revert idx acc k. induction fuel as [|fuel IH]; intros idx acc k; cbn [content_loop].
  - unfold mret, M_ret. congruence.
  - destruct (idx <? length text)%nat; [|unfold mret, M_ret; congruence].
    unfold mbind at 1, M_bind at 1, check_deadline.
    destruct (negb _); [apply IH|].
    unfold mbind at 1, M_bind at 1.
    destruct (content_close pc None text (length text) _ _ _ k)
      as [[closed|e] k1] eqn:E.
    + apply content_close_no_deadline in E. subst k1.
      destruct closed; apply IH.
    + apply content_close_no_deadline in E. congruence.
Qed.

(** The specification of the spans determines them. *)
Lemma quoted_spans_from_functional text idx s1 s2 :
  quoted_spans_from text idx s1 -> quoted_spans_from text idx s2 -> s1 = s2.
Proof.
  intros H1. revert s2.
  induction H1 as [idx Hge|idx spans Hlt Hq _ IH|idx e spans Hlt Hq Hnext _ IH
                  |idx spans Hlt Hq Hnone _ IH]; intros s2 H2.
  - inversion H2; subst; try lia. reflexivity.
  - inversion H2; subst; try lia; try congruence. now apply IH.
  - inversion H2 as [| |idx' e' spans' Hlt' Hq' Hnext' Hrest'
                    |idx' spans' Hlt' Hq' Hnone' Hrest']; subst; try lia; try congruence.
    + destruct Hnext as (Hle & Hc & Hmin), Hnext' as (Hle' & Hc' & Hmin').
      assert (e = e').
      { destruct (Nat.lt_trichotomy e e') as [Hlt1|[->|Hgt1]]; [|reflexivity|].
        - exfalso. apply (Hmin' e); [lia|exact Hc].
        - exfalso. apply (Hmin e'); [lia|exact Hc']. }
      subst e'. f_equal. now apply IH.
    + exfalso. destruct Hnext as (Hle & Hc & _). now apply (Hnone' e).
  - inversion H2 as [| |idx' e' spans' Hlt' Hq' Hnext' Hrest'|]; subst;
      try lia; try congruence.
    + exfalso. destruct Hnext' as (Hle & Hc & _). now apply (Hnone e').
    + now apply IH.
Qed.

Lemma index_in_spans_spec index spans :
  index_in_spans index spans = true <-> in_some_span index spans.
Proof.
  unfold in_some_span. induction spans as [|[s e] rest IH]; simpl.
  - split; [discriminate|]. intros (? & ? & [] & _).
  - destruct (Nat.leb_spec s index) as [Hs|Hs]; simpl.
    + destruct (Nat.ltb_spec index e) as [He|He].
      * split; [|reflexivity]. intros _. exists s, e. split; [now left|lia].
      * rewrite IH. split.
        -- intros (a & b & Hin & Hr). exists a, b. split; [now right|exact Hr].
        -- intros (a & b & [Heq|Hin] & Hr); [inversion Heq; subst; lia|].
           exists a, b. now split.
    + rewrite IH. split.
      * intros (a & b & Hin & Hr). exists a, b. split; [now right|exact Hr].
      * intros (a & b & [Heq|Hin] & Hr); [inversion Heq; subst; lia|].
        exists a, b. now split.
Qed.

Lemma punctuation_chars_spec ch :
  ch ∈ PUNCTUATION_CHARS <-> is_punctuation ch.
Proof.
  unfold PUNCTUATION_CHARS, is_punctuation.
  rewrite elem_of_list_to_set. apply list_elem_of_In.
Qed.

(** C9: without a deadline the quoted-content scan returns the spans the
    specification describes (a quote closes at the next matching, non-escaped
    quote; an unterminated quote gives no span), and the description
    determines the spans; under a deadline it returns these spans or is cut
    short by [TimeoutError]; the token class of a character follows the
    priority quote-mark, quote-content, lhs, number, punct, base. *)
Theorem colorizer_spans_and_token_priority :
  (forall perf_counter text k,
      exists spans,
        quoted_content_spans perf_counter None text k = (Ok spans, k)
        /\ quoted_spans_from text 0 spans
        /\ forall spans', quoted_spans_from text 0 spans' -> spans' = spans)
  /\ (forall perf_counter deadline text k spans k',
      quoted_content_spans perf_counter deadline text k = (Ok spans, k') ->
      quoted_spans_from text 0 spans)
  /\ (forall perf_counter deadline text k e k',
      quoted_content_spans perf_counter deadline text k = (Raise e, k') ->
      e = TimeoutError)
  /\ (forall U index ch quote_spans quote_marks lhs_spans,
      token_by_priority U index ch quote_spans quote_marks lhs_spans
        (token_class U index ch quote_spans quote_marks lhs_spans)).
Proof.
  split; [|split; [|split]].
  - intros perf_counter text k.
    pose proof (quoted_content_spans_spec perf_counter None text k) as H.
    destruct (quoted_content_spans perf_counter None text k) as [[spans|e] k'] eqn:E.
    + exists spans. split; [|split; [exact H|]].
      * apply content_loop_no_deadline in E. now subst k'.
      * intros spans' H'. eapply quoted_spans_from_functional; eassumption.
    + destruct H as (_ & H). congruence.
  - intros perf_counter deadline text k spans k' E.
    pose proof (quoted_content_spans_spec perf_counter deadline text k) as H.
    rewrite E in H. exact H.
  - intros perf_counter deadline text k e k' E.
    pose proof (quoted_content_spans_spec perf_counter deadline text k) as H.
    rewrite E in H. apply H.
  - intros U index ch qs qm ls. unfold token_class.
    destruct (bool_decide_reflect (index ∈ qm)) as [Hm|Hm]; [now constructor|].
    destruct (index_in_spans index qs) eqn:Hqs.
    { apply tp_quote_content; [assumption|now apply index_in_spans_spec]. }
    assert (~ in_some_span index qs) by (rewrite <- index_in_spans_spec; congruence).
    destruct (index_in_spans index ls) eqn:Hls.
    { apply tp_lhs; try assumption. now apply index_in_spans_spec. }
    assert (~ in_some_span index ls) by (rewrite <- index_in_spans_spec; congruence).
    destruct (isdigit U ch) eqn:Hd; [now apply tp_number|].
    destruct (bool_decide_reflect (ch ∈ PUNCTUATION_CHARS)) as [Hp|Hp].
    + apply tp_punct; try assumption. now apply punctuation_chars_spec.
    + apply tp_base; try assumption. now rewrite <- punctuation_chars_spec.
Qed.

(** ** HTML row validator *)

Lemma balanced_app a b : balanced a -> balanced b -> balanced (a ++ b).
Proof.
  induction 1 as [|tag inner rest Hi _ Hr IH]; intros Hb; [exact Hb|].
  change ((Open tag :: inner ++ Close tag :: rest) ++ b)
    with (Open tag :: (inner ++ Close tag :: rest) ++ b).
  rewrite <- app_assoc. simpl. apply balanced_nest; [exact Hi|now apply IH].
Qed.

Lemma run_stack_app st a b :
  run_stack st (a ++ b) =
  match run_stack st a with Some st' => run_stack st' b | None => None end.
Proof.
  revert st. induction a as [|[tag|tag] a IH]; intros st; simpl; [reflexivity| |].
  - apply IH.
  - destruct st as [|top st']; [reflexivity|].
    destruct (bool_decide (top = tag)); [apply IH|reflexivity].
Qed.

Lemma balanced_run_stack toks :
  balanced toks -> forall st, run_stack st toks = Some st.
Proof.
  induction 1 as [|tag inner rest _ IHi _ IHr]; intros st; [reflexivity|].
  simpl. rewrite run_stack_app, IHi. simpl.
  rewrite bool_decide_eq_true_2 by reflexivity. apply IHr.
Qed.

Lemma closes_open_prepend st b toks :
  balanced b -> closes_open st toks -> closes_open st (b ++ toks).
Proof.
  intros Hb. destruct st as [|tag st']; simpl.
  - now apply balanced_app.
  - intros (inner & rest & -> & Hi & Hrest).
    exists (b ++ inner), rest. rewrite <- app_assoc.
    split; [reflexivity|]. split; [now apply balanced_app|exact Hrest].
Qed.

Lemma run_stack_closes_open toks :
  forall st, run_stack st toks = Some [] -> closes_open st toks.
Proof.
  induction toks as [|[tag|tag] toks IH]; intros st; simpl.
  - intros E. inversion E; subst. simpl. constructor.
  - intros E. apply IH in E. simpl in E.
    destruct E as (inner & rest & -> & Hi & Hrest).
    replace (Open tag :: inner ++ Close tag :: rest)
      with ((Open tag :: inner ++ Close tag :: []) ++ rest)
      by (simpl; rewrite <- app_assoc; reflexivity).
    apply closes_open_prepend; [|exact Hrest].
    apply balanced_nest; [exact Hi|constructor].
  - destruct st as [|top st']; [discriminate|].
    destruct (bool_decide_reflect (top = tag)) as [->|Hne]; [|discriminate].
    intros E. apply IH in E. simpl.
    exists [], toks. split; [reflexivity|]. split; [constructor|exact E].
Qed.

Lemma run_stack_balanced toks :
  run_stack [] toks = Some [] <-> balanced toks.
Proof.
  split.
  - intros E. now apply run_stack_closes_open in E.
  - intros H. now apply balanced_run_stack.
Qed.

Lemma split_ws_from_items cur s :
  Forall (fun item => nonempty_str item = true) (split_ws_from cur s).
Proof.
  revert cur. induction s as [|c r IH]; intros cur; simpl.
  - destruct cur; repeat constructor.
  - destruct (isspace c).
    + destruct cur; [apply IH|]. constructor; [reflexivity|apply IH].
    + apply IH.
Qed.

Lemma split_ws_filter value :
  List.filter nonempty_str (split_ws value) = split_ws value.
Proof.
  apply forallb_filter_id. apply forallb_forall.
  apply List.Forall_forall. apply split_ws_from_items.
Qed.

Lemma allowed_tag_spec tag :
  tag ∈ ALLOWED_HTML_ROW_TAGS <-> In tag allowed_tag_names.
Proof.
  unfold ALLOWED_HTML_ROW_TAGS. rewrite elem_of_list_to_set. apply list_elem_of_In.
Qed.

Lemma allowed_class_spec c :
  c ∈ ALLOWED_HTML_ROW_CLASSES <-> In c allowed_class_names.
Proof.
  unfold ALLOWED_HTML_ROW_CLASSES. rewrite elem_of_list_to_set. apply list_elem_of_In.
Qed.

Lemma allowed_classes_forallb classes :
  forallb (fun c => bool_decide (c ∈ ALLOWED_HTML_ROW_CLASSES)) classes = true
  <-> Forall (fun c => In c allowed_class_names) classes.
Proof.
  rewrite forallb_forall, List.Forall_forall. split; intros H c Hc.
  - apply allowed_class_spec. specialize (H c Hc). now apply bool_decide_eq_true in H.
  - apply bool_decide_eq_true. apply allowed_class_spec. now apply H.
Qed.

Lemma validate_attributes_raises U tag attrs :
  validate_attributes U tag attrs = Ok tt
  \/ validate_attributes U tag attrs = Raise HtmlSanitizationError.
Proof.
  induction attrs as [|[name value] rest IH]; cbn [validate_attributes]; [now left|].
  destruct (starts_with (py "on") (lower U name)); [now right|].
  destruct (negb (bool_decide (lower U name = py "class"))); [now right|].
  destruct value as [value|]; [|now right].
  destruct (List.filter nonempty_str (split_ws value)) eqn:E; [now right|].
  destruct (forallb _ _); [exact IH|now right].
Qed.

Lemma validate_attributes_spec U tag attrs :
  validate_attributes U tag attrs = Ok tt
  <-> Forall (fun a => attribute_allowed U a /\ not_event_handler U a) attrs.
Proof.
  induction attrs as [|[name value] rest IH]; cbn [validate_attributes].
  - split; [constructor|reflexivity].
  - rewrite List.Forall_cons_iff. unfold attribute_allowed at 1, not_event_handler at 1.
    cbn [fst snd]. destruct (starts_with (py "on") (lower U name)) eqn:Hon.
    { split; [discriminate|]. intros ((_ & Hno) & _). discriminate. }
    destruct (bool_decide_reflect (lower U name = py "class")) as [Hc|Hc]; cbn [negb].
    2:{ split; [discriminate|]. intros (((Hc' & _) & _) & _). contradiction. }
    destruct value as [value|].
    2:{ split; [discriminate|]. intros (((_ & v & Hv & _) & _) & _). discriminate. }
    rewrite split_ws_filter.
    destruct (split_ws value) as [|c classes] eqn:Hs.
    { split; [discriminate|].
      intros (((_ & v & Hv & Hne & _) & _) & _). inversion Hv; subst.
      congruence. }
    destruct (forallb _ (c :: classes)) eqn:Hall.
    + apply allowed_classes_forallb in Hall. rewrite IH. split.
      * intros Hrest. split; [|exact Hrest]. split; [|reflexivity].
        split; [exact Hc|]. exists value. rewrite Hs.
        split; [reflexivity|]. split; [discriminate|exact Hall].
      * intros (_ & Hrest). exact Hrest.
    + split; [discriminate|].
      intros (((_ & v & Hv & _ & Hf) & _) & _). inversion Hv; subst.
      rewrite Hs in Hf. apply allowed_classes_forallb in Hf. congruence.
Qed.

Lemma handle_event_raises U st ev :
  (exists st', handle_event U st ev = Ok st')
  \/ handle_event U st ev = Raise HtmlSanitizationError.
Proof.
  destruct ev; simpl; eauto.
  - unfold handle_starttag. destruct (negb _); [now right|].
    destruct (negb (saw_root st)); simpl.
    + destruct (negb _); simpl; [now right|].
      destruct (validate_attributes_raises U tag attrs) as [-> | ->]; simpl; eauto.
    + destruct (validate_attributes_raises U tag attrs) as [-> | ->]; simpl; eauto.
  - unfold handle_endtag. destruct (negb _); [now right|].
    destruct (stack st); [now right|]. destruct (negb _); eauto.
Qed.

Lemma feed_events_raises U st events :
  (exists st', feed_events U st events = Ok st')
  \/ feed_events U st events = Raise HtmlSanitizationError.
Proof.
  revert st. induction events as [|ev rest IH]; intros st; simpl; [eauto|].
  destruct (handle_event_raises U st ev) as [[st' ->] | ->]; simpl; [apply IH|now right].
Qed.

Lemma handle_starttag_spec U st tag attrs st1 :
  handle_starttag U st tag attrs = Ok st1 <->
  In tag allowed_tag_names
  /\ Forall (fun a => attribute_allowed U a /\ not_event_handler U a) attrs
  /\ (saw_root st = false -> tag = py "div")
  /\ st1 = {| stack := tag :: stack st; saw_root := true |}.
Proof.
  unfold handle_starttag. rewrite <- allowed_tag_spec, <- (validate_attributes_spec U tag).
  destruct (bool_decide_reflect (tag ∈ ALLOWED_HTML_ROW_TAGS)) as [Ht|Ht]; cbn [negb].
  2:{ split; [discriminate|]. intros (Ht' & _). contradiction. }
  destruct (saw_root st) eqn:Hsaw; cbn [negb].
  - cbn. destruct (validate_attributes_raises U tag attrs) as [-> | ->]; cbn.
    + rewrite Hsaw. split.
      * intros E. inversion E; subst. repeat split; [exact Ht|discriminate].
      * intros (_ & _ & _ & ->). reflexivity.
    + split; [discriminate|]. intros (_ & E & _). discriminate.
  - destruct (bool_decide_reflect (tag = py "div")) as [Hd|Hd]; cbn.
    + destruct (validate_attributes_raises U tag attrs) as [-> | ->]; cbn.
      * split.
        -- intros E. inversion E; subst. repeat split; exact Ht.
        -- intros (_ & _ & _ & ->). reflexivity.
      * split; [discriminate|]. intros (_ & E & _). discriminate.
    + split; [discriminate|]. intros (_ & _ & E & _). now specialize (E eq_refl).
Qed.

Lemma handle_endtag_spec st tag st1 :
  handle_endtag st tag = Ok st1 <->
  In tag allowed_tag_names
  /\ exists popped, stack st = tag :: popped
       /\ st1 = {| stack := popped; saw_root := saw_root st |}.
Proof.
  unfold handle_endtag. rewrite <- allowed_tag_spec.
  destruct (bool_decide_reflect (tag ∈ ALLOWED_HTML_ROW_TAGS)) as [Ht|Ht]; cbn [negb].
  2:{ split; [discriminate|]. intros (Ht' & _). contradiction. }
  destruct (stack st) as [|top popped].
  { split; [discriminate|]. intros (_ & ? & E & _). discriminate. }
  destruct (bool_decide_reflect (top = tag)) as [->|Hne]; cbn [negb].
  - split.
    + intros E. inversion E; subst. split; [exact Ht|]. now exists popped.
    + intros (_ & popped' & E & ->). inversion E; subst. reflexivity.
  - split; [discriminate|]. intros (_ & popped' & E & _). inversion E; subst.
    contradiction.
Qed.

Lemma feed_events_spec U events :
  forall st st',
  feed_events U st events = Ok st' <->
  Forall (event_passes U) events
  /\ run_stack (stack st) (tag_tokens events) = Some (stack st')
  /\ (saw_root st = false ->
      forall tag, first_start events = Some tag -> tag = py "div")
  /\ saw_root st' = saw_root st || bool_decide (is_Some (first_start events)).
Proof.
  induction events as [|ev rest IH]; intros st st'.
  - cbn. split.
    + intros E. inversion E; subst. rewrite orb_false_r.
      repeat split; try constructor. discriminate.
    + intros (_ & Hst & _ & Hsaw).
      rewrite orb_false_r in Hsaw. destruct st, st'; cbn in *. congruence.
  - cbn [feed_events]. rewrite List.Forall_cons_iff.
    assert (Hskip : event_passes U ev -> tag_tokens (ev :: rest) = tag_tokens rest ->
                    first_start (ev :: rest) = first_start rest ->
                    handle_event U st ev = Ok st ->
                    (handle_event U st ev ≫= (fun self => feed_events U self rest)) = Ok st' <->
                    (event_passes U ev /\ Forall (event_passes U) rest)
                    /\ run_stack (stack st) (tag_tokens (ev :: rest)) = Some (stack st')
                    /\ (saw_root st = false ->
                        forall tag, first_start (ev :: rest) = Some tag -> tag = py "div")
                    /\ saw_root st' =
                       saw_root st || bool_decide (is_Some (first_start (ev :: rest)))).
    { intros Hp -> -> ->. cbn. rewrite IH. tauto. }
    destruct ev as [tag attrs|tag|tag attrs|d|d|d|d|d|d|d];
      try (apply Hskip; [exact I|reflexivity|reflexivity|reflexivity]).
    + clear Hskip. cbn [handle_event tag_tokens first_start event_passes run_stack].
      rewrite bool_decide_eq_true_2 by eauto. rewrite orb_true_r.
      split.
      * intros E. destruct (handle_starttag U st tag attrs) as [st1|] eqn:E1;
          [|discriminate]. cbn in E. apply handle_starttag_spec in E1.
        destruct E1 as (Ht & Ha & Hroot & ->). apply IH in E. cbn in E.
        destruct E as (Hrest & Hrun & _ & Hsaw).
        repeat split; try assumption.
        intros Hs tag' E'. inversion E'; subst. now apply Hroot.
      * intros (((Ht & Ha) & Hrest) & Hrun & Hroot & Hsaw).
        assert (E1 : handle_starttag U st tag attrs
                     = Ok {| stack := tag :: stack st; saw_root := true |}).
        { apply handle_starttag_spec. repeat split; try assumption.
          intros Hs. now apply Hroot. }
        rewrite E1. cbn. apply IH. cbn. repeat split; try assumption.
        discriminate.
    + clear Hskip. cbn [handle_event tag_tokens first_start event_passes run_stack].
      split.
      * intros E. destruct (handle_endtag st tag) as [st1|] eqn:E1; [|discriminate].
        cbn in E. apply handle_endtag_spec in E1.
        destruct E1 as (Ht & popped & Hst & ->). apply IH in E. cbn in E.
        destruct E as (Hrest & Hrun & Hroot & Hsaw). rewrite Hst.
        rewrite bool_decide_eq_true_2 by reflexivity.
        repeat split; assumption.
      * intros ((Ht & Hrest) & Hrun & Hroot & Hsaw).
        destruct (stack st) as [|top popped] eqn:Hst; [discriminate|].
        destruct (bool_decide_reflect (top = tag)) as [->|Hne]; [|discriminate].
        assert (E1 : handle_endtag st tag
                     = Ok {| stack := popped; saw_root := saw_root st |}).
        { apply handle_endtag_spec. split; [exact Ht|]. now exists popped. }
        rewrite E1. cbn. apply IH. cbn. repeat split; assumption.
    + cbn. split; [discriminate|]. intros ((F & _) & _). contradiction.
    + cbn. split; [discriminate|]. intros ((F & _) & _). contradiction.
Qed.

Lemma first_tag_of_first_start U events st :
  Forall (event_passes U) events ->
  run_stack [] (tag_tokens events) = Some st ->
  first_start events = Some (py "div") ->
  exists attrs, first_tag events = Some (StartTag (py "div") attrs).
Proof.
  induction events as [|ev rest IH]; intros Hall Hrun Hfirst; [discriminate|].
  inversion Hall as [|? ? Hev Hrest]; subst.
  destruct ev; cbn in *; try contradiction; try (now apply IH).
  - inversion Hfirst; subst. eauto.
  - discriminate.
Qed.

Lemma first_start_of_first_tag events tag attrs :
  first_tag events = Some (StartTag tag attrs) -> first_start events = Some tag.
Proof.
  induction events as [|ev rest IH]; [discriminate|].
  destruct ev; cbn; intros E; try (now apply IH); inversion E; subst; reflexivity.
Qed.

Lemma feed_then_complete U events :
  (st ← feed_events U validator_init events; validate_complete st) = Ok tt
  <-> exists st, feed_events U validator_init events = Ok st
                 /\ saw_root st = true /\ stack st = [].
Proof.
  destruct (feed_events U validator_init events) as [st|e]; cbn.
  - unfold validate_complete. split.
    + destruct (saw_root st) eqn:Hs; cbn; [|discriminate].
      destruct (stack st) eqn:Hk; [|discriminate]. intros _. now exists st.
    + intros (st0 & E & Hs & Hk). inversion E; subst. now rewrite Hs, Hk.
  - split; [discriminate|]. intros (st0 & E & _). discriminate.
Qed.

Lemma validate_rendered_row_raises html_parser U row_html :
  validate_rendered_row_or_raise html_parser U row_html = Ok tt
  \/ validate_rendered_row_or_raise html_parser U row_html
     = Raise HtmlSanitizationError.
Proof.
  unfold validate_rendered_row_or_raise.
  destruct (feed_events_raises U validator_init (html_parser row_html))
    as [[st ->] | ->]; cbn.
  - unfold validate_complete. destruct (negb (saw_root st)); [now right|].
    destruct (stack st); [now left|now right].
  - now right.
Qed.


(** ** Path safety guard *)

Lemma path_parent_firstn p :
  path_parent p =
  {| is_absolute := is_absolute p;
     parts := firstn (Nat.pred (length (parts p))) (parts p) |}.
Proof. unfold path_parent. now rewrite removelast_firstn_len. Qed.

Lemma ancestor_of_prefix a p :
  ancestor_of a p ->
  exists j, (j <= Nat.pred (length (parts p)))%nat
            /\ a = {| is_absolute := is_absolute p; parts := firstn j (parts p) |}.
Proof.
  induction 1 as [p|a p _ IH].
  - exists (Nat.pred (length (parts p))). split; [lia|apply path_parent_firstn].
  - destruct IH as (j & Hj & ->). rewrite path_parent_firstn in *. cbn in *.
    rewrite length_take in Hj. exists j. split; [lia|].
    f_equal. rewrite take_take. f_equal. lia.
Qed.

Lemma prefix_ancestor_of n :
  forall p j, length (parts p) = n -> (j <= Nat.pred n)%nat ->
  ancestor_of {| is_absolute := is_absolute p; parts := firstn j (parts p) |} p.
Proof.
  induction n as [|n IH]; intros p j Hlen Hj.
  - replace {| is_absolute := is_absolute p; parts := firstn j (parts p) |}
      with (path_parent p); [constructor|].
    rewrite path_parent_firstn, Hlen. cbn. f_equal.
    destruct (parts p); [now rewrite !take_nil|discriminate].
  - cbn in Hj. destruct (Nat.eq_dec j n) as [->|Hne].
    + replace {| is_absolute := is_absolute p; parts := firstn n (parts p) |}
        with (path_parent p); [constructor|].
      rewrite path_parent_firstn, Hlen. reflexivity.
    + apply ancestor_further.
      assert (Hp : length (parts (path_parent p)) = n).
      { rewrite path_parent_firstn. cbn. rewrite length_take. lia. }
      pose proof (IH (path_parent p) j Hp) as H.
      destruct n as [|n']; [lia|]. cbn in H. specialize (H ltac:(lia)).
      rewrite removelast_firstn_len, take_take in H.
      replace (j `min` Nat.pred (length (parts p)))%nat with j in H by lia.
      exact H.
Qed.

Lemma guard_ancestors_spec a p :
  In a (path_parent p :: path_parents (path_parent p)) <-> ancestor_of a p.
Proof.
  split.
  - intros [<-|Hin]; [constructor|].
    unfold path_parents in Hin. apply in_map_iff in Hin.
    destruct Hin as (k & <- & Hk). apply in_rev, in_seq in Hk.
    rewrite path_parent_firstn in *. cbn in *. rewrite length_take in Hk.
    rewrite take_take.
    replace (k `min` Nat.pred (length (parts p)))%nat with k by lia.
    apply (prefix_ancestor_of (length (parts p))); [reflexivity|lia].
  - intros H. apply ancestor_of_prefix in H. destruct H as (j & Hj & ->).
    destruct (Nat.eq_dec j (Nat.pred (length (parts p)))) as [->|Hne].
    + left. apply path_parent_firstn.
    + right. unfold path_parents. apply in_map_iff. exists j.
      rewrite path_parent_firstn. cbn. rewrite take_take, length_take. split.
      * f_equal. f_equal. lia.
      * apply in_rev. rewrite rev_involutive. apply in_seq. lia.
Qed.


Lemma colorizer_spans_and_token_priority_witness :
  quoted_spans_from (py "k='v' 'x") 0 [(3, 4)%nat].
Proof.
  destruct colorizer_spans_and_token_priority as (_ & H & _).
  apply (H (fun _ => 0%Q) (Some 1%Q) (py "k='v' 'x") 0%nat [(3, 4)%nat] 9%nat).
  vm_compute. reflexivity.
Defined.



(** ** File system: plain files below ready directories *)

Lemma absolute_parts fs p :
  absolute fs p = (if is_absolute p then [] else cwd fs) ++ parts p.
Proof.
  unfold absolute, joinpath. destruct (is_absolute p); reflexivity.
Qed.

Lemma absolute_with_tree fs t p : absolute (with_tree fs t) p = absolute fs p.
Proof. reflexivity. Qed.

Lemma path_name_parts p :
  path_name p <> [] -> parts p = removelast (parts p) ++ [path_name p].
Proof.
  unfold path_name. intros H. apply app_removelast_last.
  intros E. rewrite E in H. now apply H.
Qed.

Lemma absolute_split fs p :
  path_name p <> [] ->
  absolute fs p = removelast (absolute fs p) ++ [path_name p].
Proof.
  intros H. rewrite !absolute_parts.
  assert (Hp : parts p <> []) by (intros E; unfold path_name in H; rewrite E in H; now apply H).
  rewrite removelast_app by exact Hp. rewrite <- app_assoc. f_equal.
  now apply path_name_parts.
Qed.

Lemma absolute_chain_member fs p i :
  path_name p <> [] ->
  absolute fs (chain_member p i)
  = removelast (absolute fs p) ++ [path_name p ++ py "." ++ str_of_int i].
Proof.
  intros H. rewrite !absolute_parts. cbn [chain_member is_absolute parts].
  assert (Hp : parts p <> []) by (intros E; unfold path_name in H; rewrite E in H; now apply H).
  rewrite removelast_app by exact Hp. now rewrite <- app_assoc.
Qed.

Lemma numbered_chain_member p i :
  path_name p <> [] -> numbered p i = Ok (chain_member p i).
Proof.
  intros H. unfold numbered, with_name, chain_member.
  destruct (path_name p); [congruence|reflexivity].
Qed.

Lemma chain_member_name p i : path_name (chain_member p i) <> [].
Proof.
  unfold path_name at 1. unfold chain_member. cbn [parts]. rewrite last_last.
  intros E. apply app_eq_nil in E. destruct E as [_ E]. discriminate E.
Qed.

Lemma node_at_nonempty t q : q <> [] -> node_at t q = t !! q.
Proof. destruct q; [congruence|reflexivity]. Qed.

Lemma resolved_absolute fs p :
  is_absolute (resolved fs p) = true
  /\ parts (resolved fs p) = absolute fs p
  /\ absolute fs (resolved fs p) = absolute fs p.
Proof.
  unfold resolved, absolute, joinpath.
  destruct (is_absolute p) eqn:E; cbn; rewrite ?E; auto.
Qed.

Lemma take_nonempty {A} k (l : list A) :
  (1 <= k)%nat -> l <> [] -> take k l <> [].
Proof. destruct k; [lia|]. destruct l; [congruence|discriminate]. Qed.

Lemma absolute_nonempty fs p : path_name p <> [] -> absolute fs p <> [].
Proof.
  intros H E. rewrite (absolute_split fs p H) in E.
  apply app_eq_nil in E. destruct E as [_ E]. discriminate.
Qed.

Lemma ready_not_blocked fs p :
  directories_ready fs p -> blocked (tree fs) (absolute fs p) = false.
Proof.
  intros Hd. unfold blocked. apply not_true_is_false. intros H.
  apply existsb_exists in H. destruct H as (a & Hin & Ha).
  unfold inner_prefixes in Hin. apply in_map_iff in Hin.
  destruct Hin as (k & <- & Hk). apply in_seq in Hk.
  rewrite (Hd k) in Ha by lia. discriminate.
Qed.

Lemma ready_parent fs p :
  path_name p <> [] -> directories_ready fs p ->
  node_at (tree fs) (removelast (absolute fs p)) = Some Directory.
Proof.
  intros Hn Hd. rewrite removelast_firstn_len.
  pose proof (absolute_split fs p Hn) as Hs.
  assert (Hlen : (1 <= length (absolute fs p))%nat).
  { rewrite Hs, length_app. cbn. lia. }
  destruct (Nat.eq_dec (length (absolute fs p)) 1%nat) as [E|E].
  - rewrite E. reflexivity.
  - rewrite node_at_nonempty.
    + apply Hd. lia.
    + apply take_nonempty; [lia|]. now apply absolute_nonempty.
Qed.

Lemma ready_parent_ready fs p :
  path_name p <> [] -> directories_ready fs p ->
  parent_ready (tree fs) (absolute fs p) = Ok tt.
Proof.
  intros Hn Hd. unfold parent_ready.
  rewrite ready_not_blocked by assumption. now rewrite ready_parent.
Qed.

Lemma guard_safe fs p :
  safe_target fs p -> assert_safe_log_target fs p = Ok tt.
Proof.
  intros (Hn & Hd & Hp). unfold assert_safe_log_target. fold (resolved fs p).
  destruct (resolved_absolute fs p) as (Habs & Hparts & Hsame).
  assert (Hanc : existsb (path_is_symlink fs)
                   (path_parent (resolved fs p)
                    :: path_parents (path_parent (resolved fs p))) = false).
  { apply not_true_is_false. intros H. apply existsb_exists in H.
    destruct H as (a & Hin & Ha). apply guard_ancestors_spec in Hin.
    apply ancestor_of_prefix in Hin. destruct Hin as (j & Hj & ->).
    unfold path_is_symlink, absolute in Ha. cbn [is_absolute parts] in Ha.
    rewrite Habs, Hparts in Ha. rewrite Hparts in Hj.
    destruct j as [|j]; [discriminate Ha|].
    rewrite node_at_nonempty in Ha
      by (apply take_nonempty; [lia|now apply absolute_nonempty]).
    cbn [parts] in Ha. rewrite (Hd (S j)) in Ha by lia. discriminate. }
  rewrite Hanc. unfold os_lstat. rewrite Hsame.
  rewrite ready_not_blocked by assumption.
  unfold plain_or_missing, node_of in Hp.
  destruct Hp as [-> | [data ->]]; reflexivity.
Qed.

Lemma plain_or_missing_follow fs p :
  plain_or_missing fs p ->
  follow MAXSYMLINKS (tree fs) (absolute fs p)
  = match node_of fs p with
    | Some n => Some (absolute fs p, n)
    | None => None
    end.
Proof.
  unfold plain_or_missing, node_of. intros [H|[data H]]; cbn; now rewrite H.
Qed.

Lemma exists_safe fs p :
  plain_or_missing fs p ->
  path_exists fs p = bool_decide (is_Some (node_of fs p)).
Proof.
  intros H. unfold path_exists. rewrite plain_or_missing_follow by assumption.
  destruct (node_of fs p).
  - rewrite !bool_decide_eq_true_2 by eauto. reflexivity.
  - rewrite !bool_decide_eq_false_2 by (intros [? ?]; discriminate). reflexivity.
Qed.

Lemma stat_safe fs p data :
  node_of fs p = Some (Regular data) ->
  path_stat fs p = Ok (stat_of (Regular data)).
Proof.
  intros H. unfold path_stat.
  rewrite plain_or_missing_follow by (right; eauto). now rewrite H.
Qed.

Lemma unlink_safe fs p data :
  node_of fs p = Some (Regular data) ->
  path_unlink fs p = Ok (with_tree fs (delete (absolute fs p) (tree fs))).
Proof. unfold node_of, path_unlink. now intros ->. Qed.

Lemma replace_safe fs src dst n :
  safe_target fs src -> safe_target fs dst ->
  node_of fs src = Some n ->
  path_replace fs src dst
  = Ok (with_tree fs
          (<[absolute fs dst := n]> (delete (absolute fs src) (tree fs)))).
Proof.
  intros (_ & _ & Hs) (Hn & Hd & Hp) Hsrc. unfold path_replace.
  unfold plain_or_missing in Hs, Hp. unfold node_of in *.
  rewrite Hsrc in *. destruct Hs as [Hs|[data Hs]]; [discriminate|].
  inversion Hs; subst n.
  destruct Hp as [-> | [data' ->]]; [|reflexivity].
  now rewrite ready_parent_ready.
Qed.

Lemma write_safe truncate fs p data :
  safe_target fs p ->
  open_and_write truncate fs p data
  = Ok (with_tree fs
          (<[absolute fs p :=
               Regular (if truncate then data else data_of (node_of fs p) ++ data)]>
             (tree fs))).
Proof.
  intros (Hn & Hd & Hp). unfold open_and_write.
  assert (Hw : write_target MAXSYMLINKS (tree fs) (absolute fs p)
               = Some (absolute fs p)).
  { unfold plain_or_missing, node_of in Hp. cbn.
    destruct Hp as [-> | [d ->]]; reflexivity. }
  rewrite Hw. unfold plain_or_missing, node_of in *.
  destruct Hp as [Hp | [d Hp]]; rewrite Hp.
  - rewrite ready_parent_ready by assumption. cbn. now destruct truncate.
  - reflexivity.
Qed.

(** Changes at paths as long as the target leave its directories alone. *)
Lemma directories_ready_frame fs t p :
  (forall q, (length q < length (absolute fs p))%nat -> t !! q = tree fs !! q) ->
  directories_ready fs p -> directories_ready (with_tree fs t) p.
Proof.
  intros Hframe Hd k Hk. rewrite absolute_with_tree in *. cbn [tree with_tree].
  rewrite Hframe; [now apply Hd|]. rewrite length_take. lia.
Qed.

Lemma directories_ready_sibling fs p p' :
  path_name p <> [] -> path_name p' <> [] ->
  removelast (absolute fs p') = removelast (absolute fs p) ->
  directories_ready fs p -> directories_ready fs p'.
Proof.
  intros Hn Hn' Hsame Hd k Hk.
  pose proof (absolute_split fs p Hn) as Hs.
  pose proof (absolute_split fs p' Hn') as Hs'.
  rewrite Hsame in Hs'.
  assert (Hlen : length (absolute fs p) = S (length (removelast (absolute fs p)))).
  { rewrite Hs at 1. rewrite length_app. cbn. lia. }
  assert (Hlen' : length (absolute fs p') = S (length (removelast (absolute fs p)))).
  { rewrite Hs' at 1. rewrite length_app. cbn. lia. }
  specialize (Hd k ltac:(lia)).
  rewrite Hs in Hd. rewrite Hs'.
  rewrite take_app_le in Hd by lia. rewrite take_app_le by lia. exact Hd.
Qed.

(** ** Rotation *)

Lemma chars_of_uint_inj d d' : chars_of_uint d = chars_of_uint d' -> d = d'.
Proof.
  revert d'. induction d; destruct d'; cbn; intros E; try discriminate;
    try reflexivity; inversion E; f_equal; auto.
Qed.

Lemma chars_of_uint_no_minus d : forall r, chars_of_uint d <> 45%N :: r.
Proof. destruct d; cbn; intros r E; discriminate. Qed.

Lemma str_of_int_inj z z' : str_of_int z = str_of_int z' -> z = z'.
Proof.
  unfold str_of_int. intros E. apply DecimalZ.to_int_inj.
  destruct (Z.to_int z) as [d|d], (Z.to_int z') as [d'|d'].
  - f_equal. now apply chars_of_uint_inj.
  - exfalso. now apply (chars_of_uint_no_minus d (chars_of_uint d')).
  - exfalso. symmetry in E. now apply (chars_of_uint_no_minus d' (chars_of_uint d)).
  - inversion E. f_equal. now apply chars_of_uint_inj.
Qed.

Lemma run_bind {S A B} (m : M S A) (k : A -> M S B) s a s' :
  m s = (Ok a, s') -> (m ≫= k) s = k a s'.
Proof. unfold mbind, M_bind. now intros ->. Qed.

Lemma run_guard fs p : safe_target fs p -> guard p fs = (Ok tt, fs).
Proof. intros H. unfold guard, query. now rewrite guard_safe. Qed.

Section Rotation.
Variable fs0 : FileSystem.
Variable path : Path.
Hypothesis Hname : path_name path <> [].
Hypothesis Hdirs : directories_ready fs0 path.

Let F : list pystr := absolute fs0 path.
Let key (i : Z) : list pystr := absolute fs0 (chain_member path i).

(** The trees met during a rotation: as [fs0] above the chain. *)
Let tree_ok (t : gmap (list pystr) node) : Prop :=
  forall q, (length q < length F)%nat -> t !! q = tree fs0 !! q.

Let plain (t : gmap (list pystr) node) (q : list pystr) : Prop :=
  t !! q = None \/ exists data, t !! q = Some (Regular data).

Lemma key_length i : length (key i) = length F.
Proof.
  unfold key, F. rewrite absolute_chain_member by assumption.
  rewrite (absolute_split fs0 path Hname) at 2. now rewrite !length_app.
Qed.

Lemma key_inj i j : key i = key j -> i = j.
Proof.
  unfold key. rewrite !absolute_chain_member by assumption.
  intros E. apply app_inv_head in E. injection E as E'.
  apply app_inv_head in E'. apply (app_inv_head (py ".")) in E'.
  now apply str_of_int_inj.
Qed.

Lemma key_not_target i : key i <> F.
Proof.
  unfold key, F. rewrite absolute_chain_member by assumption.
  rewrite (absolute_split fs0 path Hname) at 2.
  intros E. apply app_inv_head in E. injection E as E'.
  rewrite <- (app_nil_r (path_name path)) in E' at 2.
  apply app_inv_head in E'. discriminate.
Qed.

Lemma key_nonempty i : key i <> [].
Proof. unfold key. apply absolute_nonempty, chain_member_name. Qed.

Lemma target_nonempty : F <> [].
Proof. unfold F. now apply absolute_nonempty. Qed.

Lemma tree_ok_insert t q n :
  tree_ok t -> length q = length F -> tree_ok (<[q := n]> t).
Proof.
  intros Hok Hlen q' Hq'. rewrite lookup_insert_ne; [now apply Hok|].
  intros ->. lia.
Qed.

Lemma tree_ok_delete t q :
  tree_ok t -> length q = length F -> tree_ok (delete q t).
Proof.
  intros Hok Hlen q' Hq'. rewrite lookup_delete_ne; [now apply Hok|].
  intros ->. lia.
Qed.

Lemma tree_ok_moved t i j : tree_ok t -> tree_ok (moved (key i) (key j) t).
Proof.
  intros Hok. unfold moved. destruct (t !! key i); [|exact Hok].
  apply tree_ok_insert; [|apply key_length].
  apply tree_ok_delete; [exact Hok|apply key_length].
Qed.

Lemma target_safe t :
  tree_ok t -> plain t F -> safe_target (with_tree fs0 t) path.
Proof.
  intros Hok Hp. split; [exact Hname|]. split.
  - apply directories_ready_frame; [|exact Hdirs]. exact Hok.
  - unfold plain_or_missing, node_of. rewrite absolute_with_tree. cbn [tree with_tree].
    fold F. rewrite node_at_nonempty by apply target_nonempty. exact Hp.
Qed.

Lemma member_safe t i :
  tree_ok t -> plain t (key i) -> safe_target (with_tree fs0 t) (chain_member path i).
Proof.
  intros Hok Hp. split; [apply chain_member_name|]. split.
  - apply directories_ready_frame.
    + fold (key i). rewrite key_length. exact Hok.
    + apply (directories_ready_sibling fs0 path);
        [exact Hname|apply chain_member_name| |exact Hdirs].
      rewrite absolute_chain_member by assumption. apply removelast_last.
  - unfold plain_or_missing, node_of. rewrite absolute_with_tree. cbn [tree with_tree].
    fold (key i). rewrite node_at_nonempty by apply key_nonempty. exact Hp.
Qed.

Lemma member_node t i :
  node_of (with_tree fs0 t) (chain_member path i) = t !! key i.
Proof.
  unfold node_of. rewrite absolute_with_tree. cbn [tree with_tree]. fold (key i).
  apply node_at_nonempty, key_nonempty.
Qed.

Lemma target_node t : node_of (with_tree fs0 t) path = t !! F.
Proof.
  unfold node_of. rewrite absolute_with_tree. cbn [tree with_tree]. fold F.
  apply node_at_nonempty, target_nonempty.
Qed.

Lemma plain_moved t i j q :
  plain t (key i) -> plain t q -> plain (moved (key i) (key j) t) q.
Proof.
  intros Hi Hq. unfold moved. destruct (t !! key i) as [n|] eqn:E; [|exact Hq].
  unfold plain. destruct (decide (q = key j)) as [->|Hne].
  - rewrite lookup_insert_eq. destruct Hi as [H|[d H]];
      rewrite E in H; [discriminate|]. inversion H; subst. right; eauto.
  - rewrite lookup_insert_ne by congruence.
    destruct (decide (q = key i)) as [->|Hne'].
    + rewrite lookup_delete_eq. now left.
    + rewrite lookup_delete_ne by congruence. exact Hq.
Qed.

Lemma moved_source t i j : i <> j -> moved (key i) (key j) t !! key i = None.
Proof.
  intros Hij. unfold moved. destruct (t !! key i) as [n|] eqn:E; [|exact E].
  rewrite lookup_insert_ne by (intros E'; apply key_inj in E'; congruence).
  apply lookup_delete_eq.
Qed.

Lemma moved_destination t i j :
  t !! key j = None -> moved (key i) (key j) t !! key j = t !! key i.
Proof.
  intros Hj. unfold moved. destruct (t !! key i) as [n|] eqn:E; [|exact Hj].
  apply lookup_insert_eq.
Qed.

Lemma moved_other t src dst q :
  q <> src -> q <> dst -> moved src dst t !! q = t !! q.
Proof.
  intros Hs Hd. unfold moved. destruct (t !! src); [|reflexivity].
  rewrite lookup_insert_ne by congruence. now rewrite lookup_delete_ne by congruence.
Qed.

Lemma range_down_succ n :
  range_down (Z.of_nat (S n)) 0 = Z.of_nat (S n) :: range_down (Z.of_nat n) 0.
Proof.
  unfold range_down. rewrite !Z.sub_0_r, !Nat2Z.id. cbn [seq map].
  f_equal; try lia. rewrite <- seq_shift, List.map_map. apply map_ext. intros i. lia.
Qed.

(** One round of the loop moves [F.idx] to the free place [F.(idx+1)]. *)
Lemma shift_round t idx rest :
  tree_ok t -> plain t (key idx) -> t !! key (idx + 1) = None ->
  rotate_shift path (idx :: rest) (with_tree fs0 t)
  = rotate_shift path rest (with_tree fs0 (moved (key idx) (key (idx + 1)) t)).
Proof.
  intros Hok Hsrc Hdst. cbn [rotate_shift].
  rewrite !numbered_chain_member by assumption.
  erewrite run_bind by reflexivity.
  erewrite run_bind by reflexivity.
  erewrite run_bind by (apply run_guard, member_safe; assumption).
  erewrite run_bind by (apply run_guard, member_safe; [assumption|now left]).
  erewrite run_bind by reflexivity.
  rewrite exists_safe by (apply member_safe; assumption).
  rewrite member_node. unfold moved.
  destruct (t !! key idx) as [n|] eqn:E.
  - rewrite bool_decide_eq_true_2 by eauto. cbn [when].
    erewrite run_bind; [reflexivity|]. unfold call.
    erewrite replace_safe.
    + reflexivity.
    + apply member_safe; assumption.
    + apply member_safe; [assumption|now left].
    + rewrite member_node. exact E.
  - rewrite bool_decide_eq_false_2 by (intros [? ?]; discriminate). cbn [when].
    erewrite run_bind by reflexivity. reflexivity.
Qed.

Lemma shift_run n :
  forall t,
    tree_ok t ->
    (forall i, 1 <= i <= Z.of_nat n + 1 -> plain t (key i)) ->
    t !! key (Z.of_nat n + 1) = None ->
    rotate_shift path (range_down (Z.of_nat n) 0) (with_tree fs0 t)
    = (Ok tt, with_tree fs0 (shifted key n t)).
Proof.
  induction n as [|n IH]; intros t Hok Hplain Hfree; [reflexivity|].
  rewrite range_down_succ. rewrite shift_round; try assumption.
  - cbn [shifted]. apply IH.
    + now apply tree_ok_moved.
    + intros i Hi. apply plain_moved; apply Hplain; lia.
    + replace (Z.of_nat n + 1) with (Z.of_nat (S n)) by lia.
      apply moved_source. lia.
  - apply Hplain. lia.
Qed.

(** What the loop leaves: every member one place up, the first place free,
    everything else untouched. *)
Lemma shifted_lookup n :
  forall t,
    t !! key (Z.of_nat n + 1) = None ->
    (forall i, 1 <= i <= Z.of_nat n -> shifted key n t !! key (i + 1) = t !! key i)
    /\ shifted key n t !! key 1 = None
    /\ (forall q, (forall i, 1 <= i <= Z.of_nat n + 1 -> q <> key i) ->
                  shifted key n t !! q = t !! q).
Proof.
  induction n as [|n IH]; intros t Hfree.
  - cbn [shifted]. split; [intros i Hi; lia|]. split; [exact Hfree|reflexivity].
  - cbn [shifted].
    set (t1 := moved (key (Z.of_nat (S n))) (key (Z.of_nat (S n) + 1)) t).
    assert (Hfree1 : t1 !! key (Z.of_nat n + 1) = None).
    { replace (Z.of_nat n + 1) with (Z.of_nat (S n)) by lia.
      apply moved_source. lia. }
    destruct (IH t1 Hfree1) as (Hup & Hfirst & Hother).
    split; [|split].
    + intros i Hi. destruct (Z.eq_dec i (Z.of_nat (S n))) as [->|Hne].
      * rewrite Hother.
        -- now apply moved_destination.
        -- intros j Hj E. apply key_inj in E. lia.
      * rewrite Hup by lia. apply moved_other; intros E; apply key_inj in E; lia.
    + exact Hfirst.
    + intros q Hq. rewrite Hother by (intros i Hi; apply Hq; lia).
      apply moved_other; apply Hq; lia.
Qed.
End Rotation.

Lemma moved_to src dst t :
  t !! dst = None -> moved src dst t !! dst = t !! src.
Proof.
  intros Hd. unfold moved. destruct (t !! src) eqn:E; [|exact Hd].
  apply lookup_insert_eq.
Qed.

Lemma moved_from src dst t : src <> dst -> moved src dst t !! src = None.
Proof.
  intros Hne. unfold moved. destruct (t !! src) eqn:E; [|exact E].
  rewrite lookup_insert_ne by congruence. apply lookup_delete_eq.
Qed.

Lemma with_tree_same fs : with_tree fs (tree fs) = fs.
Proof. now destruct fs. Qed.

Lemma with_tree_twice fs t t' : with_tree (with_tree fs t) t' = with_tree fs t'.
Proof. reflexivity. Qed.

(** Truncation in place: the case [keep <= 0]. *)
Lemma rotate_files_truncate fs path keep :
  keep <= 0 -> safe_target fs path ->
  rotate_files path keep fs
  = (Ok tt, with_tree fs (<[absolute fs path := Regular []]> (tree fs))).
Proof.
  intros Hkeep Hsafe. unfold rotate_files.
  erewrite run_bind by (now apply run_guard).
  destruct (Z.leb_spec keep 0); [|lia].
  unfold write_empty, call. now rewrite write_safe.
Qed.

(** The chain shifted: the case [keep > 0]. *)
Lemma rotate_files_shift fs path n :
  rotation_ready fs path (Z.of_nat (S n)) ->
  let key := fun i => absolute fs (chain_member path i) in
  rotate_files path (Z.of_nat (S n)) fs
  = (Ok tt,
     with_tree fs
       (<[absolute fs path := Regular []]>
          (moved (absolute fs path) (key 1)
             (shifted key n (delete (key (Z.of_nat (S n))) (tree fs)))))).
Proof.
  intros ((Hname & Hdirs & Hplain) & Hchain) key.
  set (keep := Z.of_nat (S n)) in *.
  set (t0 := delete (key keep) (tree fs)).
  set (t1 := shifted key n t0).
  assert (Hok : forall q, (length q < length (absolute fs path))%nat ->
                          tree fs !! q = tree fs !! q) by reflexivity.
  assert (Hplain_t : forall i, 1 <= i <= keep ->
            tree fs !! key i = None \/ exists d, tree fs !! key i = Some (Regular d)).
  { intros i Hi. specialize (Hchain i Hi). unfold plain_or_missing in Hchain.
    rewrite <- (with_tree_same fs) in Hchain.
    rewrite (member_node fs path) in Hchain. exact Hchain. }
  assert (Hplain_F : tree fs !! absolute fs path = None
                     \/ exists d, tree fs !! absolute fs path = Some (Regular d)).
  { unfold plain_or_missing in Hplain. rewrite <- (with_tree_same fs) in Hplain.
    rewrite (target_node fs path Hname) in Hplain. exact Hplain. }
  assert (Hok0 : forall q, (length q < length (absolute fs path))%nat ->
                           t0 !! q = tree fs !! q).
  { apply tree_ok_delete; [exact Hok|]. now apply key_length. }
  assert (Hplain0 : forall i, 1 <= i <= Z.of_nat n + 1 ->
            t0 !! key i = None \/ exists d, t0 !! key i = Some (Regular d)).
  { intros i Hi. unfold t0. destruct (Z.eq_dec i keep) as [->|Hne].
    - left. apply lookup_delete_eq.
    - rewrite lookup_delete_ne
        by (intros E; apply (key_inj fs path Hname) in E; congruence).
      apply Hplain_t. lia. }
  assert (Hfree0 : t0 !! key (Z.of_nat n + 1) = None).
  { replace (Z.of_nat n + 1) with keep by lia. apply lookup_delete_eq. }
  destruct (shifted_lookup fs path Hname n t0 Hfree0) as (Hup & Hfirst & Hother).
  fold key in Hup, Hfirst, Hother. fold t1 in Hup, Hfirst, Hother.
  assert (HF1 : t1 !! absolute fs path = tree fs !! absolute fs path).
  { rewrite Hother.
    - apply lookup_delete_ne. apply (key_not_target fs path Hname).
    - intros i _ E. symmetry in E. now apply (key_not_target fs path Hname) in E. }
  assert (Hok1 : forall q, (length q < length (absolute fs path))%nat ->
                           t1 !! q = tree fs !! q).
  { intros q Hq. rewrite Hother; [now apply Hok0|].
    intros i _ ->. rewrite (key_length fs path Hname) in Hq. lia. }
  unfold rotate_files.
  erewrite run_bind by (apply run_guard; repeat split; assumption).
  destruct (Z.leb_spec keep 0); [lia|].
  rewrite (numbered_chain_member path keep) by assumption.
  erewrite run_bind by reflexivity.
  rewrite <- (with_tree_same fs) at 1.
  erewrite run_bind
    by (apply run_guard, (member_safe fs path Hname Hdirs);
        [exact Hok|apply Hplain_t; lia]).
  erewrite run_bind by reflexivity.
  rewrite exists_safe
    by (apply (member_safe fs path Hname Hdirs); [exact Hok|apply Hplain_t; lia]).
  rewrite (member_node fs path).
  assert (Hunlink :
    when (bool_decide (is_Some (tree fs !! key keep)))
         (call (fun fs1 => path_unlink fs1 (chain_member path keep)))
         (with_tree fs (tree fs))
    = (Ok tt, with_tree fs t0)).
  { destruct (Hplain_t keep ltac:(lia)) as [Hk|[d Hk]].
    - rewrite Hk. rewrite bool_decide_eq_false_2 by (intros [? ?]; discriminate).
      cbn [when]. unfold t0. now rewrite delete_id.
    - rewrite Hk. rewrite bool_decide_eq_true_2 by eauto. cbn [when]. unfold call.
      erewrite unlink_safe.
      + reflexivity.
      + rewrite (member_node fs path). exact Hk. }
  erewrite run_bind by exact Hunlink.
  replace (keep - 1) with (Z.of_nat n) by (unfold keep; lia).
  erewrite run_bind
    by (apply (shift_run fs path Hname Hdirs n t0 Hok0 Hplain0 Hfree0)).
  fold key. fold t1.
  erewrite run_bind by reflexivity.
  assert (Hsafe1 : safe_target (with_tree fs t1) path).
  { apply (target_safe fs path Hname Hdirs); [exact Hok1|]. now rewrite HF1. }
  rewrite exists_safe by apply Hsafe1.
  rewrite (target_node fs path Hname). rewrite HF1.
  assert (Hmove :
    when (bool_decide (is_Some (tree fs !! absolute fs path)))
         (first ← lift_res (numbered path 1);
          _ ← guard first;
          call (fun fs1 => path_replace fs1 path first))
         (with_tree fs t1)
    = (Ok tt, with_tree fs (moved (absolute fs path) (key 1) t1))).
  { unfold moved. rewrite HF1.
    destruct (tree fs !! absolute fs path) as [nd|] eqn:EF.
    - rewrite bool_decide_eq_true_2 by eauto. cbn [when].
      rewrite numbered_chain_member by assumption.
      erewrite run_bind by reflexivity.
      assert (Hsafe_first : safe_target (with_tree fs t1) (chain_member path 1)).
      { apply (member_safe fs path Hname Hdirs); [exact Hok1|]. left. exact Hfirst. }
      erewrite run_bind by (now apply run_guard).
      unfold call. erewrite replace_safe; try eassumption.
      + reflexivity.
      + rewrite (target_node fs path Hname). now rewrite HF1.
    - rewrite bool_decide_eq_false_2 by (intros [? ?]; discriminate). reflexivity. }
  erewrite run_bind by exact Hmove.
  unfold write_empty, call. rewrite write_safe.
  - reflexivity.
  - apply (target_safe fs path Hname Hdirs).
    + intros q Hq. rewrite moved_other.
      * now apply Hok1.
      * intros ->. lia.
      * intros ->. unfold key in Hq. rewrite (key_length fs path Hname) in Hq. lia.
    + left. apply moved_from. intros E. symmetry in E.
      now apply (key_not_target fs path Hname) in E.
Qed.

Lemma node_of_target fs path :
  path_name path <> [] -> node_of fs path = tree fs !! absolute fs path.
Proof.
  intros H. unfold node_of. now rewrite node_at_nonempty by (now apply absolute_nonempty).
Qed.

Lemma node_of_member fs path i :
  node_of fs (chain_member path i) = tree fs !! absolute fs (chain_member path i).
Proof.
  unfold node_of.
  now rewrite node_at_nonempty by (apply absolute_nonempty, chain_member_name).
Qed.

(** A rotation of a safe chain succeeds and leaves a safe target. *)
Lemma rotate_files_keeps_safe fs path keep :
  rotation_ready fs path keep ->
  exists fs1,
    rotate_files path keep fs = (Ok tt, fs1)
    /\ safe_target fs1 path
    /\ absolute fs1 path = absolute fs path.
Proof.
  intros Hready. pose proof Hready as ((Hname & Hdirs & Hplain) & Hchain).
  assert (Hsafe : forall t,
    (forall q, (length q < length (absolute fs path))%nat -> t !! q = tree fs !! q) ->
    t !! absolute fs path = Some (Regular []) ->
    safe_target (with_tree fs t) path).
  { intros t Hframe Hnode. apply (target_safe fs path Hname Hdirs t Hframe).
    right. eauto. }
  destruct (Z.leb_spec keep 0) as [Hle|Hgt].
  - eexists. split; [apply rotate_files_truncate; [exact Hle|apply Hready]|].
    split; [|reflexivity]. apply Hsafe.
    + intros q Hq. apply lookup_insert_ne. intros <-. lia.
    + apply lookup_insert_eq.
  - assert (Hk : keep = Z.of_nat (S (Z.to_nat (keep - 1)))) by lia.
    rewrite Hk in Hready.
    pose proof (rotate_files_shift fs path _ Hready) as Hrun. cbv zeta in Hrun.
    rewrite <- Hk in Hrun.
    eexists. split; [exact Hrun|]. split; [|reflexivity]. apply Hsafe.
    + intros q Hq.
      assert (Hkey : forall i, q <> absolute fs (chain_member path i)).
      { intros i ->. rewrite (key_length fs path Hname) in Hq. lia. }
      rewrite lookup_insert_ne by (intros <-; lia).
      rewrite moved_other; [|intros ->; lia|apply Hkey].
      destruct (shifted_lookup fs path Hname (Z.to_nat (keep - 1))
                  (delete (absolute fs (chain_member path keep)) (tree fs)))
        as (_ & _ & Hother).
      { replace (Z.of_nat (Z.to_nat (keep - 1)) + 1) with keep by lia.
        apply lookup_delete_eq. }
      rewrite Hother by (intros i _; apply Hkey).
      apply lookup_delete_ne. intros E. symmetry in E. now apply Hkey in E.
    + apply lookup_insert_eq.
Qed.

(** C6: rotation of a safe chain succeeds.  With [keep <= 0] the file is
    truncated in place and nothing else changes; with [keep > 0] the file
    [F.keep] is dropped, every [F.i] becomes [F.(i+1)], [F] becomes [F.1],
    and [F] is recreated empty, nothing else changes.  In both cases [F]
    exists and is empty afterwards. *)
Theorem rotate_files_spec (fs : FileSystem) (path : Path) (keep : Z) :
  rotation_ready fs path keep ->
  exists fs',
    rotate_files path keep fs = (Ok tt, fs')
    /\ cwd fs' = cwd fs
    /\ node_of fs' path = Some (Regular [])
    /\ (keep <= 0 ->
        forall q, q <> absolute fs path -> tree fs' !! q = tree fs !! q)
    /\ (0 < keep ->
        node_of fs' (chain_member path 1) = node_of fs path
        /\ (forall i, 1 <= i < keep ->
              node_of fs' (chain_member path (i + 1))
              = node_of fs (chain_member path i))
        /\ (forall q, q <> absolute fs path ->
              (forall i, 1 <= i <= keep -> q <> absolute fs (chain_member path i)) ->
              tree fs' !! q = tree fs !! q)).
Proof.
  intros Hready. pose proof Hready as ((Hname & Hdirs & Hplain) & Hchain).
  destruct (Z.leb_spec keep 0) as [Hle|Hgt].
  - eexists. split; [apply rotate_files_truncate; [exact Hle|apply Hready]|].
    split; [reflexivity|]. split; [|split].
    + rewrite (target_node fs path Hname). apply lookup_insert_eq.
    + intros _ q Hq. cbn [tree with_tree]. now rewrite lookup_insert_ne by congruence.
    + intros H. lia.
  - assert (Hk : keep = Z.of_nat (S (Z.to_nat (keep - 1)))) by lia.
    set (n := Z.to_nat (keep - 1)) in *.
    rewrite Hk in Hready.
    pose proof (rotate_files_shift fs path n Hready) as Hrun. cbv zeta in Hrun.
    rewrite <- Hk in Hrun.
    pose (key := fun i => absolute fs (chain_member path i)).
    pose (t0 := delete (key keep) (tree fs)).
    assert (Hfree0 : t0 !! key (Z.of_nat n + 1) = None).
    { replace (Z.of_nat n + 1) with keep by lia. apply lookup_delete_eq. }
    destruct (shifted_lookup fs path Hname n t0 Hfree0) as (Hup & Hfirst & Hother).
    pose (t1 := shifted key n t0).
    change (shifted (fun i => absolute fs (chain_member path i)) n t0) with t1 in *.
    change (shifted (fun i => absolute fs (chain_member path i)) n
              (delete (absolute fs (chain_member path keep)) (tree fs))) with t1 in *.
    assert (Hne : forall i, absolute fs (chain_member path i) <> absolute fs path)
      by (intros i; apply (key_not_target fs path Hname)).
    assert (Hinj : forall i j, absolute fs (chain_member path i)
                               = absolute fs (chain_member path j) -> i = j)
      by (apply (key_inj fs path Hname)).
    assert (HF1 : t1 !! absolute fs path = tree fs !! absolute fs path).
    { rewrite Hother.
      - unfold t0, key. apply lookup_delete_ne. apply Hne.
      - intros i _ E. symmetry in E. now apply Hne in E. }
    eexists. split; [exact Hrun|]. split; [reflexivity|]. split; [|split].
    + rewrite (target_node fs path Hname). apply lookup_insert_eq.
    + intros H. lia.
    + intros _. split; [|split].
      * rewrite (member_node fs path).
        rewrite lookup_insert_ne by (intros E; symmetry in E; now apply Hne in E).
        rewrite moved_to by exact Hfirst. rewrite HF1.
        now rewrite node_of_target.
      * intros i Hi. rewrite (member_node fs path).
        rewrite lookup_insert_ne by (intros E; symmetry in E; now apply Hne in E).
        rewrite moved_other.
        -- rewrite Hup by lia. unfold t0, key.
           rewrite lookup_delete_ne by (intros E; apply Hinj in E; lia).
           now rewrite node_of_member.
        -- apply Hne.
        -- intros E. apply Hinj in E. lia.
      * intros q HqF Hq. cbn [tree with_tree].
        rewrite lookup_insert_ne by congruence.
        rewrite moved_other; [|exact HqF|apply Hq; lia].
        rewrite Hother by (intros i Hi; apply Hq; lia).
        unfold t0, key. apply lookup_delete_ne. intros E. symmetry in E.
        revert E. apply Hq. lia.
Qed.

Lemma sample_log_ready : rotation_ready sample_fs sample_log 2.
Proof.
  split; [split; [|split]|].
  - discriminate.
  - intros k Hk. change (length (absolute sample_fs sample_log)) with 3%nat in Hk.
    assert (Hcases : k = 1%nat \/ k = 2%nat) by lia.
    destruct Hcases as [-> | ->]; vm_compute; reflexivity.
  - right. eexists. vm_compute. reflexivity.
  - intros i Hi. assert (Hcases : i = 1 \/ i = 2) by lia.
    destruct Hcases as [-> | ->].
    + right. eexists. vm_compute. reflexivity.
    + left. vm_compute. reflexivity.
Qed.

(** The example of the specification: ["newest"] in [F] and ["older"] in
    [F.1], rotated with [keep = 2]. *)
Lemma rotate_files_spec_witness :
  exists fs',
    rotate_files sample_log 2 sample_fs = (Ok tt, fs')
    /\ node_of fs' (chain_member sample_log 2) = Some (Regular (ascii_bytes "older"))
    /\ node_of fs' (chain_member sample_log 1) = Some (Regular (ascii_bytes "newest"))
    /\ node_of fs' sample_log = Some (Regular []).
Proof.
  destruct (rotate_files_spec sample_fs sample_log 2 sample_log_ready)
    as (fs' & Hrun & _ & Hempty & _ & Hshift).
  destruct (Hshift ltac:(lia)) as (Hfirst & Hup & _).
  exists fs'. split; [exact Hrun|]. split; [|split].
  - change 2 with (1 + 1). rewrite (Hup 1) by lia. vm_compute. reflexivity.
  - rewrite Hfirst. vm_compute. reflexivity.
  - exact Hempty.
Defined.

(** The same example, run. *)
Example rotate_files_runs :
  let fs' := snd (rotate_files sample_log 2 sample_fs) in
  fst (rotate_files sample_log 2 sample_fs) = Ok tt
  /\ tree fs' !! [py "var"; py "log"; py "app.log.2"] = Some (Regular (ascii_bytes "older"))
  /\ tree fs' !! [py "var"; py "log"; py "app.log.1"] = Some (Regular (ascii_bytes "newest"))
  /\ tree fs' !! [py "var"; py "log"; py "app.log"] = Some (Regular []).
Proof. vm_compute. repeat split. Qed.

(** ** Flattening *)

Lemma match_star_all ws rest :
  Forall (fun c => isspace c = true) ws -> nonspace_start rest ->
  match_star isspace Some (ws ++ rest) = Some rest.
Proof.
  intros Hws Hrest. induction Hws as [|c ws Hc _ IH]; cbn [app match_star].
  - destruct rest as [|d r]; cbn [match_star]; [reflexivity|].
    cbn [nonspace_start] in Hrest. now rewrite Hrest.
  - now rewrite Hc, IH.
Qed.

Lemma match_ws_nl_ws_run ws rest :
  Forall (fun c => isspace c = true) ws -> nonspace_start rest ->
  match_ws_nl_ws (ws ++ rest)
  = if existsb (N.eqb LF) ws then Some rest else None.
Proof.
  intros Hws Hrest. unfold match_ws_nl_ws.
  induction Hws as [|c ws Hc Hws IH]; cbn [app existsb match_star].
  - destruct rest as [|d r]; cbn [match_star]; [reflexivity|].
    cbn [nonspace_start] in Hrest. rewrite Hrest.
    destruct (N.eqb_spec d LF) as [->|Hne]; [discriminate Hrest|reflexivity].
  - rewrite Hc, IH. destruct (existsb (N.eqb LF) ws).
    + now rewrite orb_true_r.
    + rewrite orb_false_r, (N.eqb_sym LF c).
      destruct (c =? LF)%N; [|reflexivity].
      now apply match_star_all.
Qed.

Lemma whitespace_prefix s :
  exists ws rest, s = ws ++ rest
                  /\ Forall (fun c => isspace c = true) ws /\ nonspace_start rest.
Proof.
  induction s as [|c r (ws & rest & -> & Hws & Hrest)].
  - exists [], []. repeat split. constructor.
  - destruct (isspace c) eqn:Hc.
    + exists (c :: ws), rest. repeat split; [now constructor|exact Hrest].
    + exists [], (c :: ws ++ rest). repeat split; [constructor|exact Hc].
Qed.

Lemma collapse_from_run run ws rest :
  Forall (fun c => isspace c = true) ws ->
  collapse_from run (ws ++ rest) = collapse_from (run ++ ws) rest.
Proof.
  intros Hws. revert run. induction Hws as [|c ws Hc _ IH]; intros run; cbn.
  - now rewrite app_nil_r.
  - rewrite Hc, IH. now rewrite <- app_assoc.
Qed.

Lemma collapse_from_nonspace run rest :
  nonspace_start rest ->
  collapse_from run rest = flush_run run ++ collapse_from [] rest.
Proof.
  destruct rest as [|d r]; cbn.
  - intros _. now rewrite app_nil_r.
  - now intros ->.
Qed.

Lemma sub_ws_nl_ws_collapse fuel :
  forall s, (length s <= fuel)%nat -> sub_ws_nl_ws fuel s = collapse_newline_runs s.
Proof.
  unfold collapse_newline_runs.
  induction fuel as [|fuel IH]; intros s Hlen.
  - destruct s; [reflexivity|cbn in Hlen; lia].
  - destruct s as [|c r]; [reflexivity|]. cbn [sub_ws_nl_ws].
    destruct (whitespace_prefix (c :: r)) as (ws & rest & Hs & Hws & Hrest).
    rewrite Hs at 1. rewrite match_ws_nl_ws_run by assumption.
    rewrite Hs at 1. rewrite collapse_from_run by assumption.
    rewrite collapse_from_nonspace by assumption. cbn [app].
    unfold flush_run.
    destruct (existsb (N.eqb LF) ws) eqn:Hnl.
    + rewrite IH; [reflexivity|].
      destruct ws as [|c' ws']; [discriminate Hnl|].
      apply (f_equal (@length _)) in Hs. cbn [length app] in Hs, Hlen.
      rewrite length_app in Hs. lia.
    + rewrite IH by (cbn [length] in Hlen; lia).
      destruct ws as [|c' ws'].
      * cbn in Hs. subst rest. cbn [app]. cbn [collapse_from].
        cbn in Hrest. rewrite Hrest. reflexivity.
      * cbn [app] in Hs. injection Hs as -> ->. cbn [app]. f_equal.
        inversion Hws; subst.
        rewrite collapse_from_run by assumption.
        rewrite collapse_from_nonspace by assumption.
        cbn [app existsb] in Hnl. apply orb_false_elim in Hnl.
        destruct Hnl as [_ Hnl]. unfold flush_run. cbn [app]. now rewrite Hnl.
Qed.

Lemma flatten_message_spec text :
  flatten_message text
  = strip (collapse_newline_runs (normalize_newlines text)).
Proof. unfold flatten_message. now rewrite sub_ws_nl_ws_collapse. Qed.

(** ** File facility *)

Lemma digit_range v : ((48 <=? digit v) && (digit v <=? 57))%N = true.
Proof.
  unfold digit. pose proof (Z.mod_pos_bound v 10 ltac:(lia)) as H.
  apply andb_true_intro. split; apply N.leb_le; lia.
Qed.

Lemma strftime_datetime_shape t :
  shape_ok (py "dddd-dd-dd dd:dd:dd") (strftime_datetime t) = true.
Proof.
  unfold strftime_datetime, strftime_date, strftime_clock, pad4, pad2.
  cbn [app py map list_ascii_of_string shape_ok].
  repeat (cbn [N_of_ascii N_of_digits N.add N.mul N.eqb Pos.eqb shape_ok app
               py map list_ascii_of_string andb];
          rewrite ?digit_range).
  reflexivity.
Qed.

Lemma absolute_same_cwd fs fs' p : cwd fs' = cwd fs -> absolute fs' p = absolute fs p.
Proof. intros H. rewrite !absolute_parts. now rewrite H. Qed.

Lemma current_size_safe fs p :
  path_name p <> [] -> plain_or_missing fs p ->
  current_size_of p fs = (Ok (len (data_of (node_of fs p))), fs).
Proof.
  intros Hn Hp. unfold current_size_of.
  erewrite run_bind by reflexivity. rewrite exists_safe by assumption.
  destruct Hp as [Hp|[data Hp]]; rewrite Hp.
  - rewrite bool_decide_eq_false_2 by (intros [? ?]; discriminate). reflexivity.
  - rewrite bool_decide_eq_true_2 by eauto.
    erewrite run_bind
      by (unfold query; rewrite (stat_safe fs p data Hp); reflexivity).
    reflexivity.
Qed.




(** The same write, run: the 6 bytes in place and the 34 bytes of the line
    exceed the maximum of 30, so the chain is rotated first. *)
Example FileFacility_write_runs :
  let fs' := snd (FileFacility_write sample_file_facility sample_record sample_fs) in
  fst (FileFacility_write sample_file_facility sample_record sample_fs) = Ok tt
  /\ tree fs' !! [py "var"; py "log"; py "app.log"]
     = Some (Regular (ascii_bytes "[2026-01-02 03:04:05] [WARNING] a" ++ [Byte.x0a]))
  /\ tree fs' !! [py "var"; py "log"; py "app.log.1"]
     = Some (Regular (ascii_bytes "newest"))
  /\ tree fs' !! [py "var"; py "log"; py "app.log.2"]
     = Some (Regular (ascii_bytes "older")).
Proof. vm_compute. repeat split. Qed.

(** ** HTML facility *)

Lemma only_timeout_ret {A} (a : A) : only_timeout (mret a).
Proof. intros k e k' E. discriminate E. Qed.

Lemma only_timeout_bind {A B} (m : timed A) (f : A -> timed B) :
  only_timeout m -> (forall a, only_timeout (f a)) -> only_timeout (m ≫= f).
Proof.
  intros Hm Hf k e k' E. unfold mbind, M_bind in E.
  destruct (m k) as [[a|e0] k1] eqn:Em.
  - now apply (Hf a k1 e k').
  - inversion E; subst. now apply (Hm k e k').
Qed.

Lemma only_timeout_check pc deadline : only_timeout (check_deadline pc deadline).
Proof.
  intros k e k' E. unfold check_deadline in E.
  destruct deadline as [d|]; [|discriminate E].
  destruct (Qle_bool d (pc k)); inversion E; reflexivity.
Qed.

Lemma only_timeout_content pc deadline text :
  only_timeout (quoted_content_spans pc deadline text).
Proof.
  intros k e k' E.
  pose proof (quoted_content_spans_spec pc deadline text k) as H.
  rewrite E in H. apply H.
Qed.

Lemma only_timeout_mark_close pc deadline text fuel quote cursor :
  only_timeout (mark_close pc deadline text fuel quote cursor).
Proof.
  revert cursor. induction fuel as [|fuel IH]; intros cursor; cbn [mark_close].
  - apply only_timeout_ret.
  - destruct (cursor <? length text)%nat; [|apply only_timeout_ret].
    apply only_timeout_bind; [apply only_timeout_check|]. intros _.
    destruct (_ && _); [apply only_timeout_ret|apply IH].
Qed.

Lemma only_timeout_mark_loop pc deadline text fuel idx positions :
  only_timeout (mark_loop pc deadline text fuel idx positions).
Proof.
  revert idx positions. induction fuel as [|fuel IH]; intros idx positions;
    cbn [mark_loop].
  - apply only_timeout_ret.
  - destruct (idx <? length text)%nat; [|apply only_timeout_ret].
    apply only_timeout_bind; [apply only_timeout_check|]. intros _.
    destruct (negb _); [apply IH|].
    apply only_timeout_bind; [apply only_timeout_mark_close|].
    intros [cursor|]; apply IH.
Qed.

Lemma only_timeout_ident_run pc deadline text U fuel idx :
  only_timeout (ident_run pc deadline text U fuel idx).
Proof.
  revert idx. induction fuel as [|fuel IH]; intros idx; cbn [ident_run].
  - apply only_timeout_ret.
  - destruct (_ && _); [|apply only_timeout_ret].
    apply only_timeout_bind; [apply only_timeout_check|]. intros _. apply IH.
Qed.

Lemma only_timeout_lhs_loop pc deadline text U fuel idx spans :
  only_timeout (lhs_loop pc deadline text U fuel idx spans).
Proof.
  revert idx spans. induction fuel as [|fuel IH]; intros idx spans; cbn [lhs_loop].
  - apply only_timeout_ret.
  - destruct (idx <? length text)%nat; [|apply only_timeout_ret].
    apply only_timeout_bind; [apply only_timeout_check|]. intros _.
    destruct (negb _); [apply IH|].
    apply only_timeout_bind; [apply only_timeout_ident_run|].
    intros end_. destruct (_ && _); apply IH.
Qed.

Lemma only_timeout_scan_line env deadline line :
  only_timeout (scan_line env deadline line).
Proof.
  unfold scan_line.
  apply only_timeout_bind; [apply only_timeout_content|]. intros qs.
  apply only_timeout_bind; [apply only_timeout_mark_loop|]. intros qm.
  apply only_timeout_bind; [apply only_timeout_lhs_loop|]. intros ls.
  apply only_timeout_ret.
Qed.

Lemma catch_timeout_total {A} (body handler : timed A) k :
  only_timeout body ->
  (forall k1, exists a k2, handler k1 = (Ok a, k2)) ->
  exists a k', catch_timeout body handler k = (Ok a, k').
Proof.
  intros Hbody Hhandler. unfold catch_timeout.
  destruct (body k) as [[a|e] k1] eqn:E; [eauto|].
  apply Hbody in E. subst e. apply Hhandler.
Qed.

(** Rendering always gives a text: the time budget is handled inside. *)
Lemma html_line_total env self idx_line raw_line k :
  exists text k', html_line env self idx_line raw_line k = (Ok text, k').
Proof.
  unfold html_line. unfold mbind at 1, M_bind at 1, read_perf.
  apply catch_timeout_total.
  - apply only_timeout_bind; [apply only_timeout_scan_line|].
    intros scans k2 e2 k3. unfold html_spans.
    destruct (html_chars _ _ _ _ _ _ _) as [[segs [|]] k4]; discriminate.
  - intros k1. eexists _, _. reflexivity.
Qed.

Lemma html_lines_total env self lines :
  forall idx_line k,
  exists texts k', html_lines env self idx_line lines k = (Ok texts, k').
Proof.
  induction lines as [|raw rest IH]; intros idx_line k; cbn [html_lines].
  - eexists _, _. reflexivity.
  - destruct (html_line_total env self idx_line raw k) as (text & k1 & E1).
    destruct (IH (S idx_line) k1) as (texts & k2 & E2).
    exists (text :: texts), k2.
    erewrite run_bind by exact E1. erewrite run_bind by exact E2. reflexivity.
Qed.

Lemma render_html_message_total env self message k :
  exists rendered k',
    render_html_message env self message k = (Ok rendered, k').
Proof.
  unfold render_html_message.
  match goal with
  | |- context [html_lines env self 0 ?l] =>
      destruct (html_lines_total env self l 0%nat k) as (texts & k' & E)
  end.
  eexists _, _. erewrite run_bind by exact E. reflexivity.
Qed.

Lemma digit_not_space v : (digit v =? SPACE)%N = false.
Proof.
  pose proof (digit_range v) as H. apply andb_true_iff in H.
  destruct H as [H _]. apply N.leb_le in H. apply N.eqb_neq.
  unfold SPACE. lia.
Qed.

Lemma split_once_timestamp t :
  split_once SPACE (strftime_datetime t) = Ok (strftime_date t, strftime_clock t).
Proof.
  unfold strftime_datetime, strftime_date, pad4, pad2.
  cbn [app py map list_ascii_of_string split_once].
  repeat (rewrite ?digit_not_space; cbn [split_once mbind res_bind]).
  reflexivity.
Qed.

Lemma html_row_total record n rendered :
  exists row, html_row record n rendered = Ok row.
Proof.
  unfold html_row. rewrite split_once_timestamp. cbn [mbind res_bind].
  eexists. reflexivity.
Qed.

Lemma run_on_fs {Self A} (m : M FileSystem A) (self : Self) w r x :
  m (fs w) = (r, x) ->
  on_world (on_fs m) (self, w) = (r, (self, with_fs w x)).
Proof. intros E. unfold on_world, on_fs. cbn [fst snd]. now rewrite E. Qed.

Lemma with_fs_same w : with_fs w (fs w) = w.
Proof. now destruct w. Qed.

Lemma ensure_document_present env self x data :
  plain_or_missing x (hf_file_path self) ->
  node_of x (hf_file_path self) = Some (Regular data) -> data <> [] ->
  ensure_document env self x = (Ok tt, x).
Proof.
  intros Hp Hnode Hdata. unfold ensure_document.
  erewrite run_bind by reflexivity. rewrite exists_safe by exact Hp.
  rewrite Hnode. rewrite bool_decide_eq_true_2 by eauto.
  erewrite run_bind.
  2:{ erewrite run_bind
        by (unfold query; rewrite (stat_safe x _ data Hnode); reflexivity).
      reflexivity. }
  cbn [stat_of st_size].
  assert (Hpos : (len data >? 0) = true).
  { destruct data; [congruence|]. unfold len. cbn [length]. apply Z.gtb_lt. lia. }
  rewrite Hpos. reflexivity.
Qed.


Lemma sample_log_safe : safe_target sample_fs sample_log.
Proof. apply sample_log_ready. Qed.


(** The untampered renderer: the row validates and is appended. *)
Example HtmlFileFacility_write_runs :
  fst (HtmlFileFacility_write sample_env sample_record
         (sample_html_facility, sample_world)) = Ok tt
  /\ hf_line_number
       (fst (snd (HtmlFileFacility_write sample_env sample_record
                    (sample_html_facility, sample_world)))) = 1.
Proof. vm_compute. split; reflexivity. Qed.

(** ** Router: the write throttle *)

Lemma should_drop_in_window env handle self w :
  let now := monotonic env (mono_reads w) in
  let started :=
    if Qle_bool (throttle_window_started_at (throttle self)) 0 then now
    else throttle_window_started_at (throttle self) in
  window_elapsed self started now = false ->
  should_drop_write_due_to_throttle env handle (self, w)
  = let t := window_started started (throttle self) in
    let w' := with_mono_reads w (S (mono_reads w)) in
    if writes_in_current_window (throttle self) >=? max_writes_per_second (config self)
    then (Ok true, (with_throttle self (write_dropped handle t), w'))
    else (Ok false, (with_throttle self (write_admitted t), w')).
Proof.
  intros now started Hopen.
  unfold should_drop_write_due_to_throttle.
  unfold mbind, M_bind, on_world, read_monotonic, get_self, update_throttle.
  cbn [fst snd]. fold now. fold started.
  change (window_elapsed (with_throttle self _) started now)
    with (window_elapsed self started now).
  rewrite Hopen. cbn.
  destruct (writes_in_current_window (throttle self)
              >=? max_writes_per_second (config self)); reflexivity.
Qed.

Lemma window_open_not_elapsed (self : LoggerRouter) (started now : Q) :
  (now - started < inject_Z (throttle_window_seconds (config self)))%Q ->
  window_elapsed self started now = false.
Proof.
  intros Hlt. unfold window_elapsed.
  destruct (Qle_bool _ _) eqn:E; [|reflexivity].
  apply Qle_bool_iff in E. exfalso. revert E. now apply Qlt_not_le.
Qed.

Lemma started_positive (started now : Q) :
  (0 < started)%Q -> (if Qle_bool started 0 then now else started) = started.
Proof.
  intros Hpos. destruct (Qle_bool started 0) eqn:E; [|reflexivity].
  apply Qle_bool_iff in E. exfalso. revert E. now apply Qlt_not_le.
Qed.

(** A check in an open window: the answer is a drop exactly if the
    admissions of the window have reached the cap, whatever the handle. *)
Lemma should_drop_open_window env handle self w :
  within_window env self w 1 ->
  should_drop_write_due_to_throttle env handle (self, w)
  = let w' := with_mono_reads w (S (mono_reads w)) in
    if max_writes_per_second (config self) <=? writes_in_current_window (throttle self)
    then (Ok true,
          (with_throttle self
             (write_dropped handle
                (window_started (throttle_window_started_at (throttle self))
                   (throttle self))), w'))
    else (Ok false,
          (with_throttle self
             (write_admitted
                (window_started (throttle_window_started_at (throttle self))
                   (throttle self))), w')).
Proof.
  intros (Hpos & Hin). specialize (Hin 0%nat ltac:(lia)).
  rewrite Nat.add_0_r in Hin.
  rewrite should_drop_in_window; rewrite (started_positive _ _ Hpos).
  - cbv zeta. now rewrite Z.geb_leb.
  - now apply window_open_not_elapsed.
Qed.

Lemma shared_budget_cons cap used n :
  shared_budget cap used (S n) = (cap <=? used) :: shared_budget cap (used + 1) n.
Proof.
  unfold shared_budget. cbn [seq map]. f_equal.
  - f_equal. lia.
  - rewrite <- seq_shift, List.map_map. apply map_ext. intros k. f_equal. lia.
Qed.

Lemma shared_budget_spent cap used n :
  cap <= used -> shared_budget cap (used + 1) n = shared_budget cap used n.
Proof.
  intros Hle. unfold shared_budget. apply map_ext. intros k.
  transitivity true; [|symmetry]; apply Z.leb_le; lia.
Qed.

Lemma admitted_to_shared_budget handle handles cap used :
  0 <= used ->
  admitted_to handle handles (shared_budget cap used (length handles))
  <= Z.max 0 (cap - used).
Proof.
  revert used. induction handles as [|h hs IH]; intros used Hused.
  - cbn. lia.
  - cbn [length]. rewrite shared_budget_cons. cbn [admitted_to].
    specialize (IH (used + 1) ltac:(lia)).
    destruct (cap <=? used) eqn:E.
    + rewrite andb_false_r. apply Z.leb_le in E. lia.
    + apply Z.leb_gt in E.
      destruct (bool_decide (h = handle)); cbn [andb negb]; lia.
Qed.

Lemma within_window_next env self self' w n :
  throttle_window_started_at (throttle self')
  = throttle_window_started_at (throttle self) ->
  config self' = config self ->
  within_window env self w (S n) ->
  within_window env self' (with_mono_reads w (S (mono_reads w))) n.
Proof.
  intros Hs Hc (Hpos & Hin). split; rewrite Hs; [exact Hpos|].
  intros k Hk. rewrite Hc. cbn [mono_reads with_mono_reads].
  replace (S (mono_reads w) + k)%nat with (mono_reads w + S k)%nat by lia.
  apply Hin. lia.
Qed.

Lemma within_window_first env self w n :
  within_window env self w (S n) -> within_window env self w 1.
Proof.
  intros (Hpos & Hin). split; [exact Hpos|]. intros k Hk. apply Hin. lia.
Qed.

Lemma throttle_checks_in_window env handles : forall self w,
  within_window env self w (length handles) ->
  exists s',
    throttle_checks env handles (self, w)
    = (Ok (shared_budget (max_writes_per_second (config self))
             (writes_in_current_window (throttle self)) (length handles)), s').
Proof.
  induction handles as [|h hs IH]; intros self w Hwin.
  - eexists. reflexivity.
  - cbn [length] in *. rewrite shared_budget_cons.
    cbn [throttle_checks]. unfold mbind at 1, M_bind at 1.
    rewrite (should_drop_open_window env h self w (within_window_first _ _ _ _ Hwin)).
    cbv zeta.
    destruct (max_writes_per_second (config self)
                <=? writes_in_current_window (throttle self)) eqn:E.
    + edestruct (IH (with_throttle self
                       (write_dropped h
                          (window_started (throttle_window_started_at (throttle self))
                             (throttle self))))
                    (with_mono_reads w (S (mono_reads w)))) as (s' & Hrun).
      { eapply within_window_next; [| |exact Hwin]; reflexivity. }
      exists s'. unfold mbind, M_bind. rewrite Hrun.
      cbn [config with_throttle throttle write_dropped writes_in_current_window
             window_started].
      rewrite shared_budget_spent by now apply Z.leb_le. reflexivity.
    + edestruct (IH (with_throttle self
                       (write_admitted
                          (window_started (throttle_window_started_at (throttle self))
                             (throttle self))))
                    (with_mono_reads w (S (mono_reads w)))) as (s' & Hrun).
      { eapply within_window_next; [| |exact Hwin]; reflexivity. }
      exists s'. unfold mbind, M_bind. rewrite Hrun. reflexivity.
Qed.




(** ** Registered facilities *)

Lemma dict_get_set_eq {V} k (v : V) d :
  is_Some (dict_get k d) -> dict_get k (dict_set k v d) = Some v.
Proof.
  induction d as [|[k' v'] d IH]; cbn [dict_get dict_set].
  - intros [x Hx]. discriminate Hx.
  - destruct (bool_decide (k' = k)) eqn:E; cbn [dict_get]; rewrite ?E; auto.
    now rewrite bool_decide_eq_true_2.
Qed.

Lemma dict_get_set_ne {V} k k' (v : V) d :
  k' <> k -> dict_get k' (dict_set k v d) = dict_get k' d.
Proof.
  intros Hne. induction d as [|[k0 v0] d IH]; cbn [dict_get dict_set].
  - now rewrite bool_decide_eq_false_2.
  - destruct (bool_decide (k0 = k)) eqn:E; cbn [dict_get].
    + apply bool_decide_eq_true_1 in E. subst k0.
      now rewrite !bool_decide_eq_false_2 by congruence.
    + now rewrite IH.
Qed.

Lemma dict_keys_set {V} k (v : V) d :
  is_Some (dict_get k d) -> dict_keys (dict_set k v d) = dict_keys d.
Proof.
  unfold dict_keys.
  induction d as [|[k' v'] d IH]; cbn [dict_get dict_set map fst].
  - intros [x Hx]. discriminate Hx.
  - destruct (bool_decide (k' = k)) eqn:E; cbn [map fst].
    + intros _. apply bool_decide_eq_true_1 in E. now subst.
    + intros H. now rewrite IH.
Qed.

(** ** Router: what a facility write leaves alone *)

Lemma keeps_clock_bind {S A B} (proj : S -> World) (m : M S A) (f : A -> M S B) :
  keeps_clock proj m -> (forall a, keeps_clock proj (f a)) ->
  keeps_clock proj (m ≫= f).
Proof.
  intros Hm Hf s. unfold mbind, M_bind. specialize (Hm s).
  destruct (m s) as [[a|e] s1]; cbn [snd] in *; [|exact Hm].
  rewrite Hf. exact Hm.
Qed.

Lemma keeps_clock_ret {S A} (proj : S -> World) (a : A) :
  keeps_clock proj (mret a).
Proof. intros s. reflexivity. Qed.

Lemma keeps_clock_raise {S A} (proj : S -> World) e :
  keeps_clock proj (raise e : M S A).
Proof. intros s. reflexivity. Qed.

Lemma keeps_clock_lift_res {S A} (proj : S -> World) (r : res A) :
  keeps_clock proj (lift_res r).
Proof. intros s. reflexivity. Qed.

Lemma keeps_clock_on_fs {A} (m : M FileSystem A) : keeps_clock id (on_fs m).
Proof. intros w. unfold on_fs. now destruct (m (fs w)). Qed.

Lemma keeps_clock_on_perf {A} (m : timed A) : keeps_clock id (on_perf m).
Proof. intros w. unfold on_perf. now destruct (m (perf_reads w)). Qed.

Lemma keeps_clock_on_world {Self A} (m : M World A) :
  keeps_clock id m -> keeps_clock (snd : Self * World -> World) (on_world m).
Proof.
  intros Hm s. unfold on_world. specialize (Hm (snd s)).
  now destruct (m (snd s)).
Qed.

Lemma keeps_clock_get_self {Self} :
  keeps_clock (snd : Self * World -> World) get_self.
Proof. intros s. reflexivity. Qed.

Lemma keeps_clock_set_self {Self} (self : Self) :
  keeps_clock (snd : Self * World -> World) (set_self self).
Proof. intros s. reflexivity. Qed.

Lemma keeps_clock_print_to to_stderr text : keeps_clock id (print_to to_stderr text).
Proof. intros w. reflexivity. Qed.

Lemma keeps_clock_read_now env : keeps_clock id (read_now env).
Proof. intros w. reflexivity. Qed.

Ltac solve_keeps_clock :=
  repeat first
    [ apply keeps_clock_bind; [|intros ?]
    | apply keeps_clock_ret
    | apply keeps_clock_raise
    | apply keeps_clock_lift_res
    | apply keeps_clock_on_world
    | apply keeps_clock_on_fs
    | apply keeps_clock_on_perf
    | apply keeps_clock_get_self
    | apply keeps_clock_set_self
    | apply keeps_clock_print_to
    | apply keeps_clock_read_now
    | match goal with
      | |- keeps_clock _ (if ?b then _ else _) => destruct b
      end ].

Lemma ConsoleFacility_write_keeps_clock env self record :
  keeps_clock id (ConsoleFacility_write env self record).
Proof. unfold ConsoleFacility_write. cbv zeta. solve_keeps_clock. Qed.

Lemma HtmlFileFacility_write_keeps_clock env record :
  keeps_clock snd (HtmlFileFacility_write env record).
Proof. unfold HtmlFileFacility_write. cbv zeta. solve_keeps_clock. Qed.

Lemma ConsoleFacility_write_keeps_fs env self record w :
  fs (snd (ConsoleFacility_write env self record w)) = fs w.
Proof.
  unfold ConsoleFacility_write. cbv zeta. unfold mbind, M_bind.
  destruct (negb (cf_color self)); [reflexivity|].
  unfold on_perf.
  destruct (colorize_lines _ _ _ _ _) as [[texts|e] k']; reflexivity.
Qed.

(** The console facility always writes: the time budget is handled
    inside. *)
Lemma colorize_line_with_budget_total env line record timeout k :
  exists text k', colorize_line_with_budget env line record timeout k = (Ok text, k').
Proof.
  unfold colorize_line_with_budget. unfold mbind at 1, M_bind at 1, read_perf.
  apply catch_timeout_total.
  - apply only_timeout_bind; [apply only_timeout_scan_line|].
    intros scans k2 e2 k3. unfold console_spans.
    destruct (console_chars _ _ _ _ _ _ _ _ _) as [[rendered|] k4]; discriminate.
  - intros k1. eexists _, _. reflexivity.
Qed.

Lemma colorize_lines_total env self record lines :
  forall k, exists texts k', colorize_lines env self record lines k = (Ok texts, k').
Proof.
  induction lines as [|line rest IH]; intros k; cbn [colorize_lines].
  - eexists _, _. reflexivity.
  - destruct (colorize_line_with_budget_total env line record
                (cf_colorize_timeout_ms self) k) as (text & k1 & E1).
    destruct (IH k1) as (texts & k2 & E2).
    exists (text :: texts), k2.
    erewrite run_bind by exact E1. erewrite run_bind by exact E2. reflexivity.
Qed.

Lemma ConsoleFacility_write_total env self record w :
  exists w', ConsoleFacility_write env self record w = (Ok tt, w').
Proof.
  unfold ConsoleFacility_write. cbv zeta.
  destruct (negb (cf_color self)).
  - eexists. erewrite run_bind by reflexivity. reflexivity.
  - match goal with
    | |- context [colorize_lines env self record ?l] =>
        destruct (colorize_lines_total env self record l (perf_reads w))
          as (texts & k' & E)
    end.
    eexists. erewrite run_bind.
    2:{ erewrite run_bind; [reflexivity|]. unfold on_perf. rewrite E. reflexivity. }
    reflexivity.
Qed.

Lemma console_diagnostic_keeps_clock env message_ :
  keeps_clock snd (console_diagnostic env message_).
Proof.
  unfold console_diagnostic.
  apply keeps_clock_bind; [apply keeps_clock_get_self|]. intros self.
  destruct (dict_get HANDLE_CONSOLE (facilities self)) as [[c|f|h]|];
    try apply keeps_clock_ret.
  apply keeps_clock_bind; [solve_keeps_clock|]. intros now.
  apply keeps_clock_on_world, ConsoleFacility_write_keeps_clock.
Qed.

Lemma console_diagnostic_unfold env message_ s :
  console_diagnostic env message_ s
  = match dict_get HANDLE_CONSOLE (facilities (fst s)) with
    | Some (Console console) =>
        let (r, w') :=
          ConsoleFacility_write env console
            {| message := message_; level := LEVEL_INFO; nature := NATURE_ERROR;
               timestamp := datetime_now env (now_reads (snd s)) |}
            (with_now_reads (snd s) (S (now_reads (snd s)))) in
        (r, (fst s, w'))
    | _ => (Ok tt, s)
    end.
Proof.
  unfold console_diagnostic. unfold mbind at 1, M_bind at 1, get_self at 1.
  destruct (dict_get HANDLE_CONSOLE (facilities (fst s))) as [[c|f|h]|];
    reflexivity.
Qed.

(** A diagnostic always returns, and touches only the console and the
    clocks it reads. *)
Lemma console_diagnostic_runs env message_ s :
  exists w',
    console_diagnostic env message_ s = (Ok tt, (fst s, w'))
    /\ mono_reads w' = mono_reads (snd s)
    /\ fs w' = fs (snd s).
Proof.
  pose proof (console_diagnostic_keeps_clock env message_ s) as Hclock.
  rewrite console_diagnostic_unfold in *.
  destruct (dict_get HANDLE_CONSOLE (facilities (fst s))) as [[c|f|h]|];
    try solve [exists (snd s); destruct s; repeat split].
  match goal with
  | |- context [ConsoleFacility_write env c ?r ?w] =>
      pose proof (ConsoleFacility_write_keeps_fs env c r w) as Hfs;
      destruct (ConsoleFacility_write_total env c r w) as (w' & E)
  end.
  rewrite E in *. cbn [fst snd] in *.
  exists w'. repeat split; [exact Hclock | exact Hfs].
Qed.

(** A facility write leaves the configuration, the throttle, the monotonic
    clock and the set of handles as they are. *)
Lemma facility_write_frame env handle facility record s r s1 :
  facility_write env handle facility record s = (r, s1) ->
  config (fst s1) = config (fst s)
  /\ throttle (fst s1) = throttle (fst s)
  /\ mono_reads (snd s1) = mono_reads (snd s)
  /\ (is_Some (dict_get handle (facilities (fst s))) ->
      is_Some (dict_get handle (facilities (fst s1)))).
Proof.
  unfold facility_write. destruct facility as [c|f|h].
  - intros E.
    pose proof (keeps_clock_on_world (Self := LoggerRouter) _
                  (ConsoleFacility_write_keeps_clock env c record) s) as Hk.
    unfold on_world in *. destruct (ConsoleFacility_write env c record (snd s)).
    injection E as <- <-. cbn [fst snd] in *. eauto.
  - intros E.
    pose proof (keeps_clock_on_world (Self := LoggerRouter) _
                  (keeps_clock_on_fs (FileFacility_write f record)) s) as Hk.
    unfold on_world in *. destruct (on_fs (FileFacility_write f record) (snd s)).
    injection E as <- <-. cbn [fst snd] in *. eauto.
  - intros E.
    pose proof (HtmlFileFacility_write_keeps_clock env record (h, snd s)) as Hk.
    destruct (HtmlFileFacility_write env record (h, snd s)) as [r' [h' w']].
    injection E as <- <-. cbn [fst snd] in *.
    repeat split; [exact Hk|]. intros Hsome.
    cbn [with_facilities facilities].
    rewrite dict_get_set_eq; [eauto|exact Hsome].
Qed.

(** The [try] statement around a facility write always returns, and leaves
    the same things as they are. *)
Lemma deliver_runs env handle facility record s :
  exists s1,
    deliver env handle facility record s = (Ok tt, s1)
    /\ config (fst s1) = config (fst s)
    /\ throttle (fst s1) = throttle (fst s)
    /\ mono_reads (snd s1) = mono_reads (snd s)
    /\ (is_Some (dict_get handle (facilities (fst s))) ->
        is_Some (dict_get handle (facilities (fst s1)))).
Proof.
  unfold deliver, try_except.
  destruct (facility_write env handle facility record s) as [[[]|e] s1] eqn:E;
    pose proof (facility_write_frame _ _ _ _ _ _ _ E) as (Hc & Ht & Hm & Hreg).
  - exists s1. repeat split; assumption.
  - assert (Hdiag : forall message_,
              exists s2, console_diagnostic env message_ s1 = (Ok tt, s2)
                         /\ fst s2 = fst s1
                         /\ mono_reads (snd s2) = mono_reads (snd s1)).
    { intros message_.
      destruct (console_diagnostic_runs env message_ s1) as (w' & Hrun & Hm' & _).
      eexists. split; [exact Hrun|]. split; [reflexivity | exact Hm']. }
    destruct (is_security_incident e);
      match goal with
      | |- context [console_diagnostic env ?m s1] =>
          destruct (Hdiag m) as (s2 & -> & Hself & Hm2)
      end;
      exists s2; rewrite Hself, Hm2; repeat split; assumption.
Qed.

(** ** Router: [log] *)

Lemma resolve_single self handle fac :
  0 < max_log_handles_per_call (config self) ->
  dict_get handle (facilities self) = Some fac ->
  resolve_handles self (Some [handle]) = Ok [handle].
Proof.
  intros Hmax Hget. unfold resolve_handles.
  replace (len [handle] >? max_log_handles_per_call (config self)) with false.
  2:{ symmetry. rewrite Z.gtb_ltb. apply Z.ltb_ge. unfold len. cbn [length]. lia. }
  cbn [List.filter]. rewrite Hget.
  rewrite bool_decide_eq_true_2 by eauto. reflexivity.
Qed.

(** A call of [log] for one registered handle at a level that passes. *)
Lemma log_single env self w message_ level_ nature_ handle fac :
  level_priority (logger_level (config self)) <= level_priority level_ ->
  0 < max_log_handles_per_call (config self) ->
  dict_get handle (facilities self) = Some fac ->
  log env message_ level_ nature_ (Some [handle]) (self, w)
  = log_loop env
      {| message := prepare_message (limits (config self)) message_;
         level := level_; nature := nature_;
         timestamp := datetime_now env (now_reads w) |}
      [handle] (self, with_now_reads w (S (now_reads w))).
Proof.
  intros Hlevel Hmax Hget. unfold log.
  unfold mbind at 1, M_bind at 1, get_self at 1. cbn [fst].
  replace (level_priority level_ <? level_priority (logger_level (config self)))
    with false by (symmetry; now apply Z.ltb_ge).
  rewrite (resolve_single self handle fac Hmax Hget).
  reflexivity.
Qed.

(** A call of [log] whose one write the throttle drops changes nothing but
    the counters and the clocks. *)
Lemma log_single_dropped env self w message_ level_ nature_ handle fac :
  level_priority (logger_level (config self)) <= level_priority level_ ->
  0 < max_log_handles_per_call (config self) ->
  dict_get handle (facilities self) = Some fac ->
  within_window env self w 1 ->
  max_writes_per_second (config self) <= writes_in_current_window (throttle self) ->
  log env message_ level_ nature_ (Some [handle]) (self, w)
  = (Ok tt,
     (with_throttle self
        (write_dropped handle
           (window_started (throttle_window_started_at (throttle self))
              (throttle self))),
      with_mono_reads (with_now_reads w (S (now_reads w))) (S (mono_reads w)))).
Proof.
  intros Hlevel Hmax Hget Hwin Hfull.
  rewrite (log_single env self w message_ level_ nature_ handle fac) by assumption.
  cbn [log_loop]. unfold mbind at 1, M_bind at 1.
  rewrite should_drop_open_window by exact Hwin.
  cbv zeta. rewrite (proj2 (Z.leb_le _ _) Hfull). reflexivity.
Qed.

Lemma window_just_opened (self : LoggerRouter) (now : Q) :
  0 < throttle_window_seconds (config self) ->
  window_elapsed self now now = false.
Proof.
  intros Hpos. apply window_open_not_elapsed.
  unfold Qminus. rewrite Qplus_opp_r.
  unfold Qlt, inject_Z. cbn. lia.
Qed.

(** The first write of a new router is admitted and opens the window. *)
Lemma should_drop_first env handle self w :
  throttle self = fresh_throttle ->
  0 < throttle_window_seconds (config self) ->
  0 < max_writes_per_second (config self) ->
  should_drop_write_due_to_throttle env handle (self, w)
  = (Ok false,
     (with_throttle self (first_admission (monotonic env (mono_reads w))),
      with_mono_reads w (S (mono_reads w)))).
Proof.
  intros Hfresh Hwindow Hcap.
  rewrite should_drop_in_window; rewrite Hfresh; cbn [fresh_throttle
    throttle_window_started_at writes_in_current_window]; cbn [Qle_bool Qnum Qden Z.leb Z.mul Z.compare Pos.mul].
  - cbv zeta.
    replace (0 >=? max_writes_per_second (config self)) with false; [reflexivity|].
    symmetry. rewrite Z.geb_leb. apply Z.leb_gt. lia.
  - now apply window_just_opened.
Qed.



(** The sample router is a new instance with the plain file registered. *)
Example sample_router_is_new :
  (new ← LoggerRouter_init LEVEL_INFO false 32768 500 4096 64 15 10485760 256 1
           60 209715200;
   Ok (with_facilities new
         (dict_set (py "app") (File sample_file_facility) (facilities new))))
  = Ok sample_router.
Proof. reflexivity. Qed.

(** The budget is one for all handles also in a single call of [log]: with
    one write per window, a record for all handles goes to the console, and
    the write to the file is dropped. *)
Example log_shares_the_budget :
  let r := log sample_env (py "hello") LEVEL_INFO NATURE_INFO None
             (sample_router, sample_world) in
  fst r = Ok tt
  /\ stdout (snd (snd r)) = [py "[03:04:05] " ++ [0xC2; 0xBB]%N ++ py " hello" ++ [LF]]
  /\ fs (snd (snd r)) = sample_fs
  /\ get_throttle_stats (fst (snd r)) = (1, {[py "app" := 1]}).
Proof. vm_compute. repeat split. Qed.

(** ** Router: registration *)

Lemma register_replaces self w handle old facility :
  dict_get handle (facilities self) = Some old ->
  exists self',
    register handle facility (self, w) = (Ok tt, (self', w))
    /\ replaced self self' handle facility.
Proof.
  intros Hget. eexists. split; [reflexivity|].
  cbn [fst with_facilities]. unfold replaced. cbn [facilities config throttle].
  assert (Hsome : is_Some (dict_get handle (facilities self))) by (rewrite Hget; eauto).
  repeat split.
  - now apply dict_get_set_eq.
  - now apply dict_keys_set.
  - intros other Hne. now apply dict_get_set_ne.
Qed.

Lemma validate_facility_params_ok handle keep :
  handle <> HANDLE_CONSOLE -> 0 <= keep ->
  validate_facility_params handle keep = Ok tt.
Proof.
  intros Hne Hkeep. unfold validate_facility_params.
  rewrite bool_decide_eq_false_2 by exact Hne.
  now rewrite (proj2 (Z.ltb_ge _ _) Hkeep).
Qed.

Lemma recover_construction_ok {A} env what handle path (m : M FileSystem A)
    (self : LoggerRouter) w a fs' :
  m (fs w) = (Ok a, fs') ->
  recover_construction env what handle path (on_world (on_fs m)) (self, w)
  = (Ok (Some a), (self, with_fs w fs')).
Proof.
  intros E. unfold recover_construction, try_except, mbind, M_bind.
  rewrite (run_on_fs m self w _ _ E). reflexivity.
Qed.

(** A construction that fails does not end in [True]. *)
Lemma recover_construction_failed {A} env what handle path (m : M FileSystem A)
    (self : LoggerRouter) w e fs' :
  m (fs w) = (Raise e, fs') ->
  forall a s', recover_construction env what handle path (on_world (on_fs m)) (self, w)
               <> (Ok (Some a), s').
Proof.
  intros E a s'. unfold recover_construction, try_except.
  unfold mbind at 1, M_bind at 1.
  rewrite (run_on_fs m self w _ _ E).
  destruct (is_ValueError e || bool_decide (e = UnsafeLogTargetError)).
  - discriminate.
  - unfold mbind, M_bind.
    destruct (console_diagnostic env _ _) as [[[]|e'] s'']; discriminate.
Qed.

(** The registration after a construction. *)
Lemma registration_outcome {A} env what handle path (m : M FileSystem A)
    (inject : A -> Facility) (self : LoggerRouter) (w : World) old :
  dict_get handle (facilities self) = Some old ->
  let built := m (fs w) in
  let out :=
    (created ← recover_construction env what handle path (on_world (on_fs m));
     match created with
     | None => mret false
     | Some facility => _ ← register handle (inject facility); mret true
     end) (self, w) in
  (fst out = Ok true <-> exists facility, fst built = Ok facility)
  /\ (forall facility,
        fst built = Ok facility ->
        exists self',
          out = (Ok true, (self', with_fs w (snd built)))
          /\ replaced self self' handle (inject facility)).
Proof.
  intros Hget built out.
  assert (Hok : forall facility,
             fst built = Ok facility ->
             exists self',
               out = (Ok true, (self', with_fs w (snd built)))
               /\ replaced self self' handle (inject facility)).
  { intros facility Hbuilt.
    destruct (register_replaces self (with_fs w (snd built)) handle old
                (inject facility) Hget) as (self' & Hreg & Hrep).
    exists self'. split; [|exact Hrep].
    subst out. unfold mbind at 1, M_bind at 1.
    rewrite (recover_construction_ok env what handle path m self w facility (snd built)).
    - unfold mbind, M_bind. rewrite Hreg. reflexivity.
    - subst built. destruct (m (fs w)) as [r x]. cbn [fst snd] in *. now subst r. }
  split; [|exact Hok]. split.
  - intros Hout. destruct built as [[facility|e] x] eqn:Hbuilt; [eauto|].
    exfalso. subst out. revert Hout. unfold mbind at 1, M_bind at 1.
    pose proof (recover_construction_failed env what handle path m self w e x Hbuilt)
      as Hfail.
    destruct (recover_construction env what handle path (on_world (on_fs m)) (self, w))
      as [[[a|]|e'] s']; cbn [fst]; try discriminate.
    now destruct (Hfail a s').
  - intros (facility & Hbuilt). destruct (Hok facility Hbuilt) as (self' & -> & _).
    reflexivity.
Qed.



(* ===================================================================== *)
(** * Part III. Further properties of the code                            *)
(* ===================================================================== *)

(** ** Line endings and control characters *)

Lemma replace_cr_no_cr s : no_cr (replace_from [CR] [LF] 0 s).
Proof.
  induction s as [|c r IH]; cbn [replace_from starts_with]; [constructor|].
  rewrite andb_true_r. destruct (N.eqb_spec CR c) as [E|E].
  - cbn [length Nat.sub app]. constructor; [discriminate|exact IH].
  - constructor; [congruence|exact IH].
Qed.

Lemma replace_from_absent old new s :
  (forall t, starts_with old t = true -> t = [] \/ exists c r, t = c :: r /\ c = CR) ->
  no_cr s -> replace_from old new 0 s = s.
Proof.
  intros Hold. induction 1 as [|c r Hc Hr IH]; cbn [replace_from]; [reflexivity|].
  destruct (starts_with old (c :: r)) eqn:E.
  - destruct (Hold _ E) as [Hnil|(c' & r' & Heq & Hcr)]; [discriminate|].
    injection Heq as -> ->. contradiction.
  - now rewrite IH.
Qed.

Lemma starts_with_crlf t :
  starts_with [CR; LF] t = true -> t = [] \/ exists c r, t = c :: r /\ c = CR.
Proof.
  destruct t as [|c r]; [now left|]. cbn [starts_with]. intros H.
  apply andb_true_iff in H as [H _]. apply N.eqb_eq in H. right. eauto.
Qed.

Lemma starts_with_cr t :
  starts_with [CR] t = true -> t = [] \/ exists c r, t = c :: r /\ c = CR.
Proof.
  destruct t as [|c r]; [now left|]. cbn [starts_with]. intros H.
  apply andb_true_iff in H as [H _]. apply N.eqb_eq in H. right. eauto.
Qed.

Lemma normalize_newlines_no_cr text : no_cr (normalize_newlines text).
Proof. apply replace_cr_no_cr. Qed.

Lemma normalize_newlines_fixed text :
  no_cr text -> normalize_newlines text = text.
Proof.
  intros H. unfold normalize_newlines, str_replace.
  rewrite (replace_from_absent [CR; LF]) by (apply starts_with_crlf || exact H).
  now apply replace_from_absent; [apply starts_with_cr|].
Qed.

(** X1: [normalize_newlines] leaves no carriage return in a text, returns a
    text without one unchanged, and so does nothing when applied again. *)
Theorem normalize_newlines_spec (text : pystr) :
  no_cr (normalize_newlines text)
  /\ (no_cr text -> normalize_newlines text = text)
  /\ normalize_newlines (normalize_newlines text) = normalize_newlines text.
Proof.
  split; [apply normalize_newlines_no_cr|]. split.
  - apply normalize_newlines_fixed.
  - apply normalize_newlines_fixed, normalize_newlines_no_cr.
Qed.

Lemma normalize_newlines_spec_witness :
  normalize_newlines (py "a" ++ [LF] ++ py "b") = py "a" ++ [LF] ++ py "b".
Proof.
  apply (proj1 (proj2 (normalize_newlines_spec (py "a" ++ [LF] ++ py "b")))).
  repeat constructor; discriminate.
Defined.

Lemma join_split_on sep s : join [sep] (split_on sep s) = s.
Proof.
  induction s as [|c r IH]; [reflexivity|]. cbn [split_on].
  destruct (N.eqb_spec c sep) as [->|Hne].
  - pose proof (split_on_nonempty sep r) as Hn.
    destruct (split_on sep r) as [|l ls] eqn:E; [congruence|].
    change (join [sep] ([] :: l :: ls)) with (sep :: join [sep] (l :: ls)).
    now rewrite IH.
  - pose proof (split_on_nonempty sep r) as Hn.
    destruct (split_on sep r) as [|l ls] eqn:E; [congruence|].
    destruct ls as [|l' ls']; cbn [join] in *; now rewrite <- IH.
Qed.

Lemma split_on_pieces_no_cr sep s : no_cr s -> Forall no_cr (split_on sep s).
Proof.
  induction 1 as [|c r Hc Hr IH]; cbn [split_on].
  - repeat constructor.
  - destruct (c =? sep)%N.
    + constructor; [constructor|exact IH].
    + destruct (split_on sep r) as [|l ls]; [repeat constructor; assumption|].
      inversion IH; subst. constructor; [constructor; assumption|assumption].
Qed.

(** X2: [split_console_lines] never returns the empty list, its pieces
    contain neither a line feed nor a carriage return, and joined by line
    feeds they give the text with its line endings normalised. *)
Theorem split_console_lines_spec (text : pystr) :
  split_console_lines text <> []
  /\ Forall (fun line => no_newline line /\ no_cr line) (split_console_lines text)
  /\ join [LF] (split_console_lines text) = normalize_newlines text.
Proof.
  unfold split_console_lines. split; [apply split_on_nonempty|]. split.
  - apply Forall_and. split; [apply split_on_pieces|].
    apply split_on_pieces_no_cr, normalize_newlines_no_cr.
  - apply join_split_on.
Qed.

Lemma plain_char_not_cr c : plain_char c = true -> c <> CR.
Proof. intros H ->. discriminate H. Qed.

Lemma normalize_for_html_plain text :
  Forall (fun c => plain_char c = true /\ c ∉ BIDI_CONTROL_CODEPOINTS)
    (normalize_for_html text).
Proof.
  unfold normalize_for_html. apply Forall_map, Forall_true. intros c.
  unfold plain_char.
  destruct (c =? LF)%N eqn:Elf.
  { apply N.eqb_eq in Elf. subst c. split; [reflexivity|]. vm_compute. congruence. }
  destruct (c =? TAB)%N eqn:Etab.
  { apply N.eqb_eq in Etab. subst c. split; [reflexivity|]. vm_compute. congruence. }
  cbn [orb]. destruct (is_c0_or_c1 c) eqn:Ec; cbn [orb negb].
  - split; [reflexivity|]. vm_compute. congruence.
  - destruct (bool_decide (c ∈ BIDI_CONTROL_CODEPOINTS)) eqn:Eb.
    + split; [reflexivity|]. vm_compute. congruence.
    + rewrite Elf, Etab, Ec. split; [reflexivity|].
      now apply bool_decide_eq_false_1 in Eb.
Qed.

Lemma map_fixed {A} (f : A -> A) (l : list A) :
  Forall (fun a => f a = a) l -> map f l = l.
Proof. induction 1; cbn [map]; congruence. Qed.

Lemma normalize_for_html_fixed text :
  Forall (fun c => plain_char c = true /\ c ∉ BIDI_CONTROL_CODEPOINTS) text ->
  normalize_for_html text = text.
Proof.
  intros H.
  unfold normalize_for_html. rewrite normalize_newlines_fixed.
  - apply map_fixed. eapply Forall_impl; [exact H|]. intros c (Hp & Hb).
    unfold plain_char in Hp.
    destruct (c =? LF)%N; [reflexivity|]. destruct (c =? TAB)%N; [reflexivity|].
    cbn [orb] in *. apply negb_true_iff in Hp. rewrite Hp.
    now rewrite bool_decide_eq_false_2.
  - eapply Forall_impl; [exact H|]. intros c (Hp & _). now apply plain_char_not_cr.
Qed.

(** X3: the text [normalize_for_html] returns has no C0 or C1 control
    character other than line feed and tab and no bidirectional control
    character; a text that has none (and no carriage return) is returned
    unchanged. *)
Theorem normalize_for_html_spec (text : pystr) :
  Forall (fun c => plain_char c = true /\ c ∉ BIDI_CONTROL_CODEPOINTS)
    (normalize_for_html text)
  /\ (Forall (fun c => plain_char c = true /\ c ∉ BIDI_CONTROL_CODEPOINTS) text ->
      normalize_for_html text = text).
Proof. split; [apply normalize_for_html_plain|apply normalize_for_html_fixed]. Qed.

Lemma normalize_for_html_spec_witness :
  normalize_for_html (py "a=1") = py "a=1".
Proof.
  apply (proj2 (normalize_for_html_spec (py "a=1"))).
  repeat constructor; vm_compute; congruence.
Defined.

Lemma normalize_for_terminal_plain text :
  Forall (fun c => plain_char c = true) (normalize_for_terminal text).
Proof.
  unfold normalize_for_terminal.
  apply Forall_map, Forall_true. intros c. unfold plain_char.
  destruct (c =? LF)%N eqn:Elf.
  { apply N.eqb_eq in Elf. now subst c. }
  destruct (c =? TAB)%N eqn:Etab.
  { apply N.eqb_eq in Etab. now subst c. }
  cbn [orb]. destruct (is_c0_or_c1 c) eqn:Ec; [reflexivity|].
  now rewrite Elf, Etab, Ec.
Qed.

(** X4: the text [normalize_for_terminal] returns has no C0 or C1 control
    character other than line feed and tab, so no escape character; a text
    that has none (and no carriage return) is returned unchanged. *)
Theorem normalize_for_terminal_spec (text : pystr) :
  Forall (fun c => plain_char c = true) (normalize_for_terminal text)
  /\ (Forall (fun c => plain_char c = true) text ->
      normalize_for_terminal text = text).
Proof.
  split; [apply normalize_for_terminal_plain|].
  unfold normalize_for_terminal.
  intros H. rewrite normalize_newlines_fixed.
  + apply map_fixed. eapply Forall_impl; [exact H|]. intros c Hp.
    unfold plain_char in Hp.
    destruct (c =? LF)%N; [reflexivity|]. destruct (c =? TAB)%N; [reflexivity|].
    cbn [orb] in *. apply negb_true_iff in Hp. now rewrite Hp.
  + eapply Forall_impl; [exact H|]. intros c Hp. now apply plain_char_not_cr.
Qed.

Lemma normalize_for_terminal_spec_witness :
  normalize_for_terminal (py "a=1") = py "a=1".
Proof.
  apply (proj2 (normalize_for_terminal_spec (py "a=1"))).
  repeat constructor.
Defined.

Lemma html_escape_char_safe c :
  Forall (fun d => (d =? 60)%N || (d =? 62)%N || (d =? DQUOTE)%N || (d =? SQUOTE)%N = false)
    (html_escape_char c).
Proof.
  unfold html_escape_char.
  destruct (c =? 38)%N eqn:E1; [repeat constructor|].
  destruct (c =? 60)%N eqn:E2; [repeat constructor|].
  destruct (c =? 62)%N eqn:E3; [repeat constructor|].
  destruct (c =? DQUOTE)%N eqn:E4; [repeat constructor|].
  destruct (c =? SQUOTE)%N eqn:E5; [repeat constructor|].
  constructor; [|constructor]. now rewrite E2, E3, E4, E5.
Qed.

(** X5: the text [escape_html_strict] returns has no [<], [>], double or
    single quote, and no control character that [normalize_for_html]
    removes; a text without markup and control characters is returned
    unchanged. *)
Theorem escape_html_strict_spec (text : pystr) :
  Forall (fun c => (c =? 60)%N || (c =? 62)%N || (c =? DQUOTE)%N || (c =? SQUOTE)%N = false
                   /\ plain_char c = true /\ c ∉ BIDI_CONTROL_CODEPOINTS)
    (escape_html_strict text)
  /\ (Forall (fun c => markup_char c = false
                       /\ plain_char c = true /\ c ∉ BIDI_CONTROL_CODEPOINTS) text ->
      escape_html_strict text = text).
Proof.
  unfold escape_html_strict, html_escape. split.
  - pose proof (normalize_for_html_plain text) as H.
    induction H as [|c r (Hp & Hb) Hr IH]; cbn [flat_map]; [constructor|].
    apply Forall_app. split; [|exact IH].
    pose proof (html_escape_char_safe c) as Hsafe.
    unfold html_escape_char in *.
    destruct (c =? 38)%N; [repeat constructor; vm_compute; congruence|].
    destruct (c =? 60)%N; [repeat constructor; vm_compute; congruence|].
    destruct (c =? 62)%N; [repeat constructor; vm_compute; congruence|].
    destruct (c =? DQUOTE)%N; [repeat constructor; vm_compute; congruence|].
    destruct (c =? SQUOTE)%N; [repeat constructor; vm_compute; congruence|].
    inversion Hsafe; subst. repeat constructor; assumption.
  - intros H.
    rewrite normalize_for_html_fixed.
    + induction H as [|c r (Hm & _) Hr IH]; cbn [flat_map]; [reflexivity|].
      rewrite IH. unfold html_escape_char, markup_char in *.
      destruct (c =? 38)%N; [discriminate|]. destruct (c =? 60)%N; [discriminate|].
      destruct (c =? 62)%N; [discriminate|]. destruct (c =? DQUOTE)%N; [discriminate|].
      destruct (c =? SQUOTE)%N; [discriminate|]. reflexivity.
    + eapply Forall_impl; [exact H|]. now intros c (_ & Hp & Hb).
Qed.

Lemma escape_html_strict_spec_witness :
  escape_html_strict (py "a=1") = py "a=1".
Proof.
  apply (proj2 (escape_html_strict_spec (py "a=1"))).
  repeat constructor; vm_compute; congruence.
Defined.

(** ** One line per record in the plain file *)

Lemma isspace_lf : isspace LF = true.
Proof. reflexivity. Qed.

Lemma collapse_from_clean run s :
  no_cr run -> no_cr s ->
  no_newline (collapse_from run s) /\ no_cr (collapse_from run s).
Proof.
  revert run. induction s as [|c r IH]; intros run Hrun Hs; cbn [collapse_from].
  - unfold flush_run. destruct (existsb (N.eqb LF) run) eqn:E.
    + split; repeat constructor; discriminate.
    + split; [|exact Hrun]. apply List.Forall_forall. intros d Hd ->.
      apply not_true_iff_false in E. apply E. apply existsb_exists.
      exists LF. split; [exact Hd|reflexivity].
  - inversion Hs as [|? ? Hc Hr]; subst.
    destruct (isspace c) eqn:Ec.
    + apply IH; [|exact Hr]. apply Forall_app. split; [exact Hrun|].
      repeat constructor. exact Hc.
    + destruct (IH [] ltac:(constructor) Hr) as (IH1 & IH2).
      assert (Hflush : no_newline (flush_run run) /\ no_cr (flush_run run)).
      { unfold flush_run. destruct (existsb (N.eqb LF) run) eqn:E.
        - split; repeat constructor; discriminate.
        - split; [|exact Hrun]. apply List.Forall_forall. intros d Hd ->.
          apply not_true_iff_false in E. apply E. apply existsb_exists.
          exists LF. split; [exact Hd|reflexivity]. }
      destruct Hflush as (F1 & F2). split; apply Forall_app; split; try assumption;
        constructor; try assumption.
      intros ->. discriminate Ec.
Qed.

Lemma collapse_from_flat run s :
  no_newline run -> no_newline s -> collapse_from run s = run ++ s.
Proof.
  revert run. induction s as [|c r IH]; intros run Hrun Hs; cbn [collapse_from].
  - rewrite app_nil_r. unfold flush_run.
    destruct (existsb (N.eqb LF) run) eqn:E; [|reflexivity].
    apply existsb_exists in E as (d & Hd & Hlf). apply N.eqb_eq in Hlf. subst d.
    unfold no_newline in Hrun. rewrite List.Forall_forall in Hrun.
    now destruct (Hrun LF Hd).
  - inversion Hs as [|? ? Hc Hr]; subst.
    destruct (isspace c).
    + rewrite IH; [now rewrite <- app_assoc| |exact Hr].
      apply Forall_app. split; [exact Hrun|]. repeat constructor. exact Hc.
    + rewrite (IH [] ltac:(constructor) Hr). cbn [app]. f_equal.
      unfold flush_run.
      destruct (existsb (N.eqb LF) run) eqn:E; [|reflexivity].
      apply existsb_exists in E as (d & Hd & Hlf). apply N.eqb_eq in Hlf. subst d.
      unfold no_newline in Hrun. rewrite List.Forall_forall in Hrun.
      now destruct (Hrun LF Hd).
Qed.

(** What [lstrip] cuts off is a prefix of whitespace. *)
Lemma lstrip_suffix s :
  exists blanks, s = blanks ++ lstrip s /\ nonspace_start (lstrip s).
Proof.
  induction s as [|c r (blanks & IH & Hstart)]; cbn [lstrip].
  - exists []. split; [reflexivity|exact I].
  - destruct (isspace c) eqn:E.
    + exists (c :: blanks). split; [now rewrite IH at 1|exact Hstart].
    + exists []. split; [reflexivity|exact E].
Qed.

Lemma lstrip_fixed s : nonspace_start s -> lstrip s = s.
Proof. destruct s as [|c r]; [reflexivity|]. cbn. now intros ->. Qed.

Lemma nonspace_start_prefix a b : a <> [] -> nonspace_start (a ++ b) -> nonspace_start a.
Proof. destruct a; [congruence|]. intros _ H. exact H. Qed.

Lemma strip_ends s :
  nonspace_start (strip s) /\ nonspace_start (rev (strip s)).
Proof.
  unfold strip. destruct (lstrip_suffix s) as (b1 & E1 & H1).
  destruct (lstrip_suffix (rev (lstrip s))) as (b2 & E2 & H2).
  rewrite rev_involutive. split; [|exact H2].
  set (a := lstrip s) in *. set (b := lstrip (rev a)) in *.
  assert (Ea : a = rev b ++ rev b2).
  { rewrite <- (rev_involutive a), E2, rev_app_distr. reflexivity. }
  destruct (rev b) as [|c r] eqn:Eb; [exact I|].
  rewrite Ea in H1. exact H1.
Qed.

Lemma strip_fixed s :
  nonspace_start s -> nonspace_start (rev s) -> strip s = s.
Proof.
  intros H1 H2. unfold strip. rewrite (lstrip_fixed s H1), (lstrip_fixed _ H2).
  apply rev_involutive.
Qed.

Lemma strip_sublist (P : char -> Prop) s : Forall P s -> Forall P (strip s).
Proof.
  intros H. unfold strip.
  assert (Hl : forall t, Forall P t -> Forall P (lstrip t)).
  { intros t Ht. destruct (lstrip_suffix t) as (b & E & _).
    rewrite E in Ht. now apply Forall_app in Ht. }
  apply Forall_rev, Hl, Forall_rev, Hl, H.
Qed.

Lemma flatten_message_clean text :
  no_newline (flatten_message text) /\ no_cr (flatten_message text).
Proof.
  rewrite flatten_message_spec.
  destruct (collapse_from_clean [] (normalize_newlines text) ltac:(constructor)
              (normalize_newlines_no_cr text)) as (Hlf & Hcr).
  split; now apply strip_sublist.
Qed.

(** X6: the text [flatten_message] returns is one line without blanks
    around it: it has no line feed and no carriage return, and it neither
    begins nor ends with whitespace; a text that is like that is returned
    unchanged. *)
Theorem flatten_message_single_line (text : pystr) :
  no_newline (flatten_message text)
  /\ no_cr (flatten_message text)
  /\ nonspace_start (flatten_message text)
  /\ nonspace_start (rev (flatten_message text))
  /\ (no_newline text -> no_cr text ->
      nonspace_start text -> nonspace_start (rev text) ->
      flatten_message text = text).
Proof.
  rewrite flatten_message_spec.
  destruct (collapse_from_clean [] (normalize_newlines text) ltac:(constructor)
              (normalize_newlines_no_cr text)) as (Hlf & Hcr).
  split; [now apply strip_sublist|]. split; [now apply strip_sublist|].
  split; [apply strip_ends|]. split; [apply strip_ends|].
  intros H1 H2 H3 H4. rewrite (normalize_newlines_fixed text H2).
  unfold collapse_newline_runs.
  rewrite (collapse_from_flat [] text ltac:(constructor) H1).
  now apply strip_fixed.
Qed.

Lemma flatten_message_single_line_witness :
  flatten_message (py "a b") = py "a b".
Proof.
  apply (proj2 (proj2 (proj2 (proj2 (flatten_message_single_line (py "a b"))))));
    try (repeat constructor; discriminate); reflexivity.
Defined.

Lemma shape_ok_clean pattern : forall s,
  shape_ok pattern s = true ->
  Forall (fun p => p <> LF /\ p <> CR) pattern ->
  no_newline s /\ no_cr s.
Proof.
  induction pattern as [|p pattern IH]; intros [|c s] H Hp; try discriminate.
  - split; constructor.
  - cbn [shape_ok] in H. apply andb_true_iff in H as (Hc & Hs).
    inversion Hp as [|? ? (Hp1 & Hp2) Hp']; subst.
    destruct (IH s Hs Hp') as (I1 & I2).
    assert (c <> LF /\ c <> CR) as (C1 & C2).
    { destruct (p =? 100)%N.
      - apply andb_true_iff in Hc as (Hlo & Hhi). apply N.leb_le in Hlo.
        split; intros ->; discriminate Hlo || (vm_compute in Hlo; congruence).
      - apply N.eqb_eq in Hc. now subst c. }
    split; constructor; assumption.
Qed.

(** X7: the line [FileFacility.write] builds for a record is one line: it
    ends with a line feed and has no other line feed and no carriage
    return, whatever the message holds. *)
Theorem file_line_single_line (record : LogRecord) :
  exists body,
    file_line record = body ++ [LF] /\ no_newline body /\ no_cr body.
Proof.
  unfold file_line. eexists. split.
  { rewrite !app_assoc. reflexivity. }
  destruct (shape_ok_clean _ _ (strftime_datetime_shape (timestamp record)))
    as (T1 & T2).
  { repeat constructor; discriminate. }
  destruct (flatten_message_clean (message record)) as (F1 & F2).
  assert (N1 : no_newline (nature_str (nature record)) /\ no_cr (nature_str (nature record))).
  { destruct (nature record); split; repeat constructor; discriminate. }
  destruct N1 as (N1 & N2).
  generalize dependent (strftime_datetime (timestamp record)).
  generalize dependent (nature_str (nature record)).
  generalize dependent (flatten_message (message record)).
  intros flat F1 F2 nat N1 N2 stamp T1 T2.
  split; repeat (apply Forall_app; split); try assumption;
    repeat constructor; discriminate.
Qed.

(** ** Message preparation: bounds *)

Lemma len_slice_to {A} (l : list A) n : 0 <= n -> len (slice_to l n) <= n.
Proof.
  intros Hn. unfold slice_to, len.
  destruct (Z.ltb_spec n 0); [lia|]. rewrite length_take. lia.
Qed.

Lemma len_app {A} (a b : list A) : len (a ++ b) = len a + len b.
Proof. unfold len. rewrite length_app. lia. Qed.

Lemma join_single_line l : no_newline l -> split_on LF l = [l].
Proof. apply split_on_no_sep. Qed.

Lemma clip_message_fits lim s :
  len s <= max_message_length lim -> clip_message lim s = s.
Proof.
  intros H. unfold clip_message.
  now destruct (Z.gtb_spec (len s) (max_message_length lim)); [lia|].
Qed.

Lemma drop_lines_fits lim ls :
  len ls <= max_message_lines lim -> drop_lines lim ls = ls.
Proof.
  intros H. unfold drop_lines.
  now destruct (Z.gtb_spec (len ls) (max_message_lines lim)); [lia|].
Qed.

Lemma clip_line_fits lim l : len l <= max_line_length lim -> clip_line lim l = l.
Proof.
  intros H. unfold clip_line.
  now destruct (Z.gtb_spec (len l) (max_line_length lim)); [lia|].
Qed.

(** X8: no line of a prepared message is longer than [max_line_length]
    plus the clipping marker, and a line longer than [max_line_length] is
    [max_line_length] kept characters followed by the marker. *)
Theorem prepare_message_line_bound (lim : MessageLimits) (message : pystr) :
  0 <= max_line_length lim ->
  let marker :=
    py " ...[line clipped at " ++ str_of_int (max_line_length lim) ++ py " chars]" in
  Forall (fun line => len line <= max_line_length lim + len marker)
    (split_on LF (prepare_message lim message))
  /\ Forall (fun line => len line > max_line_length lim ->
                         exists kept, line = kept ++ marker
                                      /\ len kept = max_line_length lim)
       (split_on LF (prepare_message lim message)).
Proof.
  intros Hmax marker. rewrite prepare_message_lines.
  split; apply Forall_map, Forall_true; intros line; unfold clip_line.
  - destruct (Z.gtb_spec (len line) (max_line_length lim)) as [Hgt|Hle].
    + rewrite len_app. pose proof (len_slice_to line _ Hmax). fold marker. lia.
    + unfold len in *. lia.
  - destruct (Z.gtb_spec (len line) (max_line_length lim)) as [Hgt|Hle].
    + intros _. exists (slice_to line (max_line_length lim)). split; [reflexivity|].
      unfold slice_to, len in *.
      destruct (Z.ltb_spec (max_line_length lim) 0); [lia|].
      rewrite length_take. lia.
    + intros Hlong. lia.
Qed.

Lemma prepare_message_line_bound_witness :
  Forall (fun line => len line <= 4 + 29)
    (split_on LF (prepare_message
                    {| max_message_length := 100; max_message_lines := 5;
                       max_line_length := 4 |}
                    (py "abcdefgh"))).
Proof.
  apply (prepare_message_line_bound
           {| max_message_length := 100; max_message_lines := 5;
              max_line_length := 4 |} (py "abcdefgh")).
  cbn. lia.
Defined.

(** X9: a message within the three limits is passed on with nothing but
    its line endings normalised. *)
Theorem prepare_message_within_limits (lim : MessageLimits) (message : pystr) :
  len (normalize_newlines message) <= max_message_length lim ->
  line_count (normalize_newlines message) <= max_message_lines lim ->
  Forall (fun line => len line <= max_line_length lim)
    (split_on LF (normalize_newlines message)) ->
  prepare_message lim message = normalize_newlines message.
Proof.
  intros Hlen Hlines Hline. unfold prepare_message.
  rewrite clip_message_fits by exact Hlen.
  rewrite drop_lines_fits by exact Hlines.
  rewrite map_fixed.
  - apply join_split_on.
  - eapply Forall_impl; [exact Hline|]. intros l. apply clip_line_fits.
Qed.

Lemma prepare_message_within_limits_witness :
  prepare_message
    {| max_message_length := 100; max_message_lines := 5; max_line_length := 10 |}
    (py "a" ++ [CR; LF] ++ py "b")
  = py "a" ++ [LF] ++ py "b".
Proof.
  apply (prepare_message_within_limits
           {| max_message_length := 100; max_message_lines := 5;
              max_line_length := 10 |} (py "a" ++ [CR; LF] ++ py "b")).
  - vm_compute. discriminate.
  - vm_compute. discriminate.
  - vm_compute. repeat constructor; discriminate.
Defined.

(** ** Router: what [log] does with levels, handles and failures *)

(** X10: a record below the router's level is discarded before anything
    else happens: [log] returns, and the router, the files, the console and
    the clocks are as before, even if the handles are unknown. *)
Theorem log_below_level
    (env : Env) (self : LoggerRouter) (w : World) (message_ : pystr)
    (level_ : LoggerLevel) (nature_ : LogNature) (handles : option (list pystr)) :
  level_priority level_ < level_priority (logger_level (config self)) ->
  log env message_ level_ nature_ handles (self, w) = (Ok tt, (self, w)).
Proof.
  intros Hlow. unfold log. erewrite run_bind by reflexivity. cbn [fst].
  now rewrite (proj2 (Z.ltb_lt _ _) Hlow).
Qed.

Lemma log_below_level_witness :
  log sample_env (py "x") LEVEL_DEBUG NATURE_INFO (Some [py "nowhere"])
    (sample_router, sample_world)
  = (Ok tt, (sample_router, sample_world)).
Proof. apply log_below_level. reflexivity. Defined.

Lemma dict_get_keys {V} k (d : list (pystr * V)) :
  is_Some (dict_get k d) <-> k ∈ dict_keys d.
Proof.
  unfold dict_keys. induction d as [|[k' v] d IH]; cbn [dict_get map fst].
  - split; [intros [x Hx]; discriminate|intros H; inversion H].
  - destruct (bool_decide (k' = k)) eqn:E.
    + apply bool_decide_eq_true_1 in E. subst. split; [constructor|eauto].
    + apply bool_decide_eq_false_1 in E. rewrite IH. split.
      * now constructor.
      * intros H. inversion H; subst; [congruence|assumption].
Qed.

Lemma resolve_handles_spec self handles :
  (resolvable self handles ->
   resolve_handles self handles
   = Ok (match handles with
         | None => dict_keys (facilities self)
         | Some selected => selected
         end))
  /\ (~ resolvable self handles -> resolve_handles self handles = Raise ValueError).
Proof.
  destruct handles as [selected|]; cbn [resolvable resolve_handles];
    [|split; [reflexivity|tauto]].
  destruct (Z.gtb_spec (len selected) (max_log_handles_per_call (config self)))
    as [Hgt|Hle].
  { split; [intros (H & _); lia|reflexivity]. }
  destruct (List.filter _ selected) as [|u us] eqn:Hf.
  - split; [reflexivity|]. intros Hn. exfalso. apply Hn. split; [exact Hle|].
    apply List.Forall_forall. intros h Hh.
    destruct (dict_get h (facilities self)) eqn:E; [eauto|]. exfalso.
    assert (Hin : In h (List.filter
                          (fun item => negb (bool_decide (is_Some (dict_get item
                                                                     (facilities self)))))
                          selected)).
    { apply filter_In. split; [exact Hh|]. rewrite E.
      rewrite bool_decide_eq_false_2; [reflexivity|]. intros [x Hx]. discriminate. }
    rewrite Hf in Hin. inversion Hin.
  - split; [|reflexivity]. intros (_ & Hall). exfalso.
    assert (Hin : In u (List.filter
                          (fun item => negb (bool_decide (is_Some (dict_get item
                                                                     (facilities self)))))
                          selected)) by (rewrite Hf; now left).
    apply filter_In in Hin as (Hin & Hneg).
    rewrite List.Forall_forall in Hall. specialize (Hall u Hin).
    rewrite bool_decide_eq_true_2 in Hneg by exact Hall. discriminate.
Qed.

(** A throttle check always answers, and touches neither the configuration
    nor the facilities. *)
Lemma should_drop_runs env handle s :
  exists dropped s',
    should_drop_write_due_to_throttle env handle s = (Ok dropped, s')
    /\ config (fst s') = config (fst s)
    /\ facilities (fst s') = facilities (fst s).
Proof.
  destruct s as [self w]. unfold should_drop_write_due_to_throttle.
  erewrite run_bind by reflexivity. erewrite run_bind by reflexivity.
  erewrite run_bind by reflexivity. cbn [fst snd].
  set (now := monotonic env (mono_reads w)).
  set (started := if Qle_bool _ 0 then now else _).
  set (self1 := with_throttle self (window_started started (throttle self))).
  set (w1 := with_mono_reads w (S (mono_reads w))).
  assert (Hmid : exists w2,
    (if window_elapsed self started now
     then
       _ ← (if dropped_in_current_window (throttle self) >? 0
            then console_diagnostic env
                   (py "Throttling activated: dropped "
                      ++ str_of_int (dropped_in_current_window (throttle self))
                      ++ py " write(s) in last "
                      ++ str_of_int (throttle_window_seconds (config self))
                      ++ py "s window.")
            else mret tt);
       update_throttle (window_reset now)
     else mret tt) (self1, w1)
    = (Ok tt, (with_throttle self
                 (if window_elapsed self started now
                  then window_reset now (throttle self1) else throttle self1), w2))).
  { destruct (window_elapsed self started now).
    - destruct (dropped_in_current_window (throttle self) >? 0).
      + match goal with
        | |- context [console_diagnostic env ?m] =>
            destruct (console_diagnostic_runs env m (self1, w1)) as (w2 & Hrun & _)
        end.
        exists w2. erewrite run_bind by exact Hrun. reflexivity.
      + exists w1. reflexivity.
    - exists w1. reflexivity. }
  destruct Hmid as (w2 & Hmid). erewrite run_bind by exact Hmid.
  erewrite run_bind by reflexivity. cbn [fst].
  destruct (_ >=? _); eexists _, _; (split; [reflexivity|split; reflexivity]).
Qed.

Lemma facility_write_keys env handle facility record s r s1 :
  is_Some (dict_get handle (facilities (fst s))) ->
  facility_write env handle facility record s = (r, s1) ->
  config (fst s1) = config (fst s)
  /\ throttle (fst s1) = throttle (fst s)
  /\ dict_keys (facilities (fst s1)) = dict_keys (facilities (fst s)).
Proof.
  intros Hreg. unfold facility_write. destruct facility as [c|f|h].
  - unfold on_world. destruct (ConsoleFacility_write env c record (snd s)).
    intros E. injection E as <- <-. repeat split.
  - unfold on_world. destruct (on_fs (FileFacility_write f record) (snd s)).
    intros E. injection E as <- <-. repeat split.
  - destruct (HtmlFileFacility_write env record (h, snd s)) as [r' [h' w']].
    intros E. injection E as <- <-. cbn [fst with_facilities config throttle facilities].
    repeat split. now apply dict_keys_set.
Qed.

Lemma deliver_keys env handle facility record s :
  is_Some (dict_get handle (facilities (fst s))) ->
  exists s1,
    deliver env handle facility record s = (Ok tt, s1)
    /\ config (fst s1) = config (fst s)
    /\ throttle (fst s1) = throttle (fst s)
    /\ dict_keys (facilities (fst s1)) = dict_keys (facilities (fst s)).
Proof.
  intros Hreg. unfold deliver, try_except.
  destruct (facility_write env handle facility record s) as [[[]|e] s1] eqn:E;
    pose proof (facility_write_keys _ _ _ _ _ _ _ Hreg E) as (Hc & Ht & Hk).
  - exists s1. repeat split; assumption.
  - destruct (is_security_incident e);
      match goal with
      | |- context [console_diagnostic env ?m s1] =>
          destruct (console_diagnostic_runs env m s1) as (w' & -> & _)
      end;
      eexists; (split; [reflexivity|]); cbn [fst]; repeat split; assumption.
Qed.

Lemma log_loop_runs env record handles : forall s,
  Forall (fun handle => handle ∈ dict_keys (facilities (fst s))) handles ->
  exists s',
    log_loop env record handles s = (Ok tt, s')
    /\ config (fst s') = config (fst s)
    /\ dict_keys (facilities (fst s')) = dict_keys (facilities (fst s)).
Proof.
  induction handles as [|handle rest IH]; intros s Hall; cbn [log_loop].
  - exists s. repeat split.
  - inversion Hall as [|? ? Hin Hrest]; subst.
    destruct (should_drop_runs env handle s) as (dropped & s1 & Hdrop & Hc1 & Hf1).
    erewrite run_bind by exact Hdrop.
    assert (Hstep : exists s2,
      (if dropped : bool then mret tt
       else facility ← facility_of handle; deliver env handle facility record) s1
      = (Ok tt, s2)
      /\ config (fst s2) = config (fst s1)
      /\ dict_keys (facilities (fst s2)) = dict_keys (facilities (fst s1))).
    { destruct dropped; [exists s1; repeat split|].
      assert (Hreg : is_Some (dict_get handle (facilities (fst s1)))).
      { apply dict_get_keys. now rewrite Hf1. }
      destruct Hreg as [facility Hget].
      destruct (deliver_keys env handle facility record s1) as (s2 & Hrun & Hc & _ & Hk).
      { rewrite Hget. eauto. }
      exists s2. split; [|split; assumption].
      erewrite run_bind; [exact Hrun|]. unfold facility_of. now rewrite Hget. }
    destruct Hstep as (s2 & Hstep & Hc2 & Hk2).
    erewrite run_bind by exact Hstep.
    destruct (IH s2) as (s' & Hrun & Hc & Hk).
    { eapply Forall_impl; [exact Hrest|]. intros h Hh. cbn beta in *.
      now rewrite Hk2, Hf1. }
    exists s'. split; [exact Hrun|]. split; congruence.
Qed.

(** X11: [log] isolates the failures of the facilities.  For a record at
    or above the router's level, [log] raises only for handles it cannot
    resolve (too many, or one that is not registered): then it raises
    [ValueError] and nothing has changed; otherwise it returns, whatever
    the facilities did, and the configuration and the registered handles
    are as before. *)
Theorem log_isolates_failures
    (env : Env) (self : LoggerRouter) (w : World) (message_ : pystr)
    (level_ : LoggerLevel) (nature_ : LogNature) (handles : option (list pystr)) :
  level_priority (logger_level (config self)) <= level_priority level_ ->
  (resolvable self handles ->
   exists self' w',
     log env message_ level_ nature_ handles (self, w) = (Ok tt, (self', w'))
     /\ config self' = config self
     /\ get_handles self' = get_handles self)
  /\ (~ resolvable self handles ->
      log env message_ level_ nature_ handles (self, w)
      = (Raise ValueError, (self, w))).
Proof.
  intros Hlevel.
  assert (Hgate : (level_priority level_ <? level_priority (logger_level (config self)))
                  = false) by now apply Z.ltb_ge.
  destruct (resolve_handles_spec self handles) as (Hyes & Hno).
  split; intros Hres; unfold log; erewrite run_bind by reflexivity; cbn [fst];
    rewrite Hgate.
  - erewrite run_bind by (unfold lift_res; rewrite (Hyes Hres); reflexivity).
    erewrite run_bind by reflexivity.
    match goal with
    | |- context [log_loop env ?r ?hs ?s] =>
        destruct (log_loop_runs env r hs s) as ([self' w'] & Hrun & Hc & Hk)
    end.
    { cbn [fst]. destruct handles as [selected|].
      - destruct Hres as (_ & Hall). eapply Forall_impl; [exact Hall|].
        intros h. apply dict_get_keys.
      - apply Forall_forall. auto. }
    exists self', w'. split; [exact Hrun|]. split; assumption.
  - unfold mbind, M_bind, lift_res. now rewrite (Hno Hres).
Qed.

Lemma log_isolates_failures_witness :
  (exists self' w',
     log sample_env (py "x") LEVEL_INFO NATURE_ERROR None (sample_router, sample_world)
     = (Ok tt, (self', w')))
  /\ log sample_env (py "x") LEVEL_INFO NATURE_ERROR (Some [py "nowhere"])
       (sample_router, sample_world)
     = (Raise ValueError, (sample_router, sample_world)).
Proof.
  split.
  - destruct (log_isolates_failures sample_env sample_router sample_world (py "x")
                LEVEL_INFO NATURE_ERROR None) as (Hyes & _); [cbn; lia|].
    destruct (Hyes I) as (self' & w' & Hrun & _). eauto.
  - apply (log_isolates_failures sample_env sample_router sample_world (py "x")
             LEVEL_INFO NATURE_ERROR (Some [py "nowhere"])); [cbn; lia|].
    intros (_ & Hall). inversion Hall as [|? ? [x Hx] _]. discriminate Hx.
Defined.

(** ** Router: the end of a throttle window, and the drop counts *)

Lemma window_closed_elapsed (self : LoggerRouter) (started now : Q) :
  (inject_Z (throttle_window_seconds (config self)) <= now - started)%Q ->
  window_elapsed self started now = true.
Proof. intros H. unfold window_elapsed. now apply Qle_bool_iff. Qed.

(** X12: the first check after the window has run out opens a new window
    and is admitted, whatever the counters of the old window were: the
    window starts at the reading of the clock, one write is counted in it,
    the drop totals stay; the file system is untouched, and a summary goes
    to the console only if the old window had drops. *)
Theorem throttle_window_reset
    (env : Env) (handle : pystr) (self : LoggerRouter) (w : World) :
  let now := monotonic env (mono_reads w) in
  let t := throttle self in
  let w1 := with_mono_reads w (S (mono_reads w)) in
  let self1 := with_throttle self (window_started (throttle_window_started_at t) t) in
  (0 < throttle_window_started_at t)%Q ->
  (inject_Z (throttle_window_seconds (config self))
   <= now - throttle_window_started_at t)%Q ->
  0 < max_writes_per_second (config self) ->
  exists w',
    should_drop_write_due_to_throttle env handle (self, w)
    = (Ok false,
       (with_throttle self
          {| throttle_window_started_at := now;
             writes_in_current_window := 1;
             dropped_in_current_window := 0;
             throttle_dropped_total := throttle_dropped_total t;
             throttle_dropped_by_handle := throttle_dropped_by_handle t |}, w'))
    /\ fs w' = fs w
    /\ (dropped_in_current_window t <= 0 -> w' = w1)
    /\ (0 < dropped_in_current_window t ->
        console_diagnostic env
          (py "Throttling activated: dropped "
             ++ str_of_int (dropped_in_current_window t)
             ++ py " write(s) in last "
             ++ str_of_int (throttle_window_seconds (config self))
             ++ py "s window.") (self1, w1)
        = (Ok tt, (self1, w'))).
Proof.
  intros now t w1 self1 Hstarted Hclosed Hcap.
  unfold should_drop_write_due_to_throttle.
  erewrite run_bind by reflexivity. erewrite run_bind by reflexivity.
  cbn [fst snd]. fold now. fold t.
  rewrite (started_positive _ now Hstarted).
  erewrite run_bind by reflexivity. cbn [fst snd]. fold self1. fold w1.
  rewrite (window_closed_elapsed self _ now Hclosed).
  assert (Hc : (0 >=? max_writes_per_second (config self)) = false).
  { rewrite Z.geb_leb. apply Z.leb_gt. lia. }
  destruct (Z.gtb_spec (dropped_in_current_window t) 0) as [Hdrops|Hnone].
  - match goal with
    | |- context [console_diagnostic env ?m] =>
        destruct (console_diagnostic_runs env m (self1, w1)) as (w' & Hrun & _ & Hfs)
    end.
    exists w'. cbn [fst snd] in *. split; [|split; [exact Hfs|split; [lia|]]].
    + erewrite run_bind.
      2:{ erewrite run_bind by exact Hrun. reflexivity. }
      erewrite run_bind by reflexivity. cbn [fst with_throttle config throttle
        window_reset writes_in_current_window].
      change (config self1) with (config self). rewrite Hc. reflexivity.
    + intros _. exact Hrun.
  - exists w1. split; [|split; [reflexivity|split; [reflexivity|lia]]].
    erewrite run_bind by reflexivity.
    erewrite run_bind by reflexivity. cbn [fst with_throttle config throttle
      window_reset writes_in_current_window].
    change (config self1) with (config self). rewrite Hc. reflexivity.
Qed.

Lemma throttle_window_reset_witness :
  exists w',
    should_drop_write_due_to_throttle late_env (py "app")
      (late_router, sample_world)
    = (Ok false,
       (with_throttle late_router
          {| throttle_window_started_at := 100%Q; writes_in_current_window := 1;
             dropped_in_current_window := 0; throttle_dropped_total := 5;
             throttle_dropped_by_handle := {[py "app" := 5]} |}, w'))
    /\ fs w' = sample_fs.
Proof.
  destruct (throttle_window_reset late_env (py "app") late_router sample_world)
    as (w' & Hrun & Hfs & _); try (vm_compute; congruence).
  exists w'. split; [exact Hrun|exact Hfs].
Defined.

Lemma sum_counts_bump (counts : gmap pystr Z) handle :
  sum_counts (<[handle := default 0 (counts !! handle) + 1]> counts)
  = sum_counts counts + 1.
Proof.
  unfold sum_counts.
  assert (Hcomm : forall (m : gmap pystr Z) (j1 j2 : pystr) (z1 z2 y : Z),
             j1 <> j2 -> m !! j1 = Some z1 -> m !! j2 = Some z2 ->
             z1 + (z2 + y) = z2 + (z1 + y)) by (intros; lia).
  rewrite <- insert_delete_eq.
  rewrite map_fold_insert_L; [|apply Hcomm|apply lookup_delete_eq].
  destruct (counts !! handle) as [count|] eqn:E; cbn [default].
  - rewrite (map_fold_delete_L _ _ handle count counts);
      [unfold id; lia|apply Hcomm|exact E].
  - rewrite delete_id by exact E. unfold id. lia.
Qed.

Lemma keeps_router_bind {A B} P (m : M (LoggerRouter * World) A)
    (f : A -> M (LoggerRouter * World) B) :
  keeps_router P m -> (forall a, keeps_router P (f a)) -> keeps_router P (m ≫= f).
Proof.
  intros Hm Hf s HP. unfold mbind, M_bind. specialize (Hm s HP).
  destruct (m s) as [[a|e] s1]; cbn [snd fst] in *; [|exact Hm].
  now apply Hf.
Qed.

(** A computation that leaves the router as it is keeps all its
    properties. *)
Lemma keeps_router_same {A} P (m : M (LoggerRouter * World) A) :
  (forall s, fst (snd (m s)) = fst s) -> keeps_router P m.
Proof. intros H s HP. now rewrite H. Qed.

Lemma keeps_router_on_world {A} P (m : M World A) :
  keeps_router P (on_world m : M (LoggerRouter * World) A).
Proof.
  apply keeps_router_same. intros s. unfold on_world. now destruct (m (snd s)).
Qed.

Lemma console_diagnostic_same env message_ s :
  fst (snd (console_diagnostic env message_ s)) = fst s.
Proof.
  destruct (console_diagnostic_runs env message_ s) as (w' & -> & _). reflexivity.
Qed.

Lemma keeps_router_try {A} P (body : M (LoggerRouter * World) A) handler :
  keeps_router P body -> (forall e, keeps_router P (handler e)) ->
  keeps_router P (try_except body handler).
Proof.
  intros Hb Hh s HP. unfold try_except. specialize (Hb s HP).
  destruct (body s) as [[a|e] s1]; cbn [snd fst] in *; [exact Hb|].
  now apply Hh.
Qed.

Lemma keeps_counts_update f :
  (forall t, throttle_dropped_total t = sum_counts (throttle_dropped_by_handle t) ->
             throttle_dropped_total (f t) = sum_counts (throttle_dropped_by_handle (f t))) ->
  keeps_router counts_consistent (update_throttle f).
Proof. intros Hf s HP. unfold update_throttle. cbn. now apply Hf. Qed.

Lemma keeps_counts_should_drop env handle :
  keeps_router counts_consistent (should_drop_write_due_to_throttle env handle).
Proof.
  unfold should_drop_write_due_to_throttle.
  apply keeps_router_bind; [apply keeps_router_on_world|]. intros now.
  apply keeps_router_bind; [now apply keeps_router_same|]. intros self.
  apply keeps_router_bind; [now apply keeps_counts_update|]. intros _.
  apply keeps_router_bind.
  { destruct (window_elapsed _ _ _); [|now apply keeps_router_same].
    apply keeps_router_bind; [|intros _; now apply keeps_counts_update].
    destruct (_ >? 0); [|now apply keeps_router_same].
    apply keeps_router_same, console_diagnostic_same. }
  intros _. apply keeps_router_bind; [now apply keeps_router_same|]. intros self'.
  destruct (_ >=? _).
  - apply keeps_router_bind; [|intros _; now apply keeps_router_same].
    apply keeps_counts_update. intros t Ht. cbn [write_dropped throttle_dropped_total
      throttle_dropped_by_handle]. rewrite sum_counts_bump. lia.
  - apply keeps_router_bind; [|intros _; now apply keeps_router_same].
    now apply keeps_counts_update.
Qed.

Lemma keeps_counts_facility_write env handle facility record :
  keeps_router counts_consistent (facility_write env handle facility record).
Proof.
  intros s HP. unfold counts_consistent in *.
  destruct (facility_write env handle facility record s) as [r s1] eqn:E.
  destruct (facility_write_frame _ _ _ _ _ _ _ E) as (_ & Ht & _).
  cbn [snd]. now rewrite Ht.
Qed.

Lemma keeps_counts_log_loop env record handles :
  keeps_router counts_consistent (log_loop env record handles).
Proof.
  induction handles as [|handle rest IH]; cbn [log_loop];
    [now apply keeps_router_same|].
  apply keeps_router_bind; [apply keeps_counts_should_drop|]. intros dropped.
  apply keeps_router_bind; [|intros _; exact IH].
  destruct dropped; [now apply keeps_router_same|].
  apply keeps_router_bind.
  { apply keeps_router_same. intros s. unfold facility_of.
    now destruct (dict_get _ _). }
  intros facility. apply keeps_router_try; [apply keeps_counts_facility_write|].
  intros e. destruct (is_security_incident e);
    apply keeps_router_same, console_diagnostic_same.
Qed.

Lemma keeps_counts_registration {A} env what handle path
    (m : M (LoggerRouter * World) A) (inject : A -> Facility) :
  keeps_router counts_consistent m ->
  keeps_router counts_consistent
    (created ← recover_construction env what handle path m;
     match created with
     | None => mret false
     | Some facility => _ ← register handle (inject facility); mret true
     end).
Proof.
  intros Hm. apply keeps_router_bind.
  - unfold recover_construction. apply keeps_router_try.
    + apply keeps_router_bind; [exact Hm|]. intros a. now apply keeps_router_same.
    + intros e. destruct (_ || _); [now apply keeps_router_same|].
      apply keeps_router_bind; [|intros _; now apply keeps_router_same].
      apply keeps_router_same, console_diagnostic_same.
  - intros [facility|]; [|now apply keeps_router_same].
    apply keeps_router_bind; [|intros _; now apply keeps_router_same].
    intros s HP. exact HP.
Qed.

(** X13: the drop counts add up.  On a new router, and after any call of
    [log], [add_log_file] or [add_html_log_file] on a router where it held
    before, whatever the call's result, [dropped_total] is the sum of the
    counts in [dropped_by_handle]. *)
Theorem drop_counts_add_up (env : Env) :
  (forall self, throttle self = fresh_throttle -> counts_consistent self)
  /\ (forall message_ level_ nature_ handles,
        keeps_router counts_consistent (log env message_ level_ nature_ handles))
  /\ (forall log_handle log_file_path rotate_on_start rotations_to_keep,
        keeps_router counts_consistent
          (add_log_file env log_handle log_file_path rotate_on_start
             rotations_to_keep))
  /\ (forall log_handle log_file_path title html_theme enabled seconds
             rotate_on_start rotations_to_keep,
        keeps_router counts_consistent
          (add_html_log_file env log_handle log_file_path title html_theme
             enabled seconds rotate_on_start rotations_to_keep)).
Proof.
  split; [|split; [|split]].
  - intros self Hfresh. unfold counts_consistent. rewrite Hfresh. reflexivity.
  - intros message_ level_ nature_ handles. unfold log.
    apply keeps_router_bind; [now apply keeps_router_same|]. intros self.
    destruct (_ <? _); [now apply keeps_router_same|].
    apply keeps_router_bind; [now apply keeps_router_same|]. intros selected.
    apply keeps_router_bind; [apply keeps_router_on_world|]. intros now.
    apply keeps_counts_log_loop.
  - intros log_handle log_file_path rotate_on_start rotations_to_keep.
    unfold add_log_file.
    apply keeps_router_bind; [now apply keeps_router_same|]. intros _.
    apply keeps_router_bind; [now apply keeps_router_same|]. intros self.
    apply (keeps_counts_registration env _ _ _ _ File), keeps_router_on_world.
  - intros log_handle log_file_path title html_theme enabled seconds
      rotate_on_start rotations_to_keep.
    unfold add_html_log_file.
    apply keeps_router_bind; [now apply keeps_router_same|]. intros _.
    apply keeps_router_bind; [now apply keeps_router_same|]. intros self.
    apply keeps_router_bind; [now apply keeps_router_same|]. intros refresh.
    destruct (_ >? _); [now apply keeps_router_same|].
    apply (keeps_counts_registration env _ _ _ _ Html), keeps_router_on_world.
Qed.

Lemma drop_counts_add_up_witness :
  counts_consistent
    (fst (snd (log sample_env (py "hello") LEVEL_INFO NATURE_INFO None
                 (sample_router, sample_world)))).
Proof.
  destruct (drop_counts_add_up sample_env) as (Hnew & Hlog & _).
  apply Hlog. apply Hnew. reflexivity.
Defined.

(** ** Router: registration, its errors and its order *)

Lemma validate_handle_raises handle :
  validate_handle handle <> Ok tt -> validate_handle handle = Raise ValueError.
Proof.
  unfold validate_handle. destruct (_ >? _); [reflexivity|].
  destruct (negb _); [reflexivity|congruence].
Qed.

Lemma FileFacility_create_bad_handle handle path rotate keep size x :
  validate_handle handle <> Ok tt ->
  FileFacility_create handle path rotate keep size x = (Raise ValueError, x).
Proof.
  intros H. unfold FileFacility_create, mbind, M_bind, lift_res.
  now rewrite (validate_handle_raises handle H).
Qed.

Lemma HtmlFileFacility_create_bad_handle env handle path title theme enabled
    seconds line_length timeout bytes rotate keep x :
  validate_handle handle <> Ok tt ->
  HtmlFileFacility_create env handle path title theme enabled seconds line_length
    timeout bytes rotate keep x
  = (Raise ValueError, x).
Proof.
  intros H. unfold HtmlFileFacility_create, mbind, M_bind, lift_res.
  now rewrite (validate_handle_raises handle H).
Qed.

Lemma recover_construction_value_error {A} env what handle path
    (m : M FileSystem A) (self : LoggerRouter) w :
  m (fs w) = (Raise ValueError, fs w) ->
  recover_construction env what handle path (on_world (on_fs m)) (self, w)
  = (Raise ValueError, (self, w)).
Proof.
  intros E. unfold recover_construction, try_except.
  unfold mbind at 1, M_bind at 1.
  rewrite (run_on_fs m self w _ _ E). cbn. now rewrite with_fs_same.
Qed.

(** X14: a registration with the reserved handle [console], with a handle
    that is not one to sixty-four letters, digits and underscores, or with a
    negative [rotations_to_keep] raises [ValueError], and the router, the
    file system and the console are as before. *)
Theorem registration_rejects_bad_arguments
    (env : Env) (self : LoggerRouter) (w : World) (log_handle log_file_path : pystr)
    (rotate_on_start : bool) (rotations_to_keep : Z) :
  log_handle = HANDLE_CONSOLE \/ rotations_to_keep < 0
  \/ validate_handle log_handle <> Ok tt ->
  add_log_file env log_handle log_file_path rotate_on_start rotations_to_keep
    (self, w)
  = (Raise ValueError, (self, w))
  /\ forall title html_theme enabled seconds,
       add_html_log_file env log_handle log_file_path title html_theme enabled
         seconds rotate_on_start rotations_to_keep (self, w)
       = (Raise ValueError, (self, w)).
Proof.
  intros Hbad.
  destruct (validate_facility_params log_handle rotations_to_keep) as [[]|e] eqn:Hv.
  2:{ assert (e = ValueError) as ->.
      { unfold validate_facility_params in Hv. destruct (bool_decide _); [congruence|].
        destruct (_ <? 0); congruence. }
      split; [|intros title html_theme enabled seconds];
        unfold add_log_file, add_html_log_file, mbind, M_bind, lift_res;
        now rewrite Hv. }
  assert (Hhandle : validate_handle log_handle <> Ok tt).
  { destruct Hbad as [->|[Hneg|H]]; [| |exact H].
    - discriminate Hv.
    - unfold validate_facility_params in Hv. destruct (bool_decide _); [discriminate|].
      now rewrite (proj2 (Z.ltb_lt _ _) Hneg) in Hv. }
  split; [|intros title html_theme enabled seconds].
  - unfold add_log_file. rewrite Hv.
    erewrite run_bind by reflexivity. erewrite run_bind by reflexivity.
    unfold mbind, M_bind.
    rewrite recover_construction_value_error; [reflexivity|].
    now apply FileFacility_create_bad_handle.
  - unfold add_html_log_file. rewrite Hv.
    erewrite run_bind by reflexivity. erewrite run_bind by reflexivity.
    unfold validate_positive. destruct (seconds <=? 0); [reflexivity|].
    erewrite run_bind by reflexivity.
    destruct (_ >? _); [reflexivity|].
    unfold mbind, M_bind.
    rewrite recover_construction_value_error; [reflexivity|].
    now apply HtmlFileFacility_create_bad_handle.
Qed.

Lemma registration_rejects_bad_arguments_witness :
  add_log_file sample_env (py "my handle") (py "log/new.log") false 0
    (sample_router, sample_world)
  = (Raise ValueError, (sample_router, sample_world)).
Proof.
  apply (registration_rejects_bad_arguments sample_env sample_router sample_world
           (py "my handle") (py "log/new.log") false 0).
  right. right. vm_compute. discriminate.
Defined.

Lemma dict_set_new {V} k (v : V) d :
  dict_get k d = None ->
  dict_keys (dict_set k v d) = dict_keys d ++ [k]
  /\ dict_get k (dict_set k v d) = Some v.
Proof.
  unfold dict_keys. induction d as [|[k' v'] d IH]; cbn [dict_get dict_set map fst app].
  - intros _. now rewrite bool_decide_eq_true_2.
  - destruct (bool_decide (k' = k)) eqn:E; [discriminate|].
    intros H. destruct (IH H) as (IH1 & IH2). cbn [map fst dict_get].
    rewrite E. split; [now rewrite IH1|exact IH2].
Qed.

(** X15: a registration under a handle that is not yet registered puts the
    new facility at the end of the handles: with arguments that pass the
    checks and a facility that can be constructed, [add_log_file] and
    [add_html_log_file] return [True], [get_handles] is as before with the
    new handle appended, and the other facilities, the configuration and
    the throttle are as before. *)
Theorem registration_appends
    (env : Env) (self : LoggerRouter) (w : World) (log_handle log_file_path : pystr)
    (rotate_on_start : bool) (rotations_to_keep : Z) :
  dict_get log_handle (facilities self) = None ->
  log_handle <> HANDLE_CONSOLE ->
  0 <= rotations_to_keep ->
  (forall facility fs',
     FileFacility_create log_handle (Path_of_str log_file_path) rotate_on_start
       rotations_to_keep (plain_log_max_file_size_bytes (config self)) (fs w)
     = (Ok facility, fs') ->
     exists self',
       add_log_file env log_handle log_file_path rotate_on_start
         rotations_to_keep (self, w)
       = (Ok true, (self', with_fs w fs'))
       /\ get_handles self' = get_handles self ++ [log_handle]
       /\ dict_get log_handle (facilities self') = Some (File facility)
       /\ (forall other, other <> log_handle ->
             dict_get other (facilities self') = dict_get other (facilities self))
       /\ config self' = config self /\ throttle self' = throttle self)
  /\ (forall title html_theme enabled seconds facility fs',
        0 < seconds ->
        len title <= max_html_title_length (config self) ->
        HtmlFileFacility_create env log_handle (Path_of_str log_file_path) title
          html_theme enabled seconds (max_line_length (limits (config self)))
          (colorize_timeout_ms (config self))
          (max_html_document_bytes (config self))
          rotate_on_start rotations_to_keep (fs w)
        = (Ok facility, fs') ->
        exists self',
          add_html_log_file env log_handle log_file_path title html_theme enabled
            seconds rotate_on_start rotations_to_keep (self, w)
          = (Ok true, (self', with_fs w fs'))
          /\ get_handles self' = get_handles self ++ [log_handle]
          /\ dict_get log_handle (facilities self') = Some (Html facility)
          /\ (forall other, other <> log_handle ->
                dict_get other (facilities self') = dict_get other (facilities self))
          /\ config self' = config self /\ throttle self' = throttle self).
Proof.
  intros Hnew Hne Hkeep.
  assert (Hreg : forall facility w',
    exists self',
      register log_handle facility (self, w') = (Ok tt, (self', w'))
      /\ get_handles self' = get_handles self ++ [log_handle]
      /\ dict_get log_handle (facilities self') = Some facility
      /\ (forall other, other <> log_handle ->
            dict_get other (facilities self') = dict_get other (facilities self))
      /\ config self' = config self /\ throttle self' = throttle self).
  { intros facility w'. eexists. split; [reflexivity|].
    cbn [fst with_facilities facilities config throttle]. unfold get_handles.
    cbn [facilities].
    destruct (dict_set_new log_handle facility (facilities self) Hnew) as (Hk & Hg).
    repeat split; try assumption.
    intros other Ho. now apply dict_get_set_ne. }
  split.
  - intros facility fs' Hcreate.
    destruct (Hreg (File facility) (with_fs w fs')) as (self' & Hrun & Hrest).
    exists self'. split; [|exact Hrest].
    unfold add_log_file. rewrite (validate_facility_params_ok _ _ Hne Hkeep).
    erewrite run_bind by reflexivity. erewrite run_bind by reflexivity. cbn [fst].
    erewrite run_bind by (apply recover_construction_ok; exact Hcreate).
    cbv beta iota. erewrite run_bind by exact Hrun. reflexivity.
  - intros title html_theme enabled seconds facility fs' Hsec Htitle Hcreate.
    destruct (Hreg (Html facility) (with_fs w fs')) as (self' & Hrun & Hrest).
    exists self'. split; [|exact Hrest].
    unfold add_html_log_file. rewrite (validate_facility_params_ok _ _ Hne Hkeep).
    unfold validate_positive.
    replace (seconds <=? 0) with false by (symmetry; apply Z.leb_gt; lia).
    erewrite run_bind by reflexivity. erewrite run_bind by reflexivity.
    erewrite run_bind by reflexivity. cbn [fst].
    replace (len title >? max_html_title_length (config self)) with false.
    2:{ symmetry. rewrite Z.gtb_ltb. apply Z.ltb_ge. lia. }
    erewrite run_bind by (apply recover_construction_ok; exact Hcreate).
    cbv beta iota. erewrite run_bind by exact Hrun. reflexivity.
Qed.

Lemma registration_appends_witness :
  exists self' w',
    add_log_file sample_env (py "audit") (py "log/audit.log") false 0
      (sample_router, sample_world)
    = (Ok true, (self', w'))
    /\ get_handles self' = [HANDLE_CONSOLE; py "app"; py "audit"].
Proof.
  destruct (registration_appends sample_env sample_router sample_world
              (py "audit") (py "log/audit.log") false 0)
    as (Hfile & _); [reflexivity | vm_compute; discriminate | lia |].
  edestruct Hfile as (self' & Hrun & Hhandles & _);
    [|exists self'; eexists; split; [exact Hrun | exact Hhandles]].
  vm_compute. reflexivity.
Defined.

Lemma recover_construction_raise {A} env what handle path (m : M FileSystem A)
    (self : LoggerRouter) w e x :
  m (fs w) = (Raise e, x) ->
  recover_construction env what handle path (on_world (on_fs m)) (self, w)
  = (if is_ValueError e || bool_decide (e = UnsafeLogTargetError)
     then raise e
     else
       _ ← console_diagnostic env
             (py "Failed to initialize " ++ what ++ py " facility '"
                ++ handle ++ py "' at '" ++ path ++ py "': "
                ++ exception_text e);
       mret None) (self, with_fs w x).
Proof.
  intros E. unfold recover_construction, try_except.
  unfold mbind at 1, M_bind at 1.
  now rewrite (run_on_fs m self w _ _ E).
Qed.

(** What a registration gives after its checks: [True], [False] after a
    diagnostic, or one of the errors that are raised again; and the router
    is as before unless it is [True]. *)
Lemma registration_result {A} env what handle path (m : M FileSystem A)
    (inject : A -> Facility) (s : LoggerRouter * World) :
  let out :=
    (created ← recover_construction env what handle path (on_world (on_fs m));
     match created with
     | None => mret false
     | Some facility => _ ← register handle (inject facility); mret true
     end) s in
  (fst out = Ok true \/ fst out = Ok false
   \/ exists e, fst out = Raise e
                /\ (is_ValueError e = true \/ e = UnsafeLogTargetError))
  /\ (fst out <> Ok true -> fst (snd out) = fst s).
Proof.
  destruct s as [self w]. intros out.
  destruct (m (fs w)) as [[a|e] x] eqn:E.
  - assert (Hout : out = (Ok true,
                          (with_facilities self
                             (dict_set handle (inject a) (facilities self)),
                           with_fs w x))).
    { subst out. erewrite run_bind by (apply recover_construction_ok; exact E).
      reflexivity. }
    rewrite Hout. cbn [fst snd]. split; [now left|intros H; now destruct H].
  - destruct (is_ValueError e || bool_decide (e = UnsafeLogTargetError)) eqn:Hre.
    + assert (Hout : out = (Raise e, (self, with_fs w x))).
      { subst out. unfold mbind, M_bind.
        rewrite (recover_construction_raise env what handle path m self w e x E).
        now rewrite Hre. }
      rewrite Hout. cbn [fst snd]. split; [|reflexivity].
      right. right. exists e. split; [reflexivity|].
      apply orb_true_iff in Hre as [H|H]; [now left|right].
      now apply bool_decide_eq_true_1 in H.
    + destruct (console_diagnostic_runs env
                  (py "Failed to initialize " ++ what ++ py " facility '"
                     ++ handle ++ py "' at '" ++ path ++ py "': "
                     ++ exception_text e) (self, with_fs w x)) as (w' & Hdiag & _).
      assert (Hout : out = (Ok false, (self, w'))).
      { subst out. unfold mbind at 1, M_bind at 1.
        rewrite (recover_construction_raise env what handle path m self w e x E).
        rewrite Hre. erewrite run_bind by exact Hdiag. reflexivity. }
      rewrite Hout. cbn [fst snd]. split; [right; now left|reflexivity].
Qed.

(** X16: a registration is all or nothing for the router.  [add_log_file]
    and [add_html_log_file] return [True] or [False], or raise a
    [ValueError] or an [UnsafeLogTargetError], nothing else; and unless the
    answer is [True], the facilities, the configuration and the throttle
    are as before. *)
Theorem registration_all_or_nothing
    (env : Env) (s : LoggerRouter * World) (log_handle log_file_path : pystr)
    (rotate_on_start : bool) (rotations_to_keep : Z) :
  (let out := add_log_file env log_handle log_file_path rotate_on_start
                rotations_to_keep s in
   (fst out = Ok true \/ fst out = Ok false
    \/ exists e, fst out = Raise e
                 /\ (is_ValueError e = true \/ e = UnsafeLogTargetError))
   /\ (fst out <> Ok true -> fst (snd out) = fst s))
  /\ (forall title html_theme enabled seconds,
        let out := add_html_log_file env log_handle log_file_path title html_theme
                     enabled seconds rotate_on_start rotations_to_keep s in
        (fst out = Ok true \/ fst out = Ok false
         \/ exists e, fst out = Raise e
                      /\ (is_ValueError e = true \/ e = UnsafeLogTargetError))
        /\ (fst out <> Ok true -> fst (snd out) = fst s)).
Proof.
  assert (Hparams : forall h k e,
             validate_facility_params h k = Raise e -> e = ValueError).
  { intros h k e. unfold validate_facility_params.
    destruct (bool_decide _); [congruence|]. destruct (_ <? 0); congruence. }
  split; [|intros title html_theme enabled seconds]; cbv zeta.
  - unfold add_log_file.
    destruct (validate_facility_params log_handle rotations_to_keep) as [[]|e] eqn:Hv.
    + erewrite run_bind by reflexivity. erewrite run_bind by reflexivity.
      apply (registration_result env _ _ _ _ File).
    + apply Hparams in Hv. subst e. cbn. split; [|reflexivity].
      right. right. exists ValueError. split; [reflexivity|now left].
  - unfold add_html_log_file.
    destruct (validate_facility_params log_handle rotations_to_keep) as [[]|e] eqn:Hv.
    + erewrite run_bind by reflexivity. erewrite run_bind by reflexivity.
      unfold validate_positive. destruct (seconds <=? 0).
      { cbn. split; [|reflexivity].
        right. right. exists ValueError. split; [reflexivity|now left]. }
      erewrite run_bind by reflexivity.
      destruct (_ >? _).
      { cbn. split; [|reflexivity].
        right. right. exists ValueError. split; [reflexivity|now left]. }
      apply (registration_result env _ _ _ _ Html).
    + apply Hparams in Hv. subst e. cbn. split; [|reflexivity].
      right. right. exists ValueError. split; [reflexivity|now left].
Qed.

Lemma registration_all_or_nothing_witness :
  fst (snd (add_log_file sample_env (py "spool") (py "/var/log") false 0
              (sample_router, sample_world)))
  = sample_router.
Proof.
  apply (proj2 (proj1 (registration_all_or_nothing sample_env
                         (sample_router, sample_world)
                         (py "spool") (py "/var/log") false 0))).
  vm_compute. discriminate.
Defined.

(** ** Console facility *)

Lemma split_on_pieces_all (P : char -> Prop) sep s :
  Forall P s -> Forall (Forall P) (split_on sep s).
Proof.
  induction 1 as [|c r Hc Hr IH]; cbn [split_on].
  - repeat constructor.
  - destruct (c =? sep)%N.
    + constructor; [constructor|exact IH].
    + destruct (split_on sep r) as [|l ls]; [repeat constructor; assumption|].
      inversion IH; subst. constructor; [constructor; assumption|assumption].
Qed.

Lemma join_all (P : char -> Prop) sep parts :
  Forall P sep -> Forall (Forall P) parts -> Forall P (join sep parts).
Proof.
  intros Hsep. induction 1 as [|l ls Hl Hls IH]; [constructor|].
  destruct ls as [|l' ls']; [exact Hl|].
  change (join sep (l :: l' :: ls')) with (l ++ sep ++ join sep (l' :: ls')).
  repeat (apply Forall_app; split); assumption.
Qed.

Lemma strftime_clock_shape t :
  shape_ok (py "dd:dd:dd") (strftime_clock t) = true.
Proof.
  unfold strftime_clock, pad2.
  cbn [app py map list_ascii_of_string shape_ok].
  repeat (cbn [N_of_ascii N_of_digits N.add N.mul N.eqb Pos.eqb shape_ok app
               py map list_ascii_of_string andb];
          rewrite ?digit_range).
  reflexivity.
Qed.

Lemma shape_ok_plain pattern : forall s,
  shape_ok pattern s = true ->
  Forall (fun p => plain_char p = true) pattern ->
  Forall (fun c => plain_char c = true) s.
Proof.
  induction pattern as [|p pattern IH]; intros [|c s] H Hp; try discriminate.
  - constructor.
  - cbn [shape_ok] in H. apply andb_true_iff in H as (Hc & Hs).
    inversion Hp as [|? ? Hp1 Hp']; subst.
    constructor; [|now apply IH].
    destruct (p =? 100)%N.
    + apply andb_true_iff in Hc as (Hlo & Hhi).
      apply N.leb_le in Hlo. apply N.leb_le in Hhi.
      unfold plain_char, is_c0_or_c1.
      destruct (N.leb_spec c 31); [lia|].
      destruct (N.leb_spec 127 c); [lia|].
      rewrite !andb_false_r. cbn [orb negb]. apply orb_true_r.
    + apply N.eqb_eq in Hc. now subst c.
Qed.

(** The lines the console facility prints, before any colour. *)
Lemma clipped_lines_plain (limit : Z) (message_ : pystr) :
  Forall (Forall (fun c => plain_char c = true))
    (map (fun line =>
            if len line <=? limit then line
            else slice_to line limit ++ LINE_CLIPPED)
       match split_console_lines (normalize_for_terminal message_) with
       | [] => [[]]
       | _ => split_console_lines (normalize_for_terminal message_)
       end).
Proof.
  apply Forall_map.
  assert (Hlines : Forall (Forall (fun c => plain_char c = true))
                     (split_console_lines (normalize_for_terminal message_))).
  { unfold split_console_lines. apply split_on_pieces_all.
    rewrite normalize_newlines_fixed; [apply normalize_for_terminal_plain|].
    eapply Forall_impl; [apply normalize_for_terminal_plain|].
    intros c. apply plain_char_not_cr. }
  assert (Hsome : Forall (Forall (fun c => plain_char c = true))
                    match split_console_lines (normalize_for_terminal message_) with
                    | [] => [[]]
                    | _ => split_console_lines (normalize_for_terminal message_)
                    end).
  { destruct (split_console_lines _) as [|l ls]; [repeat constructor|exact Hlines]. }
  eapply Forall_impl; [exact Hsome|]. intros line Hline. cbn beta.
  destruct (len line <=? limit); [exact Hline|].
  apply Forall_app. split.
  - unfold slice_to. destruct (limit <? 0); now apply Forall_take.
  - repeat constructor.
Qed.



(** ** Syntax colorizer: quote marks and quoted content *)

Lemma is_quote_not_backslash q : is_quote q = true -> (q =? BACKSLASH)%N = false.
Proof.
  unfold is_quote. intros H. apply orb_true_iff in H as [H|H];
    apply N.eqb_eq in H; now subst q.
Qed.

(** Without a deadline the two inner loops find the same closing quote. *)
Lemma mark_close_content_close pc text fuel quote start : forall cursor k,
  is_quote quote = true ->
  char_at text (start - 1) = quote ->
  (start <= cursor)%nat ->
  mark_close pc None text fuel quote cursor k
  = content_close pc None text fuel quote start cursor k.
Proof.
  induction fuel as [|fuel IH]; intros cursor k Hq Hopen Hle;
    cbn [mark_close content_close]; [reflexivity|].
  destruct (cursor <? length text)%nat; [|reflexivity].
  unfold mbind, M_bind, check_deadline.
  assert (Hsame : negb (char_at text (cursor - 1) =? BACKSLASH)%N
                  = ((cursor =? start)%nat
                     || negb (char_at text (cursor - 1) =? BACKSLASH)%N)).
  { destruct (Nat.eqb_spec cursor start) as [->|Hne]; [|reflexivity].
    rewrite Hopen, (is_quote_not_backslash quote Hq). reflexivity. }
  rewrite <- Hsame. destruct (_ && _); [reflexivity|].
  apply IH; [exact Hq|exact Hopen|lia].
Qed.

Lemma content_close_returns pc text fuel quote start : forall cursor k,
  exists closed,
    content_close pc None text fuel quote start cursor k = (Ok closed, k).
Proof.
  induction fuel as [|fuel IH]; intros cursor k; cbn [content_close]; [now eexists|].
  destruct (cursor <? length text)%nat; [|now eexists].
  unfold mbind, M_bind, check_deadline.
  destruct (_ && _); [now eexists|apply IH].
Qed.

Lemma delimiters_cons s e spans :
  delimiters ((s, e) :: spans) = {[(s - 1)%nat]} ∪ ({[e]} ∪ delimiters spans).
Proof. reflexivity. Qed.

Lemma loops_agree pc text fuel : forall idx spans positions k,
  exists new,
    content_loop pc None text fuel idx spans k = (Ok (spans ++ new), k)
    /\ mark_loop pc None text fuel idx positions k
       = (Ok (delimiters new ∪ positions), k).
Proof.
  induction fuel as [|fuel IH]; intros idx spans positions k;
    cbn [content_loop mark_loop].
  - exists []. rewrite app_nil_r. split; [reflexivity|].
    unfold delimiters. cbn. now rewrite union_empty_l_L.
  - destruct (idx <? length text)%nat.
    2:{ exists []. rewrite app_nil_r. split; [reflexivity|].
        unfold delimiters. cbn. now rewrite union_empty_l_L. }
    unfold mbind at 1 3, M_bind at 1 3, check_deadline.
    destruct (is_quote (char_at text idx)) eqn:Hq; cbn [negb]; [|apply IH].
    unfold mbind, M_bind.
    rewrite (mark_close_content_close pc text (length text) (char_at text idx)
               (idx + 1)) by (try lia; try exact Hq; f_equal; lia).
    destruct (content_close_returns pc text (length text) (char_at text idx)
                (idx + 1) (idx + 1)%nat k) as ([cursor|] & ->); [|apply IH].
    destruct (IH (cursor + 1)%nat (spans ++ [((idx + 1)%nat, cursor)])
                ({[cursor]} ∪ ({[idx]} ∪ positions)) k) as (new & Hc & Hm).
    exists (((idx + 1)%nat, cursor) :: new). split.
    + rewrite Hc. now rewrite <- app_assoc.
    + rewrite Hm, delimiters_cons. cbn [fst snd].
      replace (idx + 1 - 1)%nat with idx by lia.
      f_equal. f_equal. apply set_eq. intros x. rewrite !elem_of_union. tauto.
Qed.

(** X18: the quote marks are the delimiters of the quoted spans.  Without
    a deadline [quote_mark_positions] returns exactly the positions of the
    opening and the closing quote of the spans [quoted_content_spans]
    returns, and neither reads the clock. *)
Theorem quote_marks_delimit_spans
    (perf_counter : nat -> Q) (text : pystr) (k : nat) :
  exists spans,
    quoted_content_spans perf_counter None text k = (Ok spans, k)
    /\ quote_mark_positions perf_counter None text k = (Ok (delimiters spans), k).
Proof.
  unfold quoted_content_spans, quote_mark_positions.
  destruct (loops_agree perf_counter text (S (length text)) 0%nat [] ∅ k)
    as (new & Hc & Hm).
  exists new. split; [exact Hc|]. rewrite Hm. now rewrite union_empty_r_L.
Qed.

(** ** Facilities and the path guard *)

Lemma assert_safe_log_target_cases fs path :
  assert_safe_log_target fs path = Ok tt
  \/ assert_safe_log_target fs path = Raise UnsafeLogTargetError.
Proof.
  unfold assert_safe_log_target.
  destruct (existsb _ _); [now right|].
  destruct (os_lstat fs _) as [st|e].
  - destruct (S_ISLNK _); [now right|]. destruct (negb _); [now right|now left].
  - destruct e; auto.
Qed.

Lemma guard_refuses fs path :
  assert_safe_log_target fs path <> Ok tt ->
  guard path fs = (Raise UnsafeLogTargetError, fs).
Proof.
  intros H. unfold guard, query.
  destruct (assert_safe_log_target_cases fs path) as [E|E]; [contradiction|].
  now rewrite E.
Qed.

Lemma exists_then_stat fs path :
  path_exists fs path = true -> exists st, path_stat fs path = Ok st.
Proof.
  unfold path_exists, path_stat. intros H. apply bool_decide_eq_true_1 in H.
  destruct H as [[q n] ->]. eauto.
Qed.



Lemma rotate_files_empties fs path keep :
  rotation_ready fs path keep ->
  exists fs1,
    rotate_files path keep fs = (Ok tt, fs1)
    /\ safe_target fs1 path
    /\ absolute fs1 path = absolute fs path
    /\ node_of fs1 path = Some (Regular []).
Proof.
  intros Hready. pose proof Hready as ((Hname & _) & _).
  destruct (rotate_files_keeps_safe fs path keep Hready) as (fs1 & Hrun & Hsafe & Habs).
  exists fs1. split; [exact Hrun|]. split; [exact Hsafe|]. split; [exact Habs|].
  rewrite node_of_target by exact Hname. rewrite Habs.
  destruct (Z.leb_spec keep 0) as [Hle|Hgt].
  - rewrite rotate_files_truncate in Hrun by (assumption || apply Hready).
    injection Hrun as <-. apply lookup_insert_eq.
  - assert (Hk : keep = Z.of_nat (S (Z.to_nat (keep - 1)))) by lia.
    pose proof Hready as Hready'. rewrite Hk in Hready'.
    pose proof (rotate_files_shift fs path _ Hready') as Hshift. cbv zeta in Hshift.
    rewrite <- Hk in Hshift. rewrite Hshift in Hrun.
    injection Hrun as <-. apply lookup_insert_eq.
Qed.

(** X20: the plain log file stays within its size limit.  On a target that
    is ready for rotation a write succeeds, and afterwards the file holds
    the line alone if the line would have taken it beyond
    [max_file_size_bytes], and what it held followed by the line otherwise;
    so its size is at most [max_file_size_bytes], or the size of the one
    line. *)
Theorem FileFacility_write_size_cap
    (self : FileFacility) (record : LogRecord) (fs : FileSystem)
    (encoded_line : bytes) :
  rotation_ready fs (ff_file_path self) (ff_rotations_to_keep self) ->
  encode_utf8 (file_line record) = Ok encoded_line ->
  exists fs',
    FileFacility_write self record fs = (Ok tt, fs')
    /\ node_of fs' (ff_file_path self)
       = Some (Regular
                 (if len (data_of (node_of fs (ff_file_path self))) + len encoded_line
                     >? ff_max_file_size_bytes self
                  then encoded_line
                  else data_of (node_of fs (ff_file_path self)) ++ encoded_line))
    /\ len (data_of (node_of fs' (ff_file_path self)))
       <= Z.max (ff_max_file_size_bytes self) (len encoded_line).
Proof.
  intros Hready Henc. set (path := ff_file_path self) in *.
  set (keep := ff_rotations_to_keep self) in *.
  pose proof Hready as ((Hname & Hdirs & Hplain) & Hchain).
  set (old := data_of (node_of fs path)) in *.
  assert (Hmid : exists fs_before,
    when (len old + len encoded_line >? ff_max_file_size_bytes self)
         (rotate_files path keep) fs = (Ok tt, fs_before)
    /\ safe_target fs_before path
    /\ absolute fs_before path = absolute fs path
    /\ data_of (node_of fs_before path)
       = if len old + len encoded_line >? ff_max_file_size_bytes self
         then [] else old).
  { destruct (len old + len encoded_line >? ff_max_file_size_bytes self).
    - destruct (rotate_files_empties fs path keep Hready)
        as (fs1 & Hrun & Hsafe1 & Habs1 & Hnode1).
      exists fs1. cbn [when]. rewrite Hnode1.
      split; [exact Hrun|split; [exact Hsafe1|split; [exact Habs1|reflexivity]]].
    - exists fs. cbn [when].
      split; [reflexivity|split; [repeat split; assumption|split; reflexivity]]. }
  destruct Hmid as (fs_before & Hwhen & Hsafe & Habs & Hdata).
  eexists. split; [|split].
  - unfold FileFacility_write. fold path. fold keep.
    erewrite run_bind by (apply run_guard; repeat split; assumption).
    rewrite Henc. erewrite run_bind by reflexivity.
    erewrite run_bind by (now apply current_size_safe).
    erewrite run_bind by exact Hwhen.
    unfold call. rewrite write_safe by exact Hsafe. reflexivity.
  - rewrite node_of_target by exact Hname. cbn [tree with_tree].
    rewrite absolute_with_tree, lookup_insert_eq, Hdata.
    now destruct (len old + len encoded_line >? ff_max_file_size_bytes self).
  - rewrite node_of_target by exact Hname. cbn [tree with_tree].
    rewrite absolute_with_tree, lookup_insert_eq, Hdata. cbn [data_of].
    destruct (Z.gtb_spec (len old + len encoded_line) (ff_max_file_size_bytes self)).
    + cbn [app]. lia.
    + rewrite len_app. lia.
Qed.

Lemma FileFacility_write_size_cap_witness :
  exists fs',
    FileFacility_write sample_file_facility sample_record sample_fs = (Ok tt, fs')
    /\ len (data_of (node_of fs' sample_log)) <= 34.
Proof.
  destruct (FileFacility_write_size_cap sample_file_facility sample_record sample_fs
              (ascii_bytes "[2026-01-02 03:04:05] [WARNING] a" ++ [Byte.x0a])
              sample_log_ready ltac:(vm_compute; reflexivity))
    as (fs' & Hrun & _ & Hcap).
  exists fs'. split; [exact Hrun|exact Hcap].
Defined.

(** ** File facility: construction *)

Lemma mkdir_chain_ready t dirs :
  Forall (fun d => node_at t d = Some Directory) dirs -> mkdir_chain t dirs = Ok t.
Proof.
  induction 1 as [|d rest Hd Hrest IH]; cbn [mkdir_chain]; [reflexivity|].
  now rewrite Hd.
Qed.

Lemma absolute_parent fs p :
  path_name p <> [] ->
  absolute fs (path_parent p) = removelast (absolute fs p).
Proof.
  intros Hname. rewrite !absolute_parts. cbn [path_parent is_absolute parts].
  rewrite (path_name_parts p Hname) at 2.
  rewrite app_assoc, removelast_last. reflexivity.
Qed.

(** The directories of a ready target are there: [mkdir] has nothing to
    do. *)
Lemma mkdir_parents_ready fs p :
  path_name p <> [] -> directories_ready fs p ->
  path_mkdir_parents fs (path_parent p) = Ok fs.
Proof.
  intros Hname Hdirs. unfold path_mkdir_parents. cbv zeta.
  rewrite mkdir_chain_ready; [cbn; now rewrite with_tree_same|].
  rewrite (absolute_parent fs p Hname).
  apply Forall_map, Forall_forall. intros k Hk. cbn beta.
  apply list_elem_of_In, in_seq in Hk.
  assert (Hlen : length (removelast (absolute fs p))
                 = Nat.pred (length (absolute fs p))).
  { rewrite (absolute_split fs p Hname) at 2. rewrite length_app. cbn.
    lia. }
  assert (Htake : firstn k (removelast (absolute fs p)) = take k (absolute fs p)).
  { rewrite (absolute_split fs p Hname) at 2.
    rewrite take_app_le by lia. reflexivity. }
  rewrite Htake. rewrite node_at_nonempty.
  - apply Hdirs. lia.
  - apply take_nonempty; [lia|]. now apply absolute_nonempty.
Qed.

Lemma write_keeps_safe fs p data :
  safe_target fs p ->
  safe_target (with_tree fs (<[absolute fs p := Regular data]> (tree fs))) p.
Proof.
  intros (Hname & Hdirs & Hplain). apply (target_safe fs p Hname Hdirs).
  - intros q Hq. apply lookup_insert_ne. intros <-. lia.
  - right. exists data. apply lookup_insert_eq.
Qed.

(** X21: constructing a file facility on a ready target.  With a valid
    handle, on a target whose directories exist and which is a plain file
    or missing (and, for [rotate_on_start], whose rotation chain is made of
    plain files), [FileFacility.create] returns the facility; afterwards
    the target is a plain file, empty if it was missing or rotated, with
    its old bytes otherwise; without rotation nothing else has changed. *)
Theorem FileFacility_create_on_ready_target
    (log_handle : pystr) (path : Path) (rotate_on_start : bool)
    (rotations_to_keep max_file_size_bytes : Z) (fs : FileSystem) :
  validate_handle log_handle = Ok tt ->
  safe_target fs path ->
  (rotate_on_start = true -> rotation_ready fs path rotations_to_keep) ->
  exists fs',
    FileFacility_create log_handle path rotate_on_start rotations_to_keep
      max_file_size_bytes fs
    = (Ok {| ff_handle := log_handle; ff_file_path := path;
             ff_rotations_to_keep := rotations_to_keep;
             ff_max_file_size_bytes := max_file_size_bytes |}, fs')
    /\ node_of fs' path
       = Some (Regular (if rotate_on_start then []
                        else data_of (node_of fs path)))
    /\ (rotate_on_start = false ->
        forall q, q <> absolute fs path -> tree fs' !! q = tree fs !! q).
Proof.
  intros Hhandle Hsafe Hrot. pose proof Hsafe as (Hname & Hdirs & Hplain).
  (* after the optional rotation *)
  assert (Hmid : exists fs1,
    when rotate_on_start (rotate_files path rotations_to_keep) fs = (Ok tt, fs1)
    /\ safe_target fs1 path
    /\ absolute fs1 path = absolute fs path
    /\ (if rotate_on_start then node_of fs1 path = Some (Regular [])
        else fs1 = fs)).
  { destruct rotate_on_start; cbn [when].
    - destruct (rotate_files_empties fs path rotations_to_keep (Hrot eq_refl))
        as (fs1 & Hrun & Hsafe1 & Habs1 & Hnode1).
      exists fs1. split; [exact Hrun|split; [exact Hsafe1|split; assumption]].
    - exists fs. split; [reflexivity|split; [exact Hsafe|split; reflexivity]]. }
  destruct Hmid as (fs1 & Hwhen & Hsafe1 & Habs1 & Hnode1).
  pose proof Hsafe1 as (_ & Hdirs1 & Hplain1).
  (* after the optional touch *)
  set (fs2 := if path_exists fs1 path then fs1
              else with_tree fs1 (<[absolute fs1 path := Regular []]> (tree fs1))).
  assert (Htouch : when (negb (path_exists fs1 path))
                     (call (fun x => path_touch x path)) fs1 = (Ok tt, fs2)).
  { subst fs2. destruct (path_exists fs1 path) eqn:Hex; cbn [negb when];
      [reflexivity|].
    unfold call, path_touch. rewrite Hex, write_safe by exact Hsafe1.
    rewrite (exists_safe fs1 path Hplain1) in Hex.
    apply bool_decide_eq_false_1 in Hex.
    destruct (node_of fs1 path) as [n|] eqn:Hn; [exfalso; apply Hex; eauto|].
    reflexivity. }
  assert (Hsafe2 : safe_target fs2 path).
  { subst fs2. destruct (path_exists fs1 path); [exact Hsafe1|].
    now apply write_keeps_safe. }
  assert (Hdata2 : node_of fs2 path = Some (Regular (data_of (node_of fs1 path)))).
  { subst fs2. rewrite (exists_safe fs1 path Hplain1).
    destruct Hplain1 as [Hn|[data Hn]]; rewrite Hn.
    - rewrite bool_decide_eq_false_2 by (intros [? ?]; discriminate).
      rewrite node_of_target by exact Hname. cbn [tree with_tree data_of].
      rewrite absolute_with_tree. apply lookup_insert_eq.
    - rewrite bool_decide_eq_true_2 by eauto. exact Hn. }
  eexists. split; [|split].
  - unfold FileFacility_create. rewrite Hhandle. cbv zeta.
    erewrite run_bind by reflexivity.
    erewrite run_bind
      by (unfold call; rewrite (mkdir_parents_ready fs path Hname Hdirs); reflexivity).
    erewrite run_bind by (apply run_guard; exact Hsafe).
    erewrite run_bind by exact Hwhen.
    erewrite run_bind by reflexivity.
    erewrite run_bind by exact Htouch.
    erewrite run_bind by (apply run_guard; exact Hsafe2).
    erewrite run_bind
      by (unfold call; rewrite (write_safe false fs2 path [] Hsafe2); reflexivity).
    reflexivity.
  - rewrite node_of_target by exact Hname. cbn [tree with_tree].
    rewrite absolute_with_tree, lookup_insert_eq, Hdata2, app_nil_r.
    destruct rotate_on_start; [now rewrite Hnode1|now subst fs1].
  - intros -> q Hq. subst fs1. cbn [tree with_tree].
    rewrite lookup_insert_ne.
    2:{ intros E. apply Hq. rewrite <- E. subst fs2.
        destruct (path_exists fs path); reflexivity. }
    subst fs2. destruct (path_exists fs path); [reflexivity|].
    cbn [tree with_tree]. apply lookup_insert_ne. congruence.
Qed.

Lemma FileFacility_create_on_ready_target_witness :
  exists fs',
    FileFacility_create (py "app") sample_log false 2 30 sample_fs
    = (Ok sample_file_facility, fs')
    /\ node_of fs' sample_log = Some (Regular (ascii_bytes "newest")).
Proof.
  destruct (FileFacility_create_on_ready_target (py "app") sample_log false 2 30
              sample_fs) as (fs' & Hrun & Hnode & _).
  - reflexivity.
  - apply sample_log_ready.
  - discriminate.
  - exists fs'. split; [exact Hrun|exact Hnode].
Defined.

(** ** The time budget of colorization *)

Lemma run_bind_raise {S A B} (m : M S A) (k : A -> M S B) s e s' :
  m s = (Raise e, s') -> (m ≫= k) s = (Raise e, s').
Proof. unfold mbind, M_bind. now intros ->. Qed.

Lemma scan_line_times_out env deadline line k :
  line <> [] ->
  Qle_bool deadline (perf_counter env k) = true ->
  scan_line env deadline line k = (Raise TimeoutError, S k).
Proof.
  intros Hline Hlate. unfold scan_line, quoted_content_spans.
  unfold mbind at 1, M_bind at 1. cbn [content_loop].
  destruct line as [|c r]; [congruence|]. cbn [length Nat.ltb Nat.leb].
  unfold mbind at 1, M_bind at 1, check_deadline. now rewrite Hlate.
Qed.

(** X22: colorization keeps to its time budget without failing.  The
    coloured console line and the rendered HTML line are always returned,
    never a [TimeoutError]; and when the deadline has passed at the first
    reading of the clock after it was set, a non-empty line is returned
    uncoloured: in its base colour on the console, escaped in HTML. *)
Theorem colorization_never_fails
    (env : Env) (line : pystr) (k : nat) :
  (forall record timeout,
     (exists text k',
        colorize_line_with_budget env line record timeout k = (Ok text, k'))
     /\ (line <> [] ->
         Qle_bool (deadline_after (perf_counter env k) timeout)
           (perf_counter env (S k)) = true ->
         colorize_line_with_budget env line record timeout k
         = (Ok (base_color record ++ line ++ ANSI_RESET), S (S k))))
  /\ (forall self idx_line,
        (exists text k', html_line env self idx_line line k = (Ok text, k'))
        /\ (line <> [] ->
            len line <= hf_max_line_length self ->
            Qle_bool (deadline_after (perf_counter env k) (hf_colorize_timeout_ms self))
              (perf_counter env (S k)) = true ->
            html_line env self idx_line line k
            = (Ok ((if (0 <? idx_line)%nat then [TAB] else [])
                     ++ escape_html_strict line), S (S k)))).
Proof.
  split.
  - intros record timeout. split; [apply colorize_line_with_budget_total|].
    intros Hline Hlate. unfold colorize_line_with_budget.
    erewrite run_bind by reflexivity. unfold catch_timeout.
    erewrite (run_bind_raise (scan_line _ _ _))
      by (apply scan_line_times_out; assumption).
    reflexivity.
  - intros self idx_line. split; [apply html_line_total|].
    intros Hline Hfits Hlate. unfold html_line.
    rewrite (proj2 (Z.leb_le _ _) Hfits). cbv zeta.
    erewrite run_bind by reflexivity. unfold catch_timeout.
    erewrite (run_bind_raise (scan_line _ _ _))
      by (apply scan_line_times_out; assumption).
    unfold mret, M_ret. f_equal. f_equal.
    destruct (0 <? idx_line)%nat; cbn; now rewrite app_nil_r.
Qed.

Lemma colorization_never_fails_witness :
  colorize_line_with_budget slow_env (py "a=1") sample_record 15 0%nat
  = (Ok (ANSI_WHITE ++ py "a=1" ++ ANSI_RESET), 2%nat).
Proof.
  apply (proj1 (colorization_never_fails slow_env (py "a=1") 0%nat) sample_record 15).
  - discriminate.
  - reflexivity.
Defined.

(** ** HTML facility: construction on an existing document *)

Lemma read_bytes_safe fs p data :
  plain_or_missing fs p -> node_of fs p = Some (Regular data) ->
  path_read_bytes fs p = Ok data.
Proof.
  intros Hp Hn. unfold path_read_bytes.
  now rewrite (plain_or_missing_follow fs p Hp), Hn.
Qed.

(** X23: opening an existing HTML log continues it.  With a valid handle
    and without rotation, on a safe target that holds a non-empty document,
    [HtmlFileFacility.create] leaves the file system as it is and returns a
    facility whose line number is the number of rows in the document, so
    the next row is numbered one higher. *)
Theorem HtmlFileFacility_create_reopens
    (env : Env) (log_handle : pystr) (path : Path) (title : pystr)
    (html_theme : HtmlTheme) (html_auto_refresh_enabled : bool)
    (html_auto_refresh_seconds max_line_length_ colorize_timeout_ms_
     max_document_bytes rotations_to_keep : Z)
    (fs : FileSystem) (data : bytes) (content : pystr) :
  validate_handle log_handle = Ok tt ->
  safe_target fs path ->
  node_of fs path = Some (Regular data) ->
  data <> [] ->
  decode_utf8 data = Ok content ->
  HtmlFileFacility_create env log_handle path title html_theme
    html_auto_refresh_enabled html_auto_refresh_seconds max_line_length_
    colorize_timeout_ms_ max_document_bytes false rotations_to_keep fs
  = (Ok {| hf_handle := log_handle; hf_file_path := path; hf_title := title;
           hf_theme := html_theme;
           hf_auto_refresh_enabled := html_auto_refresh_enabled;
           hf_auto_refresh_seconds := html_auto_refresh_seconds;
           hf_max_line_length := max_line_length_;
           hf_colorize_timeout_ms := colorize_timeout_ms_;
           hf_max_document_bytes := max_document_bytes;
           hf_line_number := count_from ROW_MARKER 0 content |}, fs).
Proof.
  intros Hhandle Hsafe Hnode Hdata Hdecode.
  pose proof Hsafe as (Hname & Hdirs & Hplain).
  unfold HtmlFileFacility_create. rewrite Hhandle. cbv zeta.
  erewrite run_bind by reflexivity.
  erewrite run_bind
    by (unfold call; rewrite (mkdir_parents_ready fs path Hname Hdirs); reflexivity).
  erewrite run_bind by (apply run_guard; exact Hsafe).
  erewrite run_bind by reflexivity.
  erewrite run_bind
    by (apply (ensure_document_present env _ fs data); assumption).
  erewrite run_bind; [reflexivity|].
  unfold detect_existing_line_count. cbn [hf_file_path]. cbv zeta.
  erewrite run_bind by reflexivity.
  rewrite (exists_safe fs path Hplain), Hnode.
  rewrite bool_decide_eq_true_2 by eauto.
  erewrite run_bind
    by (unfold query; rewrite (read_bytes_safe fs path data Hplain Hnode); reflexivity).
  rewrite Hdecode. erewrite run_bind by reflexivity. reflexivity.
Qed.

Lemma HtmlFileFacility_create_reopens_witness :
  exists facility,
    HtmlFileFacility_create sample_env (py "html") sample_log (py "T") THEME_DARK
      false 10 100 15 10000 false 0 sample_fs
    = (Ok facility, sample_fs)
    /\ hf_line_number facility = 0.
Proof.
  eexists. split.
  - apply (HtmlFileFacility_create_reopens sample_env (py "html") sample_log (py "T")
             THEME_DARK false 10 100 15 10000 0 sample_fs (ascii_bytes "newest")
             (py "newest")).
    + reflexivity.
    + apply sample_log_safe.
    + reflexivity.
    + discriminate.
    + reflexivity.
  - reflexivity.
Defined.

(** ** Router: reconfiguration *)

Lemma assign_positive_frame store value self :
  throttle (snd (assign_positive store value self)) = throttle self
  /\ facilities (snd (assign_positive store value self)) = facilities self.
Proof.
  unfold assign_positive, mbind, M_bind, lift_res, validate_positive.
  destruct (value <=? 0); split; reflexivity.
Qed.

Lemma frame_bind {A B} (m : M LoggerRouter A) (f : A -> M LoggerRouter B) self :
  (forall s, throttle (snd (m s)) = throttle s
             /\ facilities (snd (m s)) = facilities s) ->
  (forall a s, throttle (snd (f a s)) = throttle s
               /\ facilities (snd (f a s)) = facilities s) ->
  throttle (snd ((m ≫= f) self)) = throttle self
  /\ facilities (snd ((m ≫= f) self)) = facilities self.
Proof.
  intros Hm Hf. unfold mbind, M_bind. specialize (Hm self).
  destruct (m self) as [[a|e] s1]; cbn [snd] in *; [|exact Hm].
  destruct (Hf a s1) as (H1 & H2). destruct Hm as (H3 & H4). split; congruence.
Qed.

Lemma assign_limits_frame level a b c d e f g h i j self :
  throttle (snd (assign_limits level a b c d e f g h i j self)) = throttle self
  /\ facilities (snd (assign_limits level a b c d e f g h i j self))
     = facilities self.
Proof.
  unfold assign_limits.
  repeat (apply frame_bind; [|intros _; intros ?]);
    try apply assign_positive_frame; try (intros; apply assign_positive_frame);
    intros; split; reflexivity.
Qed.

Lemma assign_positive_ok store value self :
  0 < value ->
  assign_positive store value self
  = (Ok tt, with_config self (store value (config self))).
Proof.
  intros H. unfold assign_positive, mbind, M_bind, lift_res, validate_positive.
  now destruct (Z.leb_spec value 0); [lia|].
Qed.

Lemma assign_positive_bad store value self :
  value <= 0 -> assign_positive store value self = (Raise ValueError, self).
Proof.
  intros H. unfold assign_positive, mbind, M_bind, lift_res, validate_positive.
  now destruct (Z.leb_spec value 0); [|lia].
Qed.

Lemma assign_positive_then {B} store value (k : unit -> M LoggerRouter B) self :
  0 < value ->
  (assign_positive store value ≫= k) self
  = k tt (with_config self (store value (config self))).
Proof.
  intros H. unfold mbind, M_bind. fold (@mbind (M LoggerRouter) _).
  now rewrite assign_positive_ok.
Qed.

Lemma assign_positive_else {B} store value (k : unit -> M LoggerRouter B) self :
  value <= 0 ->
  fst ((assign_positive store value ≫= k) self) = Raise ValueError.
Proof.
  intros H. unfold mbind, M_bind. fold (@mbind (M LoggerRouter) _).
  now rewrite assign_positive_bad.
Qed.

Ltac assigned :=
  rewrite assign_positive_then by assumption;
  cbn [set_level with_config config throttle facilities logger_level limits
       max_message_length max_message_lines max_line_length
       max_log_handles_per_call colorize_timeout_ms max_html_document_bytes
       max_html_title_length max_writes_per_second throttle_window_seconds
       plain_log_max_file_size_bytes].

Lemma assign_limits_result level a b c d e f g h i j self :
  (0 < a /\ 0 < b /\ 0 < c /\ 0 < d /\ 0 < e /\ 0 < f /\ 0 < g /\ 0 < h
   /\ 0 < i /\ 0 < j ->
   assign_limits level a b c d e f g h i j self
   = (Ok tt,
      with_config self
        {| logger_level := level;
           limits := {| max_message_length := a; max_message_lines := b;
                        max_line_length := c |};
           max_log_handles_per_call := d; colorize_timeout_ms := e;
           max_html_document_bytes := f; max_html_title_length := g;
           max_writes_per_second := h; throttle_window_seconds := i;
           plain_log_max_file_size_bytes := j |}))
  /\ (~ (0 < a /\ 0 < b /\ 0 < c /\ 0 < d /\ 0 < e /\ 0 < f /\ 0 < g /\ 0 < h
         /\ 0 < i /\ 0 < j) ->
      fst (assign_limits level a b c d e f g h i j self) = Raise ValueError).
Proof.
  split.
  - intros (Ha & Hb & Hc & Hd & He & Hf & Hg & Hh & Hi & Hj).
    unfold assign_limits.
    erewrite run_bind by reflexivity.
    do 9 assigned.
    rewrite assign_positive_ok by assumption. reflexivity.
  - intros Hbad. unfold assign_limits.
    erewrite run_bind by reflexivity.
    repeat
      match goal with
      | |- fst ((assign_positive ?store ?v ≫= _) ?s) = _ =>
          destruct (Z.ltb_spec 0 v);
          [assigned|apply assign_positive_else; assumption]
      end.
    match goal with
    | |- fst (assign_positive ?store ?v ?s) = _ =>
        destruct (Z.ltb_spec 0 v);
        [exfalso; apply Hbad; repeat split; assumption
        |rewrite assign_positive_bad by assumption; reflexivity]
    end.
Qed.

(** X24: configuring the live router again.  Whatever the values, the
    throttle counters and the facilities other than the console are as
    before.  With ten positive limits the call returns, the configuration
    is the new one and a console facility has the new colour and limits, in
    its old place; with a limit that is not positive the call raises
    [ValueError] and the facilities are all as before. *)
Theorem reconfiguration_keeps_facilities
    (level : LoggerLevel) (color : bool) (a b c d e f g h i j : Z)
    (self : LoggerRouter) :
  let out := LoggerRouter_reconfigure level color a b c d e f g h i j self in
  let positive := 0 < a /\ 0 < b /\ 0 < c /\ 0 < d /\ 0 < e /\ 0 < f /\ 0 < g
                  /\ 0 < h /\ 0 < i /\ 0 < j in
  throttle (snd out) = throttle self
  /\ (forall handle, handle <> HANDLE_CONSOLE ->
        dict_get handle (facilities (snd out)) = dict_get handle (facilities self))
  /\ (positive ->
      fst out = Ok tt
      /\ config (snd out)
         = {| logger_level := level;
              limits := {| max_message_length := a; max_message_lines := b;
                           max_line_length := c |};
              max_log_handles_per_call := d; colorize_timeout_ms := e;
              max_html_document_bytes := f; max_html_title_length := g;
              max_writes_per_second := h; throttle_window_seconds := i;
              plain_log_max_file_size_bytes := j |}
      /\ (forall console,
            dict_get HANDLE_CONSOLE (facilities self) = Some (Console console) ->
            dict_get HANDLE_CONSOLE (facilities (snd out))
            = Some (Console {| cf_color := color; cf_max_line_length := c;
                               cf_colorize_timeout_ms := e |})
            /\ get_handles (snd out) = get_handles self))
  /\ (~ positive ->
      fst out = Raise ValueError /\ facilities (snd out) = facilities self).
Proof.
  intros out positive. subst out. unfold LoggerRouter_reconfigure.
  destruct (assign_limits_frame level a b c d e f g h i j self) as (Ht & Hf).
  destruct (assign_limits_result level a b c d e f g h i j self) as (Hok & Hbad).
  unfold mbind, M_bind, modify.
  destruct (assign_limits level a b c d e f g h i j self) as [[[]|err] self1] eqn:E;
    cbn [fst snd] in *.
  - assert (Hother : forall handle, handle <> HANDLE_CONSOLE ->
              dict_get handle
                (facilities
                   match dict_get HANDLE_CONSOLE (facilities self1) with
                   | None =>
                       with_facilities self1
                         (dict_set HANDLE_CONSOLE
                            (Console
                               {| cf_color := color;
                                  cf_max_line_length :=
                                    max_line_length (limits (config self1));
                                  cf_colorize_timeout_ms :=
                                    colorize_timeout_ms (config self1) |})
                            (facilities self1))
                   | Some (Console console) =>
                       with_facilities self1
                         (dict_set HANDLE_CONSOLE
                            (Console (ConsoleFacility_set_limits
                                        (ConsoleFacility_set_color console color)
                                        (max_line_length (limits (config self1)))
                                        (colorize_timeout_ms (config self1))))
                            (facilities self1))
                   | Some _ => self1
                   end)
              = dict_get handle (facilities self)).
    { intros handle Hne. rewrite <- Hf.
      destruct (dict_get HANDLE_CONSOLE (facilities self1)) as [[console|?|?]|];
        cbn [with_facilities facilities]; try reflexivity;
        now apply dict_get_set_ne. }
    split; [|split; [exact Hother|split]].
    + destruct (dict_get HANDLE_CONSOLE (facilities self1)) as [[console|?|?]|];
        exact Ht.
    + intros Hpos. specialize (Hok Hpos). injection Hok as ->.
      split; [reflexivity|]. split.
      * destruct (dict_get HANDLE_CONSOLE (facilities (with_config self _)))
          as [[console|?|?]|]; reflexivity.
      * intros console Hget. cbn [with_config facilities config limits
          max_line_length colorize_timeout_ms]. rewrite Hget.
        cbn [with_facilities facilities]. split.
        -- apply dict_get_set_eq. rewrite Hget. eauto.
        -- unfold get_handles. cbn [facilities]. apply dict_keys_set.
           rewrite Hget. eauto.
    + intros Hneg. specialize (Hbad Hneg). discriminate Hbad.
  - split; [exact Ht|]. split; [intros handle _; now rewrite Hf|]. split.
    + intros Hpos. specialize (Hok Hpos). discriminate Hok.
    + intros Hneg. split; [exact (Hbad Hneg)|exact Hf].
Qed.

Lemma reconfiguration_keeps_facilities_witness :
  fst (LoggerRouter_reconfigure LEVEL_DEBUG true 100 10 80 4 15 1000 20 5 1 500
         sample_router) = Ok tt
  /\ get_handles
       (snd (LoggerRouter_reconfigure LEVEL_DEBUG true 100 10 80 4 15 1000 20 5 1
               500 sample_router))
     = [HANDLE_CONSOLE; py "app"].
Proof.
  destruct (reconfiguration_keeps_facilities LEVEL_DEBUG true 100 10 80 4 15 1000
              20 5 1 500 sample_router) as (_ & _ & Hok & _).
  destruct Hok as (Hrun & _ & Hconsole); [repeat split; lia|].
  split; [exact Hrun|].
  destruct (Hconsole {| cf_color := false; cf_max_line_length := 4096;
                        cf_colorize_timeout_ms := 15 |} eq_refl) as (_ & Hhandles).
  exact Hhandles.
Defined.

(** ** Syntax colorizer: left-hand sides *)

Lemma ident_run_spec pc text U fuel : forall idx k,
  (idx <= length text)%nat ->
  exists end_,
    ident_run pc None text U fuel idx k = (Ok end_, k)
    /\ (idx <= end_ <= length text)%nat
    /\ forall i, (idx <= i < end_)%nat ->
         isalnum U (char_at text i) || (char_at text i =? 95)%N = true.
Proof.
  induction fuel as [|fuel IH]; intros idx k Hidx; cbn [ident_run].
  - exists idx. split; [reflexivity|]. split; [lia|]. intros i Hi. lia.
  - destruct ((idx <? length text)%nat
              && (isalnum U (char_at text idx) || (char_at text idx =? 95)%N)) eqn:E.
    + apply andb_true_iff in E as (Hlt & Hc). apply Nat.ltb_lt in Hlt.
      unfold mbind, M_bind, check_deadline.
      destruct (IH (idx + 1)%nat k ltac:(lia)) as (end_ & Hrun & Hrange & Hall).
      exists end_. split; [exact Hrun|]. split; [lia|].
      intros i Hi. destruct (Nat.eq_dec i idx) as [->|Hne]; [exact Hc|].
      apply Hall. lia.
    + exists idx. split; [reflexivity|]. split; [lia|]. intros i Hi. lia.
Qed.

Lemma skip_space_spec text fuel : forall lookahead,
  (lookahead <= skip_space text fuel lookahead)%nat
  /\ forall i, (lookahead <= i < skip_space text fuel lookahead)%nat ->
       isspace (char_at text i) = true.
Proof.
  induction fuel as [|fuel IH]; intros lookahead; cbn [skip_space].
  - split; [lia|]. intros i Hi. lia.
  - destruct ((lookahead <? length text)%nat && isspace (char_at text lookahead))
      eqn:E.
    + apply andb_true_iff in E as (_ & Hc).
      destruct (IH (lookahead + 1)%nat) as (Hle & Hall). split; [lia|].
      intros i Hi. destruct (Nat.eq_dec i lookahead) as [->|Hne]; [exact Hc|].
      apply Hall. lia.
    + split; [lia|]. intros i Hi. lia.
Qed.

Lemma lhs_loop_spec pc text U fuel : forall idx spans k,
  Forall (lhs_of_equals U text) spans ->
  exists spans',
    lhs_loop pc None text U fuel idx spans k = (Ok spans', k)
    /\ Forall (lhs_of_equals U text) spans'.
Proof.
  induction fuel as [|fuel IH]; intros idx spans k Hspans; cbn [lhs_loop].
  - exists spans. split; [reflexivity|exact Hspans].
  - destruct (idx <? length text)%nat eqn:Hlt;
      [|exists spans; split; [reflexivity|exact Hspans]].
    apply Nat.ltb_lt in Hlt.
    unfold mbind at 1, M_bind at 1, check_deadline.
    destruct (isalpha U (char_at text idx) || (char_at text idx =? 95)%N) eqn:Hc;
      cbn [negb]; [|now apply IH].
    destruct (ident_run_spec pc text U (length text) (idx + 1)%nat k ltac:(lia))
      as (end_ & Hrun & Hrange & Hall).
    erewrite run_bind by exact Hrun. cbv zeta.
    destruct (skip_space_spec text (length text) end_) as (Hle & Hspace).
    destruct ((skip_space text (length text) end_ <? length text)%nat
              && (char_at text (skip_space text (length text) end_) =? 61)%N) eqn:E;
      [|now apply IH].
    apply andb_true_iff in E as (Hin & Heq).
    apply Nat.ltb_lt in Hin. apply N.eqb_eq in Heq.
    apply IH. apply Forall_app. split; [exact Hspans|].
    constructor; [|constructor]. unfold lhs_of_equals. cbn [fst snd].
    split; [lia|]. split; [exact Hc|]. split.
    + intros i Hi. apply Hall. lia.
    + exists (skip_space text (length text) end_).
      split; [lia|]. split; [exact Heq|exact Hspace].
Qed.

(** X25: every span [lhs_equals_spans] returns is the left-hand side of an
    equals sign: it lies in the text, begins with a letter or an
    underscore, goes on with letters, digits and underscores, and only
    whitespace stands between it and an equals sign.  Without a deadline
    the scan returns and does not read the clock. *)
Theorem lhs_equals_spans_sound
    (perf_counter : nat -> Q) (text : pystr) (U : Unicode) (k : nat) :
  exists spans,
    lhs_equals_spans perf_counter None text U k = (Ok spans, k)
    /\ Forall (lhs_of_equals U text) spans.
Proof. apply lhs_loop_spec. constructor. Qed.

Example lhs_equals_spans_runs :
  lhs_equals_spans (fun _ => 0%Q) None (py "user_id = 42, x=1") ascii_unicode 0%nat
  = (Ok [(0, 7); (14, 15)]%nat, 0%nat).
Proof. vm_compute. reflexivity. Qed.
